(** * Speaker identification pipeline: [process_conversation]

    A shallow embedding of [src/modules/speaker_id.py].  The module holds one
    function, [process_conversation], which drives a set of collaborators
    (audio conversion, transcription, the database, the voice matcher, the
    vector index, the file system).  None of the collaborators is defined in
    the module, so they are taken as an interface ([Env]); the function
    itself is written in a small monad with state (the world the
    collaborators act on), exceptions (Python's [raise] / [try] / [except] /
    [finally]) and a trace of the calls made, each with the answer it got. *)

From Stdlib Require Import QArith Ascii.
From stdpp Require Import gmap strings list sorting pretty.

Set Default Proof Using "Type".
Open Scope Z_scope.

(** ** Python values *)

Module Py.

(** JSON-like values, as found in the transcription provider's answer and in
    the dictionaries the function builds.  Floats are rationals: the code only
    compares them and passes them on. *)
#[warnings="-register-all"]
Inductive pyval : Type :=
| PyNone
| PyBool (b : bool)
| PyInt (z : Z)
| PyFloat (q : Q)
| PyStr (s : string)
| PyList (l : list pyval)
| PyDict (d : gmap string pyval).

(** The exceptions that can show up; all of them are subclasses of Python's
    [Exception], which is what the handler of [process_conversation] catches.
    [OtherError] stands for whatever a collaborator raises. *)
Inductive exn : Type :=
| KeyError (key : string)
| TypeError
| ValueError
| UnboundLocalError (name : string)
| OtherError (what : string).

Definition res (A : Type) : Type := exn + A.

(** [d[k]] on a dict. *)
Definition getitem (d : gmap string pyval) (k : string) : res pyval :=
  match d !! k with
  | Some v => inr v
  | None => inl (KeyError k)
  end.

(** [d.get(k, dflt)]. *)
Definition get_default (d : gmap string pyval) (k : string) (dflt : pyval) : pyval :=
  default dflt (d !! k).

Section Builtins.
(** Python's parser of integer literals, [int(s)] for a [str], and its
    [repr] for floats and containers are taken as given. *)
Variable int_of_str : string → option Z.
Variable py_repr : pyval → string.

(** [int(v)]: integers as they are, floats truncated toward zero, strings
    parsed, anything else a [TypeError]. *)
Definition py_int (v : pyval) : res Z :=
  match v with
  | PyInt z => inr z
  | PyBool b => inr (if b then 1 else 0)
  | PyFloat q => inr (Z.quot (Qnum q) (Z.pos (Qden q)))
  | PyStr s =>
      match int_of_str s with
      | Some z => inr z
      | None => inl ValueError
      end
  | PyNone | PyList _ | PyDict _ => inl TypeError
  end.

(** [f"{v}"]: the [str] of a value. *)
Definition py_format (v : pyval) : string :=
  match v with
  | PyStr s => s
  | PyInt z => pretty z
  | PyNone => "None"
  | PyBool true => "True"
  | PyBool false => "False"
  | PyFloat _ | PyList _ | PyDict _ => py_repr v
  end.
End Builtins.

(** [v > t] for a float [t]: numbers compare by value, anything else raises
    [TypeError]. *)
Definition py_gt (v : pyval) (t : Q) : res bool :=
  match v with
  | PyFloat q => inr (negb (Qle_bool q t))
  | PyInt z => inr (negb (Qle_bool (inject_Z z) t))
  | PyBool b => inr (negb (Qle_bool (inject_Z (if b then 1 else 0)) t))
  | PyNone | PyStr _ | PyList _ | PyDict _ => inl TypeError
  end.

(** [not name] for a value that is [None] or a [str]. *)
Definition falsy (name : option string) : bool :=
  match name with
  | None => true
  | Some s => bool_decide (s = "")
  end.

(** [os.path.basename]: what follows the last slash. *)
Fixpoint basename_from (acc p : string) : string :=
  match p with
  | EmptyString => acc
  | String c rest =>
      if bool_decide (c = "/"%char) then basename_from "" rest
      else basename_from (acc +:+ String c "") rest
  end.

Definition basename (p : string) : string := basename_from "" p.

(** [f"{i:03d}"]: decimal, padded with zeros to three digits. *)
Definition fmt_03d (i : nat) : string :=
  let s := pretty i in
  String.concat "" (replicate (3 - String.length s)%nat "0") +:+ s.

End Py.
Export Py.

(** ** Data passed between the function and its collaborators *)

(** A Python dict with string keys: an utterance of the transcript, the
    record built for it, the record stored for it. *)
Abbreviation dict := (gmap string pyval).

(** The transcription provider's answer; only its ['utterances'] entry is
    read, and it may be absent. *)
Record transcript : Type := Transcript {
  td_utterances : option (list dict)
}.

(** The dict handed to [add_conversation] (lines 23-28). *)
Record conversation_info : Type := ConversationInfo {
  ci_conversation_id : string;
  ci_original_audio : string;
  ci_duration_seconds : Q;
  ci_display_name : option string
}.

(** The dict returned on success (lines 122-128). *)
Record result : Type := Result {
  r_conversation_id : string;
  r_original_file : string;
  r_s3_path : string;
  r_utterances : list dict;
  r_timestamp : string
}.

(** The variables of the loop that outlive an iteration.  [s3_path] is
    [None] as long as the Python variable is unbound. *)
Record locals : Type := Locals {
  utterance_metadata : list dict;
  s3_path : option string
}.

(** Where in the function a call is made. *)
Inductive site : Type :=
| Prelude            (* lines 3-19, before the [try] *)
| Body               (* lines 22-30, in the [try], before the loop *)
| Iter (i : nat)     (* lines 35-109, iteration [i] of the loop *)
| Epilogue           (* lines 111-128, in the [try], after the loop *)
| Handler            (* lines 130-134 *)
| Cleanup.           (* lines 135-139 *)

(** What [print] writes. *)
Inductive message : Type :=
| MsgProcessing (file_path : string)
| MsgAddedConversation (db_conversation_id : pyval)
| MsgSkippingShort (duration_ms : Z)
| MsgSuccess (count : nat) (conversation_id : string)
| MsgError (e : exn)
| MsgTraceback (e : exn)
| MsgRemoved (wav_file : string).

Section Calls.
Variables Audio Embedding : Type.

(** What [test_voice_segment] returns:
    [speaker_name, confidence, embedding_id, embedding]. *)
Definition match_result : Type :=
  (option string * Q * pyval * option Embedding)%type.

(** A call to a collaborator, with its arguments and its answer. *)
Inductive call : Type :=
| Print (m : message)
| DatetimeNow (r : string)
| ConvertToWav (file_path : string) (r : res string)
| FromWav (wav_file : string) (r : res Audio)
| Transcribe (wav_file : string) (r : res transcript)
| AddConversation (info : conversation_info) (r : res pyval)
| TestVoiceSegment (segment : Audio) (conversation_id : string) (i : nat)
    (match_threshold : Q) (r : res match_result)
| AddSpeaker (speaker_name : string) (r : res pyval)
| AutoUpdateEmbedding (embedding_np : Embedding) (speaker_name : string)
    (audio_source : string) (confidence : pyval) (threshold : Q) (r : res unit)
| Uuid4 (r : string)
| AddUtterance (utterance_info : dict) (r : res unit)
| IdentifyUnknown (utterances : list dict) (conversation_id : string)
    (full_audio : Audio) (match_threshold auto_update_threshold : Q)
    (r : res (list dict))
| PathExists (path : string) (r : bool)
| OsRemove (path : string) (r : res unit).

Inductive event : Type := Ev (s : site) (c : call).

Definition ev_site (e : event) : site := let 'Ev s _ := e in s.
Definition ev_call (e : event) : call := let 'Ev _ c := e in c.
End Calls.

Arguments Print {Audio Embedding}.
Arguments DatetimeNow {Audio Embedding}.
Arguments ConvertToWav {Audio Embedding}.
Arguments FromWav {Audio Embedding}.
Arguments Transcribe {Audio Embedding}.
Arguments AddConversation {Audio Embedding}.
Arguments TestVoiceSegment {Audio Embedding}.
Arguments AddSpeaker {Audio Embedding}.
Arguments AutoUpdateEmbedding {Audio Embedding}.
Arguments Uuid4 {Audio Embedding}.
Arguments AddUtterance {Audio Embedding}.
Arguments IdentifyUnknown {Audio Embedding}.
Arguments PathExists {Audio Embedding}.
Arguments OsRemove {Audio Embedding}.
Arguments Ev {Audio Embedding}.
Arguments ev_site {Audio Embedding}.
Arguments ev_call {Audio Embedding}.

(** ** The collaborators *)

(** Everything [process_conversation] uses and does not define: the module's
    constants, the helpers of the repository and the library calls.  A
    collaborator acts on the world (the database, the vector index, the file
    system, the clock) and either answers or raises. *)
Class Env (World Audio Embedding : Type) : Type := {
  S3_BASE_PATH : string;
  S3_UTTERANCES_PATH : string;
  MATCH_THRESHOLD : Q;
  AUTO_UPDATE_CONFIDENCE_THRESHOLD : Q;
  int_of_str : string → option Z;
  py_repr : pyval → string;
  format_time : Z → string;
  (* [n / 1000.0]: the float nearest to the quotient, as Python's true
     division gives it *)
  truediv_1000 : Z → Q;
  (* [len(full_audio)], in milliseconds, and [full_audio[a:b]] *)
  audio_len : Audio → Z;
  audio_slice : Audio → Z → Z → Audio;
  (* [datetime.now().strftime('%Y%m%d_%H%M%S')], [datetime.now().isoformat()] *)
  now_strftime : World → string;
  now_isoformat : World → string;
  (* [uuid.uuid4().hex[:8]] *)
  uuid4_hex8 : World → string * World;
  convert_to_wav : string → World → res string * World;
  from_wav : string → World → res Audio * World;
  transcribe : string → World → res transcript * World;
  add_conversation : conversation_info → World → res pyval * World;
  test_voice_segment :
    Audio → string → nat → Q → World → res (match_result Embedding) * World;
  add_speaker : string → World → res pyval * World;
  (* the keyword arguments, but for [index], the module's global handle on
     the vector index, which is part of the world *)
  auto_update_embedding :
    Embedding → string → string → pyval → Q → World → res unit * World;
  add_utterance : dict → World → res unit * World;
  identify_unknown_speakers_by_combining :
    list dict → string → Audio → Q → Q → World → res (list dict) * World;
  path_exists : string → World → bool;
  os_remove : string → World → res unit * World
}.

(** ** The monad: state, exceptions, trace *)

Section Monad.
Context {World Audio Embedding : Type}.

(** How a computation ends: with a value or an exception, in some world,
    having made some calls. *)
Record Run (A : Type) : Type := MkRun {
  outcome : res A;
  final : World;
  trace : list (event Audio Embedding)
}.
Global Arguments MkRun {A}.
Global Arguments outcome {A}.
Global Arguments final {A}.
Global Arguments trace {A}.

Definition M (A : Type) : Type := World → Run A.

Definition ret {A} (a : A) : M A := λ w, MkRun (inr a) w [].

Definition raise {A} (e : exn) : M A := λ w, MkRun (inl e) w [].

(** The run [r], after the calls [t]. *)
Definition prepend {A} (t : list (event Audio Embedding)) (r : Run A) : Run A :=
  MkRun (outcome r) (final r) (t ++ trace r).
Global Arguments prepend {A} t !r /.

Definition bind {A B} (m : M A) (k : A → M B) : M B := λ w,
  match outcome (m w) with
  | inl e => MkRun (inl e) (final (m w)) (trace (m w))
  | inr a => prepend (trace (m w)) (k a (final (m w)))
  end.

(** A pure step that may raise. *)
Definition lift {A} (x : res A) : M A := λ w, MkRun x w [].

(** A call that may raise. *)
Definition invoke {A} (s : site) (c : res A → call Audio Embedding)
    (f : World → res A * World) : M A := λ w,
  MkRun (f w).1 (f w).2 [Ev s (c (f w).1)].

(** A call that does not raise. *)
Definition invoke_total {A} (s : site) (c : A → call Audio Embedding)
    (f : World → A * World) : M A := λ w,
  MkRun (inr (f w).1) (f w).2 [Ev s (c (f w).1)].

(** A call that only reads the world. *)
Definition observe {A} (s : site) (c : A → call Audio Embedding)
    (f : World → A) : M A := λ w, MkRun (inr (f w)) w [Ev s (c (f w))].

Definition print (s : site) (m : message) : M unit := λ w,
  MkRun (inr tt) w [Ev s (Print m)].

(** [try: m  except Exception as e: h e]. *)
Definition try_except {A} (m : M A) (h : exn → M A) : M A := λ w,
  match outcome (m w) with
  | inl e => prepend (trace (m w)) (h e (final (m w)))
  | inr a => m w
  end.

(** The outcome of a [try] block once its [finally] block has run: the
    exception of the [finally] block if it raised, the outcome of the
    [try] block otherwise. *)
Definition settle {A} (o : res A) (r : Run unit) : Run A :=
  match outcome r with
  | inl e => MkRun (inl e) (final r) (trace r)
  | inr _ => MkRun o (final r) (trace r)
  end.

(** [try: m  finally: c]: [c] runs whatever [m] did. *)
Definition finally {A} (m : M A) (c : M unit) : M A := λ w,
  prepend (trace (m w)) (settle (outcome (m w)) (c (final (m w)))).

Global Instance M_ret : MRet M := @ret.
Global Instance M_bind : MBind M := λ A B k m, bind m k.
End Monad.

Arguments Run : clear implicits.
Arguments M : clear implicits.

(** ** The function *)

Section Program.
Context {World Audio Embedding : Type} `{!Env World Audio Embedding}.

Local Abbreviation M := (M World Audio Embedding).
Local Abbreviation event := (event Audio Embedding).

(** [f"{S3_BASE_PATH}/{conversation_id}/{S3_UTTERANCES_PATH}/utterance_{i:03d}.wav"]
    (lines 82 and 94). *)
Definition utterance_wav_path (conversation_id : string) (i : nat) : string :=
  S3_BASE_PATH +:+ "/" +:+ conversation_id +:+ "/" +:+ S3_UTTERANCES_PATH
    +:+ "/utterance_" +:+ fmt_03d i +:+ ".wav".

(** The record of lines 64-76. *)
Definition utterance_data (i : nat) (start_ms end_ms : Z) (text confidence : pyval)
    (speaker_name : string) (embedding_id words db_conversation_id : pyval) : dict :=
  list_to_map [
    ("id", PyInt (Z.of_nat i));
    ("start_ms", PyInt start_ms);
    ("end_ms", PyInt end_ms);
    ("start_time", PyStr (format_time start_ms));
    ("end_time", PyStr (format_time end_ms));
    ("text", text);
    ("confidence", confidence);
    ("speaker", PyStr speaker_name);
    ("embedding_id", embedding_id);
    ("words", words);
    ("conversation_id", db_conversation_id)
  ].

(** The record of lines 95-109. *)
Definition utterance_info (uid : string) (start_ms end_ms : Z)
    (text confidence embedding_id : pyval) (audio_file : string)
    (speaker_id : pyval) (speaker_name : string)
    (db_conversation_id words : pyval) : dict :=
  list_to_map [
    ("utterance_id", PyStr ("utterance_" +:+ uid));
    ("start_time", PyStr (format_time start_ms));
    ("end_time", PyStr (format_time end_ms));
    ("start_ms", PyInt start_ms);
    ("end_ms", PyInt end_ms);
    ("text", text);
    ("confidence", confidence);
    ("embedding_id", embedding_id);
    ("audio_file", PyStr audio_file);
    ("speaker_id", speaker_id);
    ("speaker", PyStr speaker_name);
    ("conversation_id", db_conversation_id);
    ("words", words)
  ].

(** Lines 55-58: the name and the confidence kept for the utterance. *)
Definition resolve_speaker (utterance : dict) (speaker_name : option string)
    (confidence : Q) : res (string * pyval) :=
  if falsy speaker_name then
    match getitem utterance "speaker" with
    | inl e => inl e
    | inr tag =>
        inr ("Speaker_" +:+ py_format py_repr tag,
             get_default utterance "confidence" (PyFloat 0))
    end
  else inr (default "" speaker_name, PyFloat confidence).

(** Lines 79-91: the gate of auto-enrollment. *)
Definition maybe_auto_update (conversation_id : string) (i : nat)
    (auto_update_threshold : Q) (embedding : option Embedding)
    (speaker_name : string) (confidence : pyval) : M unit :=
  match embedding with
  | None => mret tt
  | Some e =>
      above ← lift (py_gt confidence auto_update_threshold);
      if above : bool then
        let source_info := utterance_wav_path conversation_id i in
        invoke (Iter i)
          (AutoUpdateEmbedding e speaker_name source_info confidence
             auto_update_threshold)
          (auto_update_embedding e speaker_name source_info confidence
             auto_update_threshold)
      else mret tt
  end.

(** Lines 35-109: the body of the loop.  [continue] is the return of the
    locals as they were. *)
Definition process_utterance (conversation_id : string) (full_audio : Audio)
    (db_conversation_id : pyval) (match_threshold auto_update_threshold : Q)
    (i : nat) (utterance : dict) (loc : locals) : M locals :=
  if bool_decide (utterance !! "words" = None) then mret loc
  else
    start ← lift (getitem utterance "start");
    start_ms ← lift (py_int int_of_str start);
    end_ ← lift (getitem utterance "end");
    end_ms ← lift (py_int int_of_str end_);
    let duration_ms := end_ms - start_ms in
    if bool_decide (duration_ms < 700) then
      print (Iter i) (MsgSkippingShort duration_ms);;
      mret loc
    else
      let audio_segment := audio_slice full_audio start_ms end_ms in
      '(speaker_name, confidence, embedding_id, embedding) ←
        invoke (Iter i)
          (TestVoiceSegment audio_segment conversation_id i match_threshold)
          (test_voice_segment audio_segment conversation_id i match_threshold);
      '(speaker_name, confidence) ←
        lift (resolve_speaker utterance speaker_name confidence);
      speaker_id ← invoke (Iter i) (AddSpeaker speaker_name)
                     (add_speaker speaker_name);
      text ← lift (getitem utterance "text");
      words ← lift (getitem utterance "words");
      let data :=
        utterance_data i start_ms end_ms text confidence speaker_name
          embedding_id words db_conversation_id in
      let metadata := utterance_metadata loc ++ [data] in
      maybe_auto_update conversation_id i auto_update_threshold embedding
        speaker_name confidence;;
      let path := utterance_wav_path conversation_id i in
      uid ← invoke_total (Iter i) Uuid4 uuid4_hex8;
      let info :=
        utterance_info uid start_ms end_ms text confidence embedding_id path
          speaker_id speaker_name db_conversation_id words in
      invoke (Iter i) (AddUtterance info) (add_utterance info);;
      mret (Locals metadata (Some path)).

(** Line 34: [for i, utterance in enumerate(utterances)], from index [i]. *)
Fixpoint for_utterances (conversation_id : string) (full_audio : Audio)
    (db_conversation_id : pyval) (match_threshold auto_update_threshold : Q)
    (i : nat) (utterances : list dict) (loc : locals) : M locals :=
  match utterances with
  | [] => mret loc
  | utterance :: rest =>
      loc' ← process_utterance conversation_id full_audio db_conversation_id
               match_threshold auto_update_threshold i utterance loc;
      for_utterances conversation_id full_audio db_conversation_id
        match_threshold auto_update_threshold (S i) rest loc'
  end.

(** Line 125: reading [s3_path], bound or not. *)
Definition read_s3_path (loc : locals) : res string :=
  match s3_path loc with
  | Some p => inr p
  | None => inl (UnboundLocalError "s3_path")
  end.

(** Lines 111-128: what follows the loop, in the [try]. *)
Definition epilogue (file_path conversation_id : string)
    (match_threshold auto_update_threshold : Q) (full_audio : Audio)
    (loc : locals) : M (option result) :=
  metadata ←
    invoke Epilogue
      (IdentifyUnknown (utterance_metadata loc) conversation_id full_audio
         match_threshold auto_update_threshold)
      (identify_unknown_speakers_by_combining (utterance_metadata loc)
         conversation_id full_audio match_threshold auto_update_threshold);
  print Epilogue (MsgSuccess (length metadata) conversation_id);;
  path ← lift (read_s3_path loc);
  timestamp ← observe Epilogue DatetimeNow now_isoformat;
  mret (Some (Result conversation_id (basename file_path) path metadata timestamp)).

(** Lines 23-28: the description of the conversation. *)
Definition conversation_info_for (file_path conversation_id : string)
    (display_name : option string) (full_audio : Audio) : conversation_info :=
  ConversationInfo conversation_id (basename file_path)
    (truediv_1000 (audio_len full_audio)) display_name.

(** Lines 22-128: the body of the [try]. *)
Definition try_body (file_path conversation_id : string)
    (display_name : option string) (match_threshold auto_update_threshold : Q)
    (full_audio : Audio) (utterances : list dict) : M (option result) :=
  let info :=
    conversation_info_for file_path conversation_id display_name full_audio in
  db_conversation_id ← invoke Body (AddConversation info) (add_conversation info);
  print Body (MsgAddedConversation db_conversation_id);;
  loc ← for_utterances conversation_id full_audio db_conversation_id
          match_threshold auto_update_threshold 0 utterances (Locals [] None);
  epilogue file_path conversation_id match_threshold auto_update_threshold
    full_audio loc.

(** Lines 130-134: the handler. *)
Definition handler (e : exn) : M (option result) :=
  print Handler (MsgError e);;
  print Handler (MsgTraceback e);;
  mret None.

(** Lines 135-139: the [finally] block. *)
Definition cleanup (file_path wav_file : string) : M unit :=
  if bool_decide (wav_file ≠ file_path) then
    there ← observe Cleanup (PathExists wav_file) (path_exists wav_file);
    if there : bool then
      invoke Cleanup (OsRemove wav_file) (os_remove wav_file);;
      print Cleanup (MsgRemoved wav_file)
    else mret tt
  else mret tt.

(** Lines 3-19: what runs before the [try]; an exception here leaves the
    function at once. *)
Definition prelude (file_path : string) (conversation_id : option string)
    : M (string * string * Audio * list dict) :=
  print Prelude (MsgProcessing file_path);;
  conversation_id ←
    (if falsy conversation_id then
       stamp ← observe Prelude DatetimeNow now_strftime;
       mret ("convo_" +:+ stamp)
     else mret (default "" conversation_id));
  wav_file ← invoke Prelude (ConvertToWav file_path) (convert_to_wav file_path);
  full_audio ← invoke Prelude (FromWav wav_file) (from_wav wav_file);
  transcript_data ← invoke Prelude (Transcribe wav_file) (transcribe wav_file);
  let utterances := default [] (td_utterances transcript_data) in
  mret (conversation_id, wav_file, full_audio, utterances).

(** Lines 21-134: the [try] with its handler. *)
Definition attempt (file_path conversation_id : string)
    (display_name : option string) (match_threshold auto_update_threshold : Q)
    (full_audio : Audio) (utterances : list dict) : M (option result) :=
  try_except
    (try_body file_path conversation_id display_name match_threshold
       auto_update_threshold full_audio utterances)
    handler.

(** The function.  It returns [Some] result, returns [None], or raises. *)
Definition process_conversation (file_path : string)
    (conversation_id display_name : option string)
    (match_threshold auto_update_threshold : Q) : M (option result) :=
  '(conversation_id, wav_file, full_audio, utterances) ←
    prelude file_path conversation_id;
  finally
    (attempt file_path conversation_id display_name match_threshold
       auto_update_threshold full_audio utterances)
    (cleanup file_path wav_file).

(** The call with the thresholds left to their defaults. *)
Definition process_conversation_default (file_path : string)
    (conversation_id display_name : option string) : M (option result) :=
  process_conversation file_path conversation_id display_name
    MATCH_THRESHOLD AUTO_UPDATE_CONFIDENCE_THRESHOLD.
End Program.

(** ** A small world to run the function in *)

Module Fixture.
(** A recording is a span of milliseconds; the voice print of a clip is
    stood for by the millisecond the clip starts at. *)
Definition Audio : Type := (Z * Z)%type.
Definition Embedding : Type := Z.

Record World : Type := MkWorld {
  files : list string;                  (* the files that exist *)
  index : list (Z * (string * Q));      (* enrolled prints: name, similarity *)
  provider : option (list dict);        (* what the transcription answers *)
  recording_ms : Z                      (* the length of the recording *)
}.

Definition has_suffix (suffix s : string) : bool :=
  bool_decide (String.length suffix ≤ String.length s)%nat
  && String.eqb suffix
       (String.substring (String.length s - String.length suffix)
          (String.length suffix) s).

Definition lookup_print (e : Z) (w : World) : option (string * Q) :=
  snd <$> List.find (λ p, Z.eqb (fst p) e) (index w).

(** Clips under one second give no voice print; a print is matched when the
    index knows it with a similarity of at least the threshold. *)
Definition fx_test_voice_segment (segment : Audio) (cid : string) (i : nat)
    (threshold : Q) (w : World) : res (match_result Embedding) * World :=
  let e := fst segment in
  if bool_decide (snd segment - fst segment < 1000) then
    (inr (None, 0%Q, PyNone, None), w)
  else
    match lookup_print e w with
    | Some (name, similarity) =>
        if Qle_bool threshold similarity
        then (inr (Some name, similarity, PyStr ("emb_" +:+ pretty i), Some e), w)
        else (inr (None, 0%Q, PyNone, Some e), w)
    | None => (inr (None, 0%Q, PyNone, Some e), w)
    end.

Definition fx_convert_to_wav (p : string) (w : World) : res string * World :=
  if has_suffix ".wav" p then (inr p, w)
  else
    let wav := p +:+ ".wav" in
    (inr wav, MkWorld (wav :: files w) (index w) (provider w) (recording_ms w)).

Definition fx_os_remove (p : string) (w : World) : res unit * World :=
  (inr tt,
   MkWorld (List.filter (λ f, negb (String.eqb f p)) (files w)) (index w)
     (provider w) (recording_ms w)).

Definition fx_auto_update_embedding (e : Embedding) (name source : string)
    (confidence : pyval) (threshold : Q) (w : World) : res unit * World :=
  (inr tt,
   MkWorld (files w) ((e, (name, 1%Q)) :: index w) (provider w)
     (recording_ms w)).

Global Instance env : Env World Audio Embedding := {|
  S3_BASE_PATH := "s3://bucket";
  S3_UTTERANCES_PATH := "utterances";
  MATCH_THRESHOLD := (6 # 10)%Q;
  AUTO_UPDATE_CONFIDENCE_THRESHOLD := (8 # 10)%Q;
  int_of_str := λ _, None;
  py_repr := λ _, "?";
  format_time := λ ms, pretty ms +:+ "ms";
  audio_len := λ a, snd a - fst a;
  (* exact on the lengths used below, which are whole seconds *)
  truediv_1000 := λ n, (inject_Z n / 1000)%Q;
  audio_slice := λ _ a b, (a, b);
  now_strftime := λ _, "20240101_120000";
  now_isoformat := λ _, "2024-01-01T12:00:00";
  uuid4_hex8 := λ w, ("0a1b2c3d", w);
  convert_to_wav := fx_convert_to_wav;
  from_wav := λ _ w, (inr (0, recording_ms w), w);
  transcribe := λ _ w, (inr (Transcript (provider w)), w);
  add_conversation := λ _ w, (inr (PyStr "db-conversation-1"), w);
  test_voice_segment := fx_test_voice_segment;
  add_speaker := λ name w, (inr (PyStr ("id-" +:+ name)), w);
  auto_update_embedding := fx_auto_update_embedding;
  add_utterance := λ _ w, (inr tt, w);
  identify_unknown_speakers_by_combining := λ metadata _ _ _ _ w, (inr metadata, w);
  path_exists := λ p w, bool_decide (p ∈ files w);
  os_remove := fx_os_remove
|}.

(** An utterance as the provider sends it. *)
Definition utt (start_ms end_ms : Z) (tag text : string) (confidence : Q) : dict :=
  list_to_map [
    ("start", PyInt start_ms); ("end", PyInt end_ms);
    ("speaker", PyStr tag); ("text", PyStr text);
    ("confidence", PyFloat confidence);
    ("words", PyList [PyStr text])
  ].

Definition world_of (us : list dict) : World :=
  MkWorld ["talk.mp3"] [(2000, ("Ada", (9 # 10)%Q))] (Some us) 10000.

Definition run (us : list dict) :=
  process_conversation "in/talk.mp3" (Some "c1") None (6 # 10)%Q (8 # 10)%Q
    (world_of us).

(** The recording used below: a clip of 650 ms, a clip of "Ada", whom the
    index knows, and a clip of a speaker the index does not know. *)
Definition clip_short : dict := utt 0 650 "A" "hi" (95 # 100)%Q.
Definition clip_ada : dict := utt 2000 3500 "A" "hello there" (95 # 100)%Q.
Definition clip_unknown : dict := utt 4000 6000 "B" "good morning" (95 # 100)%Q.
Definition talk : list dict := [clip_short; clip_ada; clip_unknown].

(** A recording whose first utterance lacks its ["start"], one whose
    first utterance lacks its ["words"], one with a short clip only and
    one with the clip of Ada only. *)
Definition talk_broken : list dict := [delete "start" clip_ada; clip_unknown].
Definition clip_wordless : dict := delete "words" clip_ada.
Definition talk_wordless : list dict := [clip_wordless; clip_unknown].
Definition talk_silent : list dict := [clip_short].
Definition talk_single : list dict := [clip_ada].
End Fixture.

(** ** The small world, with something out of order *)

Module Outage.
Import Fixture.

(** What is out of order. *)
Inductive fault : Type :=
| TranscriptionDown
| DatabaseDown
| IndexDown
| DiskReadOnly.

Record World : Type := Faulty {
  broken : fault;
  sound : Fixture.World
}.

(** A collaborator of the small world, in the world with a fault. *)
Definition on_sound {A} (f : Fixture.World → A * Fixture.World) (w : World)
    : A * World :=
  ((f (sound w)).1, Faulty (broken w) (f (sound w)).2).

Definition out_transcribe (p : string) (w : World) : res transcript * World :=
  match broken w with
  | TranscriptionDown => (inl (OtherError "transcription unavailable"), w)
  | _ => on_sound (@transcribe _ _ _ Fixture.env p) w
  end.

Definition out_add_conversation (info : conversation_info) (w : World)
    : res pyval * World :=
  match broken w with
  | DatabaseDown => (inl (OtherError "database unavailable"), w)
  | _ => on_sound (@add_conversation _ _ _ Fixture.env info) w
  end.

Definition out_auto_update_embedding (e : Embedding) (name source : string)
    (confidence : pyval) (threshold : Q) (w : World) : res unit * World :=
  match broken w with
  | IndexDown => (inl (OtherError "index unavailable"), w)
  | _ =>
      on_sound
        (@auto_update_embedding _ _ _ Fixture.env e name source confidence
           threshold) w
  end.

Definition out_os_remove (p : string) (w : World) : res unit * World :=
  match broken w with
  | DiskReadOnly => (inl (OtherError "read-only file system"), w)
  | _ => on_sound (@os_remove _ _ _ Fixture.env p) w
  end.

Global Instance env : Env World Audio Embedding | 100 := {|
  S3_BASE_PATH := @S3_BASE_PATH _ _ _ Fixture.env;
  S3_UTTERANCES_PATH := @S3_UTTERANCES_PATH _ _ _ Fixture.env;
  MATCH_THRESHOLD := @MATCH_THRESHOLD _ _ _ Fixture.env;
  AUTO_UPDATE_CONFIDENCE_THRESHOLD :=
    @AUTO_UPDATE_CONFIDENCE_THRESHOLD _ _ _ Fixture.env;
  int_of_str := @int_of_str _ _ _ Fixture.env;
  py_repr := @py_repr _ _ _ Fixture.env;
  format_time := @format_time _ _ _ Fixture.env;
  audio_len := @audio_len _ _ _ Fixture.env;
  truediv_1000 := @truediv_1000 _ _ _ Fixture.env;
  audio_slice := @audio_slice _ _ _ Fixture.env;
  now_strftime := λ w, @now_strftime _ _ _ Fixture.env (sound w);
  now_isoformat := λ w, @now_isoformat _ _ _ Fixture.env (sound w);
  uuid4_hex8 := on_sound (@uuid4_hex8 _ _ _ Fixture.env);
  convert_to_wav := λ p, on_sound (@convert_to_wav _ _ _ Fixture.env p);
  from_wav := λ p, on_sound (@from_wav _ _ _ Fixture.env p);
  transcribe := out_transcribe;
  add_conversation := out_add_conversation;
  test_voice_segment := λ seg c i thr,
    on_sound (@test_voice_segment _ _ _ Fixture.env seg c i thr);
  add_speaker := λ name, on_sound (@add_speaker _ _ _ Fixture.env name);
  auto_update_embedding := out_auto_update_embedding;
  add_utterance := λ info, on_sound (@add_utterance _ _ _ Fixture.env info);
  identify_unknown_speakers_by_combining := λ md c fa t1 t2,
    on_sound
      (@identify_unknown_speakers_by_combining _ _ _ Fixture.env md c fa t1 t2);
  path_exists := λ p w, @path_exists _ _ _ Fixture.env p (sound w);
  os_remove := out_os_remove
|}.

Definition world_with (f : fault) (us : list dict) : World :=
  Faulty f (Fixture.world_of us).

Definition run_with (f : fault) (us : list dict) :=
  process_conversation "in/talk.mp3" (Some "c1") None (6 # 10)%Q (8 # 10)%Q
    (world_with f us).
End Outage.


(** ** Vocabulary of the properties *)

Global Instance site_eq_dec : EqDecision site.
Proof. solve_decision. Defined.

Section Vocabulary.
Context {World Audio Embedding : Type} `{!Env World Audio Embedding}.

Local Abbreviation M := (M World Audio Embedding).
Local Abbreviation event := (event Audio Embedding).

(** The calls made at a site. *)
Definition at_site (s : site) (t : list event) : list event :=
  filter (λ e, ev_site e = s) t.

(** The time span of an utterance, as lines 39-40 read it. *)
Definition span (utterance : dict) : res (Z * Z) :=
  match getitem utterance "start" with
  | inl e => inl e
  | inr start =>
      match py_int int_of_str start with
      | inl e => inl e
      | inr start_ms =>
          match getitem utterance "end" with
          | inl e => inl e
          | inr end_ =>
              match py_int int_of_str end_ with
              | inl e => inl e
              | inr end_ms => inr (start_ms, end_ms)
              end
          end
      end
  end.

(** An utterance whose duration is under 700 ms. *)
Definition short (utterance : dict) : Prop :=
  ∃ start_ms end_ms,
    span utterance = inr (start_ms, end_ms) ∧ end_ms - start_ms < 700.

(** An utterance the two guards of the loop let through. *)
Definition survives (utterance : dict) : Prop :=
  is_Some (utterance !! "words") ∧
  ∃ start_ms end_ms,
    span utterance = inr (start_ms, end_ms) ∧ 700 ≤ end_ms - start_ms.

(** An utterance one of the two guards stops. *)
Definition filtered (utterance : dict) : Prop :=
  utterance !! "words" = None ∨ short utterance.

(** The record that iteration [i] builds for an utterance when it starts in
    world [w]: the span, the text and the words of the utterance, the
    answer of the matcher, and the name and confidence kept. *)
Definition stored (conversation_id : string) (full_audio : Audio)
    (db_conversation_id : pyval) (match_threshold : Q) (i : nat)
    (utterance : dict) (w : World) (d : dict) : Prop :=
  ∃ start_ms end_ms text words name0 confidence0 embedding_id embedding
    name confidence,
    span utterance = inr (start_ms, end_ms) ∧
    utterance !! "text" = Some text ∧
    utterance !! "words" = Some words ∧
    (test_voice_segment (audio_slice full_audio start_ms end_ms)
       conversation_id i match_threshold w).1
      = inr (name0, confidence0, embedding_id, embedding) ∧
    resolve_speaker utterance name0 confidence0 = inr (name, confidence) ∧
    d = utterance_data i start_ms end_ms text confidence name embedding_id
          words db_conversation_id.

(** The iterations the loop goes through, each with the locals and the
    world it starts in; the loop stops at the first that raises. *)
Fixpoint iterations (conversation_id : string) (full_audio : Audio)
    (db_conversation_id : pyval) (match_threshold auto_update_threshold : Q)
    (i : nat) (utterances : list dict) (loc : locals) (w : World)
    : list (nat * dict * locals * World) :=
  match utterances with
  | [] => []
  | utterance :: rest =>
      let r :=
        process_utterance conversation_id full_audio db_conversation_id
          match_threshold auto_update_threshold i utterance loc w in
      (i, utterance, loc, w) ::
        match outcome r with
        | inl _ => []
        | inr loc' =>
            iterations conversation_id full_audio db_conversation_id
              match_threshold auto_update_threshold (S i) rest loc' (final r)
        end
  end.

(** The order of the sites in the text of the function. *)
Definition site_key (s : site) : nat * nat :=
  match s with
  | Prelude => (0, 0)
  | Body => (1, 0)
  | Iter i => (2, i)
  | Epilogue => (3, 0)
  | Handler => (4, 0)
  | Cleanup => (5, 0)
  end%nat.

Definition site_le (s1 s2 : site) : Prop :=
  ((site_key s1).1 < (site_key s2).1 ∨
   ((site_key s1).1 = (site_key s2).1 ∧ (site_key s1).2 ≤ (site_key s2).2))%nat.

(** Each collaborator is called from one part of the function only. *)
Definition proper (e : event) : Prop :=
  match ev_call e with
  | Print _ | DatetimeNow _ => True
  | ConvertToWav _ _ | FromWav _ _ | Transcribe _ _ => ev_site e = Prelude
  | AddConversation _ _ => ev_site e = Body
  | TestVoiceSegment _ _ i _ _ => ev_site e = Iter i
  | AddSpeaker _ _ | AutoUpdateEmbedding _ _ _ _ _ _ | Uuid4 _
  | AddUtterance _ _ => ∃ i, ev_site e = Iter i
  | IdentifyUnknown _ _ _ _ _ _ => ev_site e = Epilogue
  | PathExists _ _ | OsRemove _ _ => ev_site e = Cleanup
  end.

(** A call to the consolidation pass. *)
Definition is_consolidation (e : event) : Prop :=
  match ev_call e with
  | IdentifyUnknown _ _ _ _ _ _ => True
  | _ => False
  end.

Global Instance is_consolidation_dec e : Decision (is_consolidation e).
Proof. unfold is_consolidation. destruct (ev_call e); apply _. Defined.

(** Modelled from the spec: [identify_unknown_speakers_by_combining], the
    consolidation pass, is not in the module.  Section 4.3 of the
    specification gives its contract: it returns the "same ordered
    sequence, some entries' resolved_speaker/confidence possibly
    updated".  A record and its update have the same keys and agree on
    all of them but ["speaker"] and ["confidence"]. *)
Definition updates_identity (d d' : dict) : Prop :=
  dom d' = dom d ∧
  ∀ k, k ≠ "speaker" → k ≠ "confidence" → d' !! k = d !! k.

Definition consolidation_contract : Prop :=
  ∀ metadata cid audio mt aut w out,
    (identify_unknown_speakers_by_combining metadata cid audio mt aut w).1
      = inr out →
    Forall2 updates_identity metadata out.

(** C3 as the specification words it: no call to [auto_update_embedding]
    is made for an utterance the matcher gave no speaker for. *)
Definition enrolls_matched_only (t : list event) : Prop :=
  ∀ i seg c thr name0 confidence0 embedding_id embedding,
    Ev (Iter i)
      (TestVoiceSegment seg c i thr
         (inr (name0, confidence0, embedding_id, embedding))) ∈ t →
    falsy name0 = true →
    ∀ e n src c' threshold a,
      Ev (Iter i) (AutoUpdateEmbedding e n src c' threshold a) ∉ t.

(** What the handler prints. *)
Definition handler_trace (e : exn) : list event :=
  [Ev Handler (Print (MsgError e)); Ev Handler (Print (MsgTraceback e))].

(** The [finally] block, run in world [w], does not raise: [os.remove],
    which it calls when the file is not the input file and exists in [w],
    answers there. *)
Definition removal_answers (file_path wav_file : string) (w : World) : Prop :=
  wav_file ≠ file_path → path_exists wav_file w = true →
  (os_remove wav_file w).1 = inr tt.

(** The part of the function a call is made in, by number. *)
Definition phase (e : event) : nat := (site_key (ev_site e)).1.

(** The order of the calls of a run. *)
Definition ev_le (e1 e2 : event) : Prop := site_le (ev_site e1) (ev_site e2).

(** The keys of a record of the utterance list (lines 64-76). *)
Definition record_keys : gset string :=
  {[ "id"; "start_ms"; "end_ms"; "start_time"; "end_time"; "text";
     "confidence"; "speaker"; "embedding_id"; "words"; "conversation_id" ]}.

(** A record of the utterance list that describes utterance [i]: it has
    the keys of lines 64-76, the index, the span in milliseconds and
    formatted, and the text and the words of the utterance. *)
Definition describes (utterance : dict) (i : nat) (d : dict) : Prop :=
  dom d = record_keys ∧
  ∃ start_ms end_ms,
    span utterance = inr (start_ms, end_ms) ∧
    d !! "id" = Some (PyInt (Z.of_nat i)) ∧
    d !! "start_ms" = Some (PyInt start_ms) ∧
    d !! "end_ms" = Some (PyInt end_ms) ∧
    d !! "start_time" = Some (PyStr (format_time start_ms)) ∧
    d !! "end_time" = Some (PyStr (format_time end_ms)) ∧
    d !! "text" = utterance !! "text" ∧
    d !! "words" = utterance !! "words".
End Vocabulary.

(** ** Vocabulary of the further properties *)

(** The number a string of decimal digits stands for, and ten to the
    number of its digits. *)
Definition digit_value (c : ascii) : N := N_of_ascii c - 48.

Fixpoint magnitude (s : string) : N :=
  match s with
  | EmptyString => 1
  | String _ rest => 10 * magnitude rest
  end.

Fixpoint decimal_value (s : string) : N :=
  match s with
  | EmptyString => 0
  | String c rest => digit_value c * magnitude rest + decimal_value rest
  end.

(** The keys of a record handed to [add_utterance] (lines 95-109). *)
Definition row_keys : gset string :=
  {[ "utterance_id"; "start_time"; "end_time"; "start_ms"; "end_ms"; "text";
     "confidence"; "embedding_id"; "audio_file"; "speaker_id"; "speaker";
     "conversation_id"; "words" ]}.

Section MoreVocabulary.
Context {Audio Embedding : Type}.

(** The exception a call answered with, if it raised. *)
Definition raised (c : call Audio Embedding) : option exn :=
  match c with
  | ConvertToWav _ (inl e) | FromWav _ (inl e) | Transcribe _ (inl e)
  | AddConversation _ (inl e) | TestVoiceSegment _ _ _ _ (inl e)
  | AddSpeaker _ (inl e) | AutoUpdateEmbedding _ _ _ _ _ (inl e)
  | AddUtterance _ (inl e) | IdentifyUnknown _ _ _ _ _ (inl e)
  | OsRemove _ (inl e) => Some e
  | _ => None
  end.
End MoreVocabulary.

Section DegradedVocabulary.
Context {World Audio Embedding : Type} `{!Env World Audio Embedding}.

(** An utterance that passes the guard of line 35 and whose data make
    the loop raise [e]: its span cannot be read (lines 39-40), it has no
    ["speaker"] (line 57) or no ["text"] (line 70), or its confidence does
    not compare with the threshold (line 80). *)
Definition malformed (auto_update_threshold : Q) (utterance : dict) (e : exn)
    : Prop :=
  is_Some (utterance !! "words") ∧
  (span utterance = inl e ∨
   getitem utterance "speaker" = inl e ∨
   getitem utterance "text" = inl e ∨
   py_gt (get_default utterance "confidence" (PyFloat 0)) auto_update_threshold
   = inl e).
End DegradedVocabulary.

(** ** Running the monad *)

Section Running.
Context {World Audio Embedding : Type} `{!Env World Audio Embedding}.

Local Abbreviation M := (M World Audio Embedding).
Local Abbreviation Run := (Run World Audio Embedding).
Local Abbreviation event := (event Audio Embedding).

Lemma trace_prepend {A} (t : list event) (r : Run A) :
  trace (prepend t r) = t ++ trace r.
Proof. reflexivity. Qed.

Lemma outcome_prepend {A} (t : list event) (r : Run A) :
  outcome (prepend t r) = outcome r.
Proof. reflexivity. Qed.

Lemma final_prepend {A} (t : list event) (r : Run A) :
  final (prepend t r) = final r.
Proof. reflexivity. Qed.

Lemma run_eta {A} (r : Run A) : r = MkRun (outcome r) (final r) (trace r).
Proof. by destruct r. Qed.

Lemma getitem_inr (d : dict) k v : getitem d k = inr v ↔ d !! k = Some v.
Proof. unfold getitem. destruct (d !! k); split; congruence. Qed.

Lemma getitem_inl (d : dict) k e :
  getitem d k = inl e ↔ d !! k = None ∧ e = KeyError k.
Proof.
  unfold getitem. destruct (d !! k); (split; [intros [=]|intros [[=] ?]]);
    by subst.
Qed.

Lemma span_inr (u : dict) start end_ start_ms end_ms :
  getitem u "start" = inr start → py_int int_of_str start = inr start_ms →
  getitem u "end" = inr end_ → py_int int_of_str end_ = inr end_ms →
  span u = inr (start_ms, end_ms).
Proof. unfold span. by intros -> -> -> ->. Qed.

Lemma bind_run {A B} (m : M A) (k : A → M B) w :
  (m ≫= k) w =
  match outcome (m w) with
  | inl e => MkRun (inl e) (final (m w)) (trace (m w))
  | inr a => prepend (trace (m w)) (k a (final (m w)))
  end.
Proof. reflexivity. Qed.

Lemma prepend_nil {A} (r : Run A) : prepend [] r = r.
Proof. by destruct r. Qed.

Lemma prepend_prepend {A} (t1 t2 : list event) (r : Run A) :
  prepend t1 (prepend t2 r) = prepend (t1 ++ t2) r.
Proof. unfold prepend. cbn. by rewrite app_assoc. Qed.

End Running.

Ltac unfold_monad :=
  unfold mbind, M_bind, bind, mret, M_ret, ret, lift, invoke, invoke_total,
    observe, print, raise in *.

(** Case analysis along the control flow of an unfolded computation. *)
Ltac split_run :=
  repeat (cbn [outcome final trace fst snd prepend app];
    match goal with
    | |- context [match ?x with _ => _ end] =>
        lazymatch x with
        | context [match _ with _ => _ end] => fail
        | fst ?p => destruct p as [? ?] eqn:?
        | _ => destruct x eqn:?
        end
    end);
  cbn [outcome final trace fst snd prepend app].

(** What the equations left by the case analysis say about the utterance. *)
Ltac know_utterance :=
  rewrite ?bool_decide_eq_false, ?bool_decide_eq_true in *;
  try match goal with
    | Hs : getitem ?u "start" = inr ?p, Hs' : py_int _ ?p = inr _,
      He : getitem ?u "end" = inr ?q, He' : py_int _ ?q = inr _ |- _ =>
        pose proof (span_inr _ _ _ _ _ Hs Hs' He He')
    end;
  repeat match goal with
    | H : getitem _ _ = inr _ |- _ => apply getitem_inr in H
    | H : getitem _ _ = inl _ |- _ => apply getitem_inl in H as [? ?]
    end.

(** Membership in an explicit trace. *)
Ltac find_event :=
  solve [repeat first [apply list_elem_of_here | apply list_elem_of_further]].

(** Two equations on the same call or lookup are merged. *)
Ltac merge_eqs :=
  repeat match goal with
    | H : ?x = ?a, H' : ?x = ?b |- _ =>
        first [is_var x; fail 1 | rewrite H in H'; simplify_eq]
    end.

Ltac unfold_iteration :=
  unfold process_utterance, maybe_auto_update; unfold_monad; split_run.

(** ** The records *)

Section Records.
Context {World Audio Embedding : Type} `{!Env World Audio Embedding}.

Lemma utterance_data_dom i s e text conf name eid words db :
  dom (utterance_data i s e text conf name eid words db) = record_keys.
Proof.
  unfold utterance_data, record_keys. cbn [list_to_map foldr uncurry].
  rewrite !dom_insert_L, dom_empty_L. set_solver.
Qed.

Lemma utterance_data_fields i s e text conf name eid words db :
  let d := utterance_data i s e text conf name eid words db in
  d !! "id" = Some (PyInt (Z.of_nat i)) ∧
  d !! "start_ms" = Some (PyInt s) ∧
  d !! "end_ms" = Some (PyInt e) ∧
  d !! "start_time" = Some (PyStr (format_time s)) ∧
  d !! "end_time" = Some (PyStr (format_time e)) ∧
  d !! "text" = Some text ∧
  d !! "confidence" = Some conf ∧
  d !! "speaker" = Some (PyStr name) ∧
  d !! "embedding_id" = Some eid ∧
  d !! "words" = Some words ∧
  d !! "conversation_id" = Some db.
Proof.
  unfold utterance_data. cbn [list_to_map foldr uncurry].
  split_and!; by simplify_map_eq.
Qed.

Lemma utterance_info_fields uid s e text conf eid path sid name db words :
  let d := utterance_info uid s e text conf eid path sid name db words in
  d !! "audio_file" = Some (PyStr path) ∧
  d !! "speaker" = Some (PyStr name) ∧
  d !! "confidence" = Some conf.
Proof.
  unfold utterance_info. cbn [list_to_map foldr uncurry].
  split_and!; by simplify_map_eq.
Qed.

Lemma resolve_unmatched (u : dict) name0 confidence0 name confidence :
  falsy name0 = true →
  resolve_speaker u name0 confidence0 = inr (name, confidence) →
  ∃ tag, u !! "speaker" = Some tag ∧
    name = "Speaker_" +:+ py_format py_repr tag ∧
    confidence = get_default u "confidence" (PyFloat 0).
Proof.
  unfold resolve_speaker. intros ->.
  destruct (getitem u "speaker") as [|tag] eqn:Htag; [done|].
  apply getitem_inr in Htag. intros [= <- <-]. by exists tag.
Qed.


Lemma utterance_data_speaker i s e text conf name eid words db :
  utterance_data i s e text conf name eid words db !! "speaker"
  = Some (PyStr name).
Proof. apply utterance_data_fields. Qed.

Lemma utterance_data_confidence i s e text conf name eid words db :
  utterance_data i s e text conf name eid words db !! "confidence" = Some conf.
Proof. apply utterance_data_fields. Qed.

Lemma utterance_info_speaker uid s e text conf eid path sid name db words :
  utterance_info uid s e text conf eid path sid name db words !! "speaker"
  = Some (PyStr name).
Proof. apply utterance_info_fields. Qed.

Lemma utterance_info_confidence uid s e text conf eid path sid name db words :
  utterance_info uid s e text conf eid path sid name db words !! "confidence"
  = Some conf.
Proof. apply utterance_info_fields. Qed.

Lemma stored_describes cid audio db mt k u wk d :
  stored cid audio db mt k u wk d → describes u k d.
Proof.
  intros (s & e & text & words & n0 & c0 & eid & emb & name & conf & Hspan
          & Htext & Hwords & _ & _ & ->).
  split; [apply utterance_data_dom|]. exists s, e. rewrite Htext, Hwords.
  split; [done|].
  pose proof (utterance_data_fields k s e text conf name eid words db) as Hf.
  cbn zeta in Hf. tauto.
Qed.

End Records.

(** ** One iteration of the loop *)

Section Iteration.
Context {World Audio Embedding : Type} `{!Env World Audio Embedding}.

Local Abbreviation M := (M World Audio Embedding).
Local Abbreviation event := (event Audio Embedding).

Variables (cid : string) (audio : Audio) (db : pyval) (mt aut : Q).

Local Abbreviation iteration := (process_utterance cid audio db mt aut).

Lemma iteration_sites i u loc w :
  Forall (λ e : event, ev_site e = Iter i) (trace (iteration i u loc w)).
Proof. unfold_iteration; by repeat constructor. Qed.

Lemma iteration_proper i u loc w :
  Forall proper (trace (iteration i u loc w)).
Proof. unfold_iteration; repeat constructor; by eexists. Qed.

Lemma iteration_without_words i u loc w :
  u !! "words" = None → iteration i u loc w = MkRun (inr loc) w [].
Proof.
  intros Hw. unfold process_utterance. by rewrite bool_decide_eq_true_2.
Qed.

Lemma iteration_short i u loc w :
  short u →
  outcome (iteration i u loc w) = inr loc ∧ final (iteration i u loc w) = w ∧
  Forall (λ e : event, ∃ d, e = Ev (Iter i) (Print (MsgSkippingShort d)))
    (trace (iteration i u loc w)).
Proof.
  intros (s & e & Hspan & Hd). unfold span in Hspan.
  unfold_iteration; simplify_eq; try by (repeat split; repeat constructor; eauto).
  all: try (rewrite bool_decide_eq_false in *; lia).
Qed.

Lemma short_not_survives u : short u → survives u → False.
Proof.
  intros (s & e & Hs & Hd) (_ & s' & e' & Hs' & Hd').
  rewrite Hs in Hs'. simplify_eq. lia.
Qed.

Lemma iteration_matching_call i u loc w s seg c j thr a :
  Ev s (TestVoiceSegment seg c j thr a) ∈ trace (iteration i u loc w) →
  s = Iter i ∧ j = i ∧ c = cid ∧ thr = mt ∧ survives u ∧
  ∃ start_ms end_ms,
    span u = inr (start_ms, end_ms) ∧ seg = audio_slice audio start_ms end_ms ∧
    a = (test_voice_segment seg cid i mt w).1.
Proof.
  unfold_iteration; rewrite ?elem_of_app, ?elem_of_cons, ?elem_of_nil;
    intros Hin; destruct_or?; simplify_eq; try done.
  all: know_utterance.
  all: split_and!; try done.
  all: try (split; [by apply not_eq_None_Some|eexists _, _; split; [done|lia]]).
  all: eexists _, _; split_and!; [done|done|].
  all: by match goal with
          | H : test_voice_segment _ _ _ _ _ = _ |- _ => rewrite H
          end.
Qed.

Lemma iteration_returns i u loc w loc' :
  outcome (iteration i u loc w) = inr loc' →
  (loc' = loc ∧ filtered u ∧ final (iteration i u loc w) = w) ∨
  (survives u ∧
   ∃ d, loc' = Locals (utterance_metadata loc ++ [d])
                 (Some (utterance_wav_path cid i)) ∧
        stored cid audio db mt i u w d).
Proof.
  unfold_iteration; intros Heq; simplify_eq.
  all: know_utterance.
  1: { left. split_and!; [done|by left|done]. }
  1: { left. split_and!; [done| |done]. right. eexists _, _. by split. }
  all: right; split;
    [split; [by apply not_eq_None_Some|eexists _, _; split; [done|lia]]|].
  all: eexists; split; [done|]; unfold stored.
  all: eexists _, _, _, _, _, _, _, _, _, _; split_and!; try done.
  all: by match goal with
          | H : test_voice_segment _ _ _ _ _ = _ |- _ => rewrite H
          end.
Qed.


Lemma iteration_enrollment i u loc w s e nm src c t a :
  Ev s (AutoUpdateEmbedding e nm src c t a) ∈ trace (iteration i u loc w) →
  s = Iter i ∧ src = utterance_wav_path cid i ∧ t = aut ∧
  py_gt c aut = inr true ∧
  ∃ start_ms end_ms name0 confidence0 embedding_id,
    span u = inr (start_ms, end_ms) ∧
    (test_voice_segment (audio_slice audio start_ms end_ms) cid i mt w).1
      = inr (name0, confidence0, embedding_id, Some e) ∧
    resolve_speaker u name0 confidence0 = inr (nm, c).
Proof.
  unfold_iteration; rewrite ?elem_of_app, ?elem_of_cons, ?elem_of_nil;
    intros Hin; destruct_or?; simplify_eq; try done.
  all: know_utterance.
  all: split_and!; try done.
  all: eexists _, _, _, _, _; split_and!; try done.
  all: by match goal with
          | H : test_voice_segment _ _ _ _ _ = _ |- _ => rewrite H
          end.
Qed.

Lemma iteration_gate i u loc w start_ms end_ms name0 confidence0 embedding_id
    embedding name confidence speaker_id :
  span u = inr (start_ms, end_ms) →
  (test_voice_segment (audio_slice audio start_ms end_ms) cid i mt w).1
    = inr (name0, confidence0, embedding_id, embedding) →
  resolve_speaker u name0 confidence0 = inr (name, confidence) →
  Ev (Iter i) (AddSpeaker name (inr speaker_id)) ∈ trace (iteration i u loc w) →
  is_Some (u !! "text") →
  is_Some embedding → py_gt confidence aut = inr true →
  ∃ e a, embedding = Some e ∧
    Ev (Iter i)
      (AutoUpdateEmbedding e name (utterance_wav_path cid i) confidence aut a)
      ∈ trace (iteration i u loc w).
Proof.
  unfold span. intros Hspan Htv Hres Hsp [text Ht] [e ->] Hgt. exists e.
  revert Hspan Htv Hres Hsp Ht Hgt.
  unfold_iteration; intros Hspan Htv Hres; simplify_eq.
  all: repeat match goal with
         | H : test_voice_segment _ _ _ _ _ = _ |- _ =>
             rewrite H in Htv; clear H
         end; cbn [fst] in *; simplify_eq.
  all: rewrite ?elem_of_app, ?elem_of_cons, ?elem_of_nil;
    intros Hin Ht Hgt; destruct_or?; simplify_eq; try done.
  all: know_utterance; merge_eqs; try congruence.
  all: eexists; split; [done|]; find_event.
Qed.

Lemma iteration_add_speaker i u loc w start_ms end_ms name0 confidence0
    embedding_id embedding name confidence :
  survives u →
  span u = inr (start_ms, end_ms) →
  (test_voice_segment (audio_slice audio start_ms end_ms) cid i mt w).1
    = inr (name0, confidence0, embedding_id, embedding) →
  resolve_speaker u name0 confidence0 = inr (name, confidence) →
  ∃ a, Ev (Iter i) (AddSpeaker name a) ∈ trace (iteration i u loc w).
Proof.
  intros ([words Hw] & s & e & Hspan & Hd) Hspan'. rewrite Hspan in Hspan'.
  simplify_eq. revert Hspan. unfold span.
  unfold_iteration; intros Hspan Htv Hres; simplify_eq.
  all: rewrite ?bool_decide_eq_false, ?bool_decide_eq_true in *; try lia.
  all: try congruence.
  all: repeat match goal with
         | H : test_voice_segment _ _ _ _ _ = _ |- _ =>
             rewrite H in Htv; clear H
         end; cbn [fst] in *; simplify_eq.
  all: merge_eqs.
  all: eexists; find_event.
Qed.

Lemma iteration_add_utterance i u loc w s info a :
  Ev s (AddUtterance info a) ∈ trace (iteration i u loc w) →
  s = Iter i ∧
  info !! "audio_file" = Some (PyStr (utterance_wav_path cid i)) ∧
  ∃ d, stored cid audio db mt i u w d ∧
    info !! "speaker" = d !! "speaker" ∧
    info !! "confidence" = d !! "confidence".
Proof.
  unfold_iteration; rewrite ?elem_of_app, ?elem_of_cons, ?elem_of_nil;
    intros Hin; destruct_or?; simplify_eq; try done.
  all: know_utterance.
  all: split; [done|]; split; [apply utterance_info_fields|].
  all: eexists; split;
    [eexists _, _, _, _, _, _, _, _, _, _; split_and!; try done;
     by match goal with
        | H : test_voice_segment _ _ _ _ _ = _ |- _ => rewrite H
        end|].
  all: by rewrite utterance_info_speaker, utterance_info_confidence,
    utterance_data_speaker, utterance_data_confidence.
Qed.
End Iteration.


(** ** The loop *)

Section Loop.
Context {World Audio Embedding : Type} `{!Env World Audio Embedding}.

Local Abbreviation M := (M World Audio Embedding).
Local Abbreviation event := (event Audio Embedding).

Variables (cid : string) (audio : Audio) (db : pyval) (mt aut : Q).

Local Abbreviation iteration := (process_utterance cid audio db mt aut).
Local Abbreviation loop := (for_utterances cid audio db mt aut).
Local Abbreviation iters := (iterations cid audio db mt aut).

Lemma loop_cons i u rest loc w :
  loop i (u :: rest) loc w =
  match outcome (iteration i u loc w) with
  | inl e =>
      MkRun (inl e) (final (iteration i u loc w)) (trace (iteration i u loc w))
  | inr loc' =>
      prepend (trace (iteration i u loc w))
        (loop (S i) rest loc' (final (iteration i u loc w)))
  end.
Proof. reflexivity. Qed.

Lemma filter_all {A} (P : A → Prop) `{!∀ x, Decision (P x)} (l : list A) :
  Forall P l → filter P l = l.
Proof.
  induction 1 as [|x l Hx _ IH]; [done|].
  by rewrite filter_cons, decide_True, IH.
Qed.

Lemma filter_none {A} (P : A → Prop) `{!∀ x, Decision (P x)} (l : list A) :
  Forall (λ x, ¬ P x) l → filter P l = [].
Proof.
  induction 1 as [|x l Hx _ IH]; [done|].
  by rewrite filter_cons, decide_False.
Qed.

Lemma iterations_lookup us i0 loc w k u l wk :
  (k, u, l, wk) ∈ iters i0 us loc w →
  ∃ j, k = (i0 + j)%nat ∧ us !! j = Some u.
Proof.
  induction us as [|u0 rest IH] in i0, loc, w |- *; cbn [iterations].
  - by intros ?%elem_of_nil.
  - intros [Heq|Hin]%elem_of_cons.
    + simplify_eq. exists 0%nat. split; [lia|done].
    + destruct (outcome (iteration i0 u0 loc w)); [by apply elem_of_nil in Hin|].
      apply IH in Hin as (j & -> & Hj). exists (S j). split; [lia|done].
Qed.

Lemma loop_sites us i0 loc w :
  Forall (λ e : event, ∃ k, ev_site e = Iter k ∧ (i0 ≤ k < i0 + length us)%nat)
    (trace (loop i0 us loc w)).
Proof.
  induction us as [|u0 rest IH] in i0, loc, w |- *; [by constructor|].
  rewrite loop_cons. pose proof (iteration_sites cid audio db mt aut i0 u0 loc w) as Hs.
  assert (Forall (λ e : event, ∃ k, ev_site e = Iter k
                    ∧ (i0 ≤ k < i0 + length (u0 :: rest))%nat)
            (trace (iteration i0 u0 loc w))) as Hs'.
  { eapply Forall_impl; [exact Hs|]. intros e He. exists i0. cbn. split; [done|lia]. }
  destruct (outcome (iteration i0 u0 loc w)); rewrite ?trace_prepend; cbn [trace]; [done|].
  apply Forall_app. split; [done|].
  eapply Forall_impl; [apply IH|]. intros e (k & He & Hk). exists k.
  cbn. split; [done|lia].
Qed.

Lemma loop_at_site us i0 loc w k u l wk :
  (k, u, l, wk) ∈ iters i0 us loc w →
  at_site (Iter k) (trace (loop i0 us loc w)) = trace (iteration k u l wk).
Proof.
  unfold at_site.
  induction us as [|u0 rest IH] in i0, loc, w |- *; cbn [iterations].
  - by intros ?%elem_of_nil.
  - rewrite loop_cons.
    pose proof (iteration_sites cid audio db mt aut i0 u0 loc w) as Hs.
    intros [Heq|Hin]%elem_of_cons.
    + simplify_eq.
      destruct (outcome (iteration i0 u0 loc w)); rewrite ?trace_prepend; cbn [trace].
      * by apply filter_all.
      * rewrite filter_app, filter_all by done.
        rewrite filter_none; [by rewrite app_nil_r|].
        eapply Forall_impl; [apply loop_sites|].
        intros e (k & -> & Hk) [=]. lia.
    + destruct (outcome (iteration i0 u0 loc w)) as [|loc'];
        [by apply elem_of_nil in Hin|]. rewrite ?trace_prepend; cbn [trace].
      pose proof Hin as (j & -> & _)%iterations_lookup.
      rewrite filter_app, (IH _ _ _ Hin).
      rewrite filter_none; [done|].
      eapply Forall_impl; [exact Hs|]. intros e -> [=]. lia.
Qed.

Lemma loop_event us i0 loc w e :
  e ∈ trace (loop i0 us loc w) →
  ∃ k u l wk, (k, u, l, wk) ∈ iters i0 us loc w ∧ e ∈ trace (iteration k u l wk).
Proof.
  induction us as [|u0 rest IH] in i0, loc, w |- *; [by intros ?%elem_of_nil|].
  rewrite loop_cons. cbn [iterations].
  destruct (outcome (iteration i0 u0 loc w)) as [|loc']; rewrite ?trace_prepend; cbn [trace].
  - intros He. exists i0, u0, loc, w. split; [left|done].
  - intros [He|He]%elem_of_app.
    + exists i0, u0, loc, w. split; [left|done].
    + apply IH in He as (k & u & l & wk & Hin & He).
      exists k, u, l, wk. split; [by right|done].
Qed.

Lemma loop_records us i0 loc w loc' :
  outcome (loop i0 us loc w) = inr loc' →
  ∃ ds, utterance_metadata loc' = utterance_metadata loc ++ ds ∧
    Forall (λ d, ∃ k u l wk, (k, u, l, wk) ∈ iters i0 us loc w ∧
              survives u ∧ stored cid audio db mt k u wk d) ds.
Proof.
  induction us as [|u0 rest IH] in i0, loc, w |- *.
  - intros [= <-]. exists []. by rewrite app_nil_r.
  - rewrite loop_cons. cbn [iterations].
    pose proof (iteration_returns cid audio db mt aut i0 u0 loc w) as Hret.
    destruct (outcome (iteration i0 u0 loc w)) as [|loc1]; [done|].
    rewrite ?outcome_prepend; cbn [outcome]. intros (ds & Hmd & Hds)%IH.
    destruct (Hret _ eq_refl) as [(-> & _ & _)|(Hsurv & d & -> & Hd)].
    + exists ds. split; [done|].
      eapply Forall_impl; [exact Hds|].
      intros d' (k & u & l & wk & Hin & ?). exists k, u, l, wk.
      split; [by right|done].
    + exists (d :: ds). split; [by rewrite Hmd; cbn; rewrite <-app_assoc|].
      constructor.
      * exists i0, u0, loc, w. split_and!; [left|done|done].
      * eapply Forall_impl; [exact Hds|].
        intros d' (k & u & l & wk & Hin & ?). exists k, u, l, wk.
        split; [by right|done].
Qed.

Lemma loop_complete us i0 loc w loc' j u :
  outcome (loop i0 us loc w) = inr loc' → us !! j = Some u →
  ∃ l wk, ((i0 + j)%nat, u, l, wk) ∈ iters i0 us loc w.
Proof.
  induction us as [|u0 rest IH] in i0, loc, w, j |- *; [done|].
  rewrite loop_cons. cbn [iterations].
  destruct (outcome (iteration i0 u0 loc w)) as [|loc1]; [done|].
  rewrite ?outcome_prepend; cbn [outcome]. intros Hout Hj. destruct j as [|j]; simplify_eq/=.
  - exists loc, w. rewrite Nat.add_0_r. left.
  - destruct (IH _ _ _ _ Hout Hj) as (l & wk & Hin). exists l, wk.
    right. by replace (i0 + S j)%nat with (S i0 + j)%nat by lia.
Qed.

Lemma loop_proper us i0 loc w : Forall proper (trace (loop i0 us loc w)).
Proof.
  apply Forall_forall. intros e (k & u & l & wk & _ & He)%loop_event.
  by eapply Forall_forall in He; [|apply iteration_proper].
Qed.

Lemma loop_at_site_cases us i0 loc w k :
  at_site (Iter k) (trace (loop i0 us loc w)) = [] ∨
  ∃ u l wk, (k, u, l, wk) ∈ iters i0 us loc w ∧
    at_site (Iter k) (trace (loop i0 us loc w)) = trace (iteration k u l wk).
Proof.
  destruct (at_site (Iter k) (trace (loop i0 us loc w))) as [|e t] eqn:Heq;
    [by left|right].
  assert (e ∈ at_site (Iter k) (trace (loop i0 us loc w))) as He
    by (rewrite Heq; left).
  apply list_elem_of_filter in He as [Hs He].
  apply loop_event in He as (k' & u & l & wk & Hin & He).
  eapply Forall_forall in He; [|apply iteration_sites].
  cbn beta in He. rewrite Hs in He. simplify_eq. exists u, l, wk. split; [done|].
  rewrite <-Heq. by apply loop_at_site.
Qed.

Lemma loop_all_filtered us i0 loc w :
  Forall filtered us →
  outcome (loop i0 us loc w) = inr loc ∧ final (loop i0 us loc w) = w.
Proof.
  induction 1 as [|u0 rest Hf _ IH] in i0 |- *; [done|].
  rewrite loop_cons.
  assert (outcome (iteration i0 u0 loc w) = inr loc
          ∧ final (iteration i0 u0 loc w) = w) as [Ho Hw].
  { destruct Hf as [Hf|Hf].
    - by rewrite iteration_without_words.
    - by destruct (iteration_short cid audio db mt aut i0 u0 loc w Hf) as (? & ? & _). }
  rewrite Ho, Hw. apply IH.
Qed.

Lemma loop_app us1 us2 i0 loc w :
  loop i0 (us1 ++ us2) loc w
  = (loop i0 us1 loc ≫= λ loc', loop (i0 + length us1) us2 loc') w.
Proof.
  induction us1 as [|u0 rest IH] in i0, loc, w |- *.
  - rewrite bind_run. cbn [for_utterances app length mret M_ret ret outcome
                            final trace].
    by rewrite prepend_nil, Nat.add_0_r.
  - rewrite bind_run. cbn [app length]. rewrite !loop_cons.
    destruct (outcome (iteration i0 u0 loc w)) as [e|loc1]; [done|].
    rewrite IH, bind_run, outcome_prepend, final_prepend, trace_prepend.
    replace (S i0 + length rest)%nat with (i0 + S (length rest))%nat by lia.
    destruct (outcome (loop (S i0) rest loc1 _)) as [e|loc2].
    + by unfold prepend.
    + by rewrite prepend_prepend.
Qed.

Lemma loop_skips u us1 us2 i0 loc w :
  u !! "words" = None →
  loop i0 (us1 ++ u :: us2) loc w
  = (loop i0 us1 loc ≫= λ loc', loop (S (i0 + length us1)) us2 loc') w.
Proof.
  intros Hu. rewrite loop_app, !bind_run.
  destruct (outcome (loop i0 us1 loc w)) as [e|loc1]; [done|].
  rewrite loop_cons, iteration_without_words by done.
  cbn [outcome final trace]. by rewrite prepend_nil.
Qed.

End Loop.

(** ** The whole function *)

Section Whole.
Context {World Audio Embedding : Type} `{!Env World Audio Embedding}.

Local Abbreviation M := (M World Audio Embedding).
Local Abbreviation event := (event Audio Embedding).

Variables (file_path : string) (dn : option string) (mt aut : Q).

Local Abbreviation run cid w :=
  (process_conversation file_path cid dn mt aut w).
Local Abbreviation added cid cid' audio w :=
  (add_conversation (conversation_info_for file_path cid' dn audio)
     (final (prelude file_path cid w))).
Local Abbreviation the_loop cid cid' audio us db w :=
  (for_utterances cid' audio db mt aut 0 us (Locals [] None)
     (added cid cid' audio w).2).

Lemma prelude_sites cid w :
  Forall (λ e : event, ev_site e = Prelude) (trace (prelude file_path cid w)).
Proof. unfold prelude. unfold_monad. split_run; by repeat constructor. Qed.

Lemma cleanup_sites wav w :
  Forall (λ e : event, ev_site e = Cleanup) (trace (cleanup file_path wav w)).
Proof. unfold cleanup. unfold_monad. split_run; by repeat constructor. Qed.

Lemma prelude_proper cid w : Forall proper (trace (prelude file_path cid w)).
Proof. unfold prelude. unfold_monad. split_run; by repeat constructor. Qed.

Lemma cleanup_proper wav w : Forall proper (trace (cleanup file_path wav w)).
Proof. unfold cleanup. unfold_monad. split_run; by repeat constructor. Qed.

Lemma at_site_other (s s' : site) (t : list event) :
  Forall (λ e, ev_site e = s') t → s ≠ s' → at_site s t = [].
Proof.
  intros Ht Hs. apply filter_none. eapply Forall_impl; [exact Ht|].
  intros e -> ?. by apply Hs.
Qed.

Lemma at_site_same (s : site) (t : list event) :
  Forall (λ e, ev_site e = s) t → at_site s t = t.
Proof. apply filter_all. Qed.

Lemma cleanup_run wav w :
  cleanup file_path wav w =
  if bool_decide (wav ≠ file_path) then
    if path_exists wav w then
      match (os_remove wav w).1 with
      | inl e =>
          MkRun (inl e) (os_remove wav w).2
            [Ev Cleanup (PathExists wav true);
             Ev Cleanup (OsRemove wav (inl e))]
      | inr u =>
          MkRun (inr tt) (os_remove wav w).2
            [Ev Cleanup (PathExists wav true);
             Ev Cleanup (OsRemove wav (inr u));
             Ev Cleanup (Print (MsgRemoved wav))]
      end
    else MkRun (inr tt) w [Ev Cleanup (PathExists wav false)]
  else MkRun (inr tt) w [].
Proof.
  unfold cleanup. unfold_monad.
  destruct (bool_decide (wav ≠ file_path)); [|done].
  cbn [outcome final trace prepend app].
  destruct (path_exists wav w); [|done].
  cbn [outcome final trace prepend app].
  by destruct (os_remove wav w).1.
Qed.

Lemma epilogue_run cid audio loc w :
  let answer :=
    identify_unknown_speakers_by_combining (utterance_metadata loc) cid audio
      mt aut w in
  let asked :=
    Ev Epilogue
      (IdentifyUnknown (utterance_metadata loc) cid audio mt aut answer.1) in
  epilogue file_path cid mt aut audio loc w =
  match answer.1 with
  | inl e => MkRun (inl e) answer.2 [asked]
  | inr metadata =>
      let said := Ev Epilogue (Print (MsgSuccess (length metadata) cid)) in
      match s3_path loc with
      | None =>
          MkRun (inl (UnboundLocalError "s3_path")) answer.2 [asked; said]
      | Some path =>
          MkRun
            (inr (Some (Result cid (basename file_path) path metadata
                          (now_isoformat answer.2))))
            answer.2
            [asked; said; Ev Epilogue (DatetimeNow (now_isoformat answer.2))]
      end
  end.
Proof.
  cbn zeta. unfold epilogue, read_s3_path. unfold_monad.
  destruct (identify_unknown_speakers_by_combining _ _ _ _ _ _).1; [done|].
  cbn [outcome final trace prepend app].
  by destruct (s3_path loc).
Qed.

Lemma attempt_run cid audio us w :
  let info := conversation_info_for file_path cid dn audio in
  let added := add_conversation info w in
  attempt file_path cid dn mt aut audio us w =
  match added.1 with
  | inl e =>
      MkRun (inr None) added.2
        (Ev Body (AddConversation info (inl e)) :: handler_trace e)
  | inr db =>
      let opening :=
        [Ev Body (AddConversation info (inr db));
         Ev Body (Print (MsgAddedConversation db))] in
      let L := for_utterances cid audio db mt aut 0 us (Locals [] None) added.2 in
      match outcome L with
      | inl e =>
          MkRun (inr None) (final L) (opening ++ trace L ++ handler_trace e)
      | inr loc =>
          let E := epilogue file_path cid mt aut audio loc (final L) in
          match outcome E with
          | inl e =>
              MkRun (inr None) (final E)
                (opening ++ trace L ++ trace E ++ handler_trace e)
          | inr v => MkRun (inr v) (final E) (opening ++ trace L ++ trace E)
          end
      end
  end.
Proof.
  cbn zeta. unfold attempt, try_except, try_body, handler, handler_trace.
  unfold_monad.
  destruct (add_conversation _ w).1 as [e|db]; [done|].
  cbn [outcome final trace prepend app].
  destruct (outcome (for_utterances _ _ _ _ _ _ _ _ _)) as [e|loc];
    cbn [outcome final trace prepend app]; [done|].
  rewrite !outcome_prepend.
  destruct (outcome (epilogue _ _ _ _ _ _ _)) as [e|v] eqn:HE;
    unfold prepend; cbn [outcome final trace app]; rewrite ?HE;
    by rewrite <-?app_assoc.
Qed.

Lemma epilogue_sites cid audio loc w :
  Forall (λ e : event, ev_site e = Epilogue)
    (trace (epilogue file_path cid mt aut audio loc w)).
Proof.
  rewrite epilogue_run. cbn zeta.
  destruct (identify_unknown_speakers_by_combining _ _ _ _ _ _).1;
    [|destruct (s3_path loc)]; by repeat constructor.
Qed.

Lemma epilogue_proper cid audio loc w :
  Forall proper (trace (epilogue file_path cid mt aut audio loc w)).
Proof.
  rewrite epilogue_run. cbn zeta.
  destruct (identify_unknown_speakers_by_combining _ _ _ _ _ _).1;
    [|destruct (s3_path loc)]; by repeat constructor.
Qed.

Lemma attempt_returns cid audio us w :
  ∃ v, outcome (attempt file_path cid dn mt aut audio us w) = inr v.
Proof.
  rewrite attempt_run. cbn zeta.
  repeat (match goal with
          | |- context [match ?x with _ => _ end] => destruct x
          end; cbn [outcome]); by eexists.
Qed.

Lemma attempt_proper cid audio us w :
  Forall proper (trace (attempt file_path cid dn mt aut audio us w)).
Proof.
  rewrite attempt_run. cbn zeta. unfold handler_trace.
  repeat (match goal with
          | |- context [match ?x with _ => _ end] => destruct x
          end; cbn [trace]).
  all: rewrite ?Forall_app, ?Forall_cons; split_and?; try done.
  all: try apply loop_proper; try apply epilogue_proper.
  all: by repeat constructor.
Qed.

Lemma run_split cid w cid' wav audio us :
  outcome (prelude file_path cid w) = inr (cid', wav, audio, us) →
  process_conversation file_path cid dn mt aut w =
  prepend (trace (prelude file_path cid w))
    (finally (attempt file_path cid' dn mt aut audio us)
       (cleanup file_path wav) (final (prelude file_path cid w))).
Proof. intros Hp. unfold process_conversation. by rewrite bind_run, Hp. Qed.

Lemma run_raises_early cid w e :
  outcome (prelude file_path cid w) = inl e →
  process_conversation file_path cid dn mt aut w =
  MkRun (inl e) (final (prelude file_path cid w))
    (trace (prelude file_path cid w)).
Proof. intros Hp. unfold process_conversation. by rewrite bind_run, Hp. Qed.

Lemma run_parts cid w cid' wav audio us :
  outcome (prelude file_path cid w) = inr (cid', wav, audio, us) →
  let p := prelude file_path cid w in
  let a := attempt file_path cid' dn mt aut audio us (final p) in
  let c := cleanup file_path wav (final a) in
  let r := process_conversation file_path cid dn mt aut w in
  trace r = trace p ++ trace a ++ trace c ∧
  outcome r = match outcome c with inl e => inl e | inr _ => outcome a end ∧
  final r = final c.
Proof.
  intros Hp. cbn zeta. rewrite (run_split _ _ _ _ _ _ Hp).
  unfold finally, settle, prepend. cbn [outcome final trace].
  by destruct (outcome (cleanup _ _ _)).
Qed.

Lemma run_proper cid w :
  Forall proper (trace (process_conversation file_path cid dn mt aut w)).
Proof.
  destruct (outcome (prelude file_path cid w)) as [e|[[[cid' wav] audio] us]] eqn:Hp.
  - rewrite (run_raises_early _ _ _ Hp). apply prelude_proper.
  - destruct (run_parts _ _ _ _ _ _ Hp) as (-> & _ & _).
    rewrite !Forall_app. split_and!;
      [apply prelude_proper|apply attempt_proper|apply cleanup_proper].
Qed.

Lemma at_site_app (s : site) (t1 t2 : list event) :
  at_site s (t1 ++ t2) = at_site s t1 ++ at_site s t2.
Proof. apply filter_app. Qed.

Lemma at_site_cons_ne (s : site) e (t : list event) :
  ev_site e ≠ s → at_site s (e :: t) = at_site s t.
Proof. intros. unfold at_site. by rewrite filter_cons, decide_False. Qed.

Lemma at_site_cons_eq (s : site) e (t : list event) :
  ev_site e = s → at_site s (e :: t) = e :: at_site s t.
Proof. intros. unfold at_site. by rewrite filter_cons, decide_True. Qed.

Lemma at_site_loop (s : site) cid audio db us i0 loc w :
  (∀ k, s ≠ Iter k) →
  at_site s (trace (for_utterances cid audio db mt aut i0 us loc w)) = [].
Proof.
  intros Hs. apply filter_none. eapply Forall_impl; [apply loop_sites|].
  intros e (k & -> & _) ?. by eapply Hs.
Qed.

Lemma handler_sites e :
  Forall (λ ev : event, ev_site ev = Handler) (handler_trace e).
Proof. by repeat constructor. Qed.

Lemma run_result cid w cid' wav audio us :
  outcome (prelude file_path cid w) = inr (cid', wav, audio, us) →
  ∀ res,
  outcome (process_conversation file_path cid dn mt aut w) = inr (Some res) →
  outcome (attempt file_path cid' dn mt aut audio us
             (final (prelude file_path cid w))) = inr (Some res).
Proof.
  intros Hp res. destruct (run_parts _ _ _ _ _ _ Hp) as (_ & -> & _).
  by destruct (outcome (cleanup _ _ _)).
Qed.

(** The calls of a run made at a given site. *)
Local Ltac sites :=
  unfold handler_trace;
  repeat first
    [ rewrite at_site_app
    | rewrite at_site_cons_ne by done
    | rewrite at_site_cons_eq by done
    | rewrite (at_site_other _ Prelude (trace (prelude _ _ _)))
        by first [apply prelude_sites | done]
    | rewrite (at_site_other _ Cleanup (trace (cleanup _ _ _)))
        by first [apply cleanup_sites | done]
    | rewrite (at_site_other _ Epilogue (trace (epilogue _ _ _ _ _ _ _)))
        by first [apply epilogue_sites | done]
    | rewrite (at_site_same Epilogue (trace (epilogue _ _ _ _ _ _ _)))
        by apply epilogue_sites
    | rewrite (at_site_loop Epilogue) by done
    | rewrite app_nil_r
    | rewrite app_nil_l ];
  try reflexivity.

Lemma run_loop cid w cid' wav audio us :
  outcome (prelude file_path cid w) = inr (cid', wav, audio, us) →
  let r := process_conversation file_path cid dn mt aut w in
  let added :=
    add_conversation (conversation_info_for file_path cid' dn audio)
      (final (prelude file_path cid w)) in
  match added.1 with
  | inl _ =>
      (∀ i, at_site (Iter i) (trace r) = []) ∧ at_site Epilogue (trace r) = [] ∧
      ∀ res, outcome r ≠ inr (Some res)
  | inr db =>
      let L := for_utterances cid' audio db mt aut 0 us (Locals [] None) added.2 in
      (∀ i, at_site (Iter i) (trace r) = at_site (Iter i) (trace L)) ∧
      match outcome L with
      | inl _ =>
          at_site Epilogue (trace r) = [] ∧ ∀ res, outcome r ≠ inr (Some res)
      | inr loc =>
          let E := epilogue file_path cid' mt aut audio loc (final L) in
          at_site Epilogue (trace r) = trace E ∧
          ∀ res, outcome r = inr (Some res) → outcome E = inr (Some res)
      end
  end.
Proof.
  intros Hp. cbn zeta.
  pose proof (run_result _ _ _ _ _ _ Hp) as Hres.
  destruct (run_parts _ _ _ _ _ _ Hp) as (-> & _ & _).
  revert Hres. rewrite attempt_run. cbn zeta.
  destruct (add_conversation _ _).1 as [e|db]; cbn [outcome final trace].
  { intros Hres. split_and!; [intros i; sites|sites|].
    intros res Hr. by specialize (Hres _ Hr). }
  destruct (outcome (for_utterances _ _ _ _ _ _ _ _ _)) as [e|loc] eqn:HL;
    cbn [outcome final trace].
  { intros Hres. split_and!; [intros i; sites|sites|].
    intros res Hr. by specialize (Hres _ Hr). }
  destruct (outcome (epilogue _ _ _ _ _ _ _)) as [e|v] eqn:HE;
    cbn [outcome final trace]; intros Hres.
  - split_and!; [intros i; sites|sites|].
    intros res Hr. by specialize (Hres _ Hr).
  - split_and!; [intros i; sites|sites|]. done.
Qed.

(** A call made in iteration [i] belongs to the run of the loop body on
    utterance [i], and that run made all the calls of the site. *)
Lemma run_iteration cid w cid' wav audio us e i :
  outcome (prelude file_path cid w) = inr (cid', wav, audio, us) →
  e ∈ trace (run cid w) → ev_site e = Iter i →
  ∃ db u l wk,
    us !! i = Some u ∧ (added cid cid' audio w).1 = inr db ∧
    (i, u, l, wk) ∈
      iterations cid' audio db mt aut 0 us (Locals [] None)
        (added cid cid' audio w).2 ∧
    at_site (Iter i) (trace (run cid w))
      = trace (process_utterance cid' audio db mt aut i u l wk).
Proof.
  intros Hp. cbn zeta. intros He Hs.
  assert (e ∈ at_site (Iter i)
                (trace (process_conversation file_path cid dn mt aut w))) as Hin
    by by apply list_elem_of_filter.
  pose proof (run_loop _ _ _ _ _ _ Hp) as Hloop. cbn zeta in Hloop.
  destruct (add_conversation _ _).1 as [x|db].
  { destruct Hloop as (Hno & _). rewrite Hno in Hin. by apply elem_of_nil in Hin. }
  destruct Hloop as (Hiter & _). rewrite Hiter in Hin |- *.
  destruct (loop_at_site_cases cid' audio db mt aut us 0 (Locals [] None)
              (add_conversation
                 (conversation_info_for file_path cid' dn audio)
                 (final (prelude file_path cid w))).2 i)
    as [Hnil|(u & l & wk & Hit & Heq)].
  { rewrite Hnil in Hin. by apply elem_of_nil in Hin. }
  exists db, u, l, wk. split_and!; try done.
  by apply iterations_lookup in Hit as (j & -> & Hj).
Qed.

(** What is handed to the consolidation pass is the list the loop built. *)
Lemma run_consolidation cid w cid' wav audio us s md c fa t1 t2 a :
  outcome (prelude file_path cid w) = inr (cid', wav, audio, us) →
  Ev s (IdentifyUnknown md c fa t1 t2 a) ∈ trace (run cid w) →
  s = Epilogue ∧
  ∃ db loc,
    (added cid cid' audio w).1 = inr db ∧
    outcome (the_loop cid cid' audio us db w) = inr loc ∧
    md = utterance_metadata loc ∧
    a = (identify_unknown_speakers_by_combining md cid' audio mt aut
           (final (the_loop cid cid' audio us db w))).1.
Proof.
  intros Hp. cbn zeta. intros He.
  assert (s = Epilogue) as ->.
  { eapply Forall_forall in He; [|apply run_proper]. exact He. }
  split; [done|].
  assert (Ev Epilogue (IdentifyUnknown md c fa t1 t2 a)
            ∈ at_site Epilogue
                (trace (process_conversation file_path cid dn mt aut w))) as Hin
    by by apply list_elem_of_filter.
  pose proof (run_loop _ _ _ _ _ _ Hp) as Hloop. cbn zeta in Hloop.
  destruct (add_conversation _ _).1 as [x|db].
  { destruct Hloop as (_ & Hno & _). rewrite Hno in Hin.
    by apply elem_of_nil in Hin. }
  destruct Hloop as (_ & Hloop). exists db.
  destruct (outcome (for_utterances _ _ _ _ _ _ _ _ _)) as [x|loc].
  { destruct Hloop as (Hno & _). rewrite Hno in Hin. by apply elem_of_nil in Hin. }
  destruct Hloop as (Hep & _). rewrite Hep in Hin. exists loc.
  revert Hin. rewrite epilogue_run. cbn zeta.
  destruct (identify_unknown_speakers_by_combining _ _ _ _ _ _).1 eqn:Hid;
    [|destruct (s3_path loc)]; cbn [trace];
    rewrite ?elem_of_cons, elem_of_nil; intros Hin; destruct_or?;
    simplify_eq; by rewrite ?Hid.
Qed.

(** A result comes from a loop that ended normally and a consolidation
    pass that answered. *)
Lemma run_success cid w cid' wav audio us res :
  outcome (prelude file_path cid w) = inr (cid', wav, audio, us) →
  outcome (run cid w) = inr (Some res) →
  ∃ db loc,
    (added cid cid' audio w).1 = inr db ∧
    outcome (the_loop cid cid' audio us db w) = inr loc ∧
    (identify_unknown_speakers_by_combining (utterance_metadata loc) cid'
       audio mt aut (final (the_loop cid cid' audio us db w))).1
      = inr (r_utterances res) ∧
    s3_path loc = Some (r_s3_path res) ∧
    r_conversation_id res = cid' ∧ r_original_file res = basename file_path.
Proof.
  intros Hp. cbn zeta. intros Hr.
  pose proof (run_loop _ _ _ _ _ _ Hp) as Hloop. cbn zeta in Hloop.
  destruct (add_conversation _ _).1 as [x|db].
  { destruct Hloop as (_ & _ & Hno). by destruct (Hno res). }
  destruct Hloop as (_ & Hloop). exists db.
  destruct (outcome (for_utterances _ _ _ _ _ _ _ _ _)) as [x|loc].
  { destruct Hloop as (_ & Hno). by destruct (Hno res). }
  destruct Hloop as (_ & HE). specialize (HE _ Hr). exists loc.
  revert HE. rewrite epilogue_run. cbn zeta.
  destruct (identify_unknown_speakers_by_combining _ _ _ _ _ _).1;
    [|destruct (s3_path loc)]; cbn [outcome]; intros HE; by simplify_eq.
Qed.

(** The records of the list the loop built. *)
Lemma loop_stored cid audio db us w loc d :
  outcome (for_utterances cid audio db mt aut 0 us (Locals [] None) w) = inr loc →
  d ∈ utterance_metadata loc →
  ∃ k u l wk,
    us !! k = Some u ∧
    (k, u, l, wk) ∈ iterations cid audio db mt aut 0 us (Locals [] None) w ∧
    survives u ∧ stored cid audio db mt k u wk d.
Proof.
  intros (ds & -> & Hds)%loop_records Hd. cbn in Hd.
  eapply Forall_forall in Hds as (k & u & l & wk & Hit & ? & ?); [|exact Hd].
  exists k, u, l, wk. split_and!; try done.
  by apply iterations_lookup in Hit as (j & -> & Hj).
Qed.

Lemma stored_id cid audio db k u wk d :
  stored cid audio db mt k u wk d → d !! "id" = Some (PyInt (Z.of_nat k)).
Proof.
  intros (s & e & text & words & n0 & c0 & eid & emb & name & conf & _ & _ & _
          & _ & _ & ->).
  apply utterance_data_fields.
Qed.

Lemma at_site_elem (s : site) (e : event) (t : list event) :
  ev_site e = s → e ∈ t ↔ e ∈ at_site s t.
Proof. intros Hs. unfold at_site. rewrite list_elem_of_filter. tauto. Qed.

(** A record handed to the consolidation pass was built by an iteration of
    the loop, which made all the calls of its site. *)
Lemma run_record cid w cid' wav audio us s md c fa t1 t2 a d :
  outcome (prelude file_path cid w) = inr (cid', wav, audio, us) →
  Ev s (IdentifyUnknown md c fa t1 t2 a) ∈ trace (run cid w) →
  d ∈ md →
  ∃ db k u l wk,
    us !! k = Some u ∧ survives u ∧ stored cid' audio db mt k u wk d ∧
    at_site (Iter k) (trace (run cid w))
      = trace (process_utterance cid' audio db mt aut k u l wk).
Proof.
  intros Hp He Hd.
  opose proof* run_consolidation as Hc; [exact Hp|exact He|].
  destruct Hc as (_ & db & loc & Hadd & HL & -> & _).
  opose proof* loop_stored as Hst; [exact HL|exact Hd|].
  destruct Hst as (k & u & l & wk & Hk & Hit & Hsurv & Hst).
  exists db, k, u, l, wk. split_and!; try done.
  pose proof (run_loop _ _ _ _ _ _ Hp) as Hloop.
  cbn zeta in Hloop. rewrite Hadd in Hloop. destruct Hloop as (-> & _).
  by apply loop_at_site.
Qed.
End Whole.

(** ** The order of the calls *)

Section Order.
Context {World Audio Embedding : Type} `{!Env World Audio Embedding}.

Local Abbreviation M := (M World Audio Embedding).
Local Abbreviation event := (event Audio Embedding).

Variables (file_path : string) (dn : option string) (mt aut : Q).

Local Abbreviation run cid w :=
  (process_conversation file_path cid dn mt aut w).

Lemma site_le_refl s : site_le s s.
Proof. unfold site_le. lia. Qed.

Lemma ev_le_phase (e1 e2 : event) : (phase e1 < phase e2)%nat → ev_le e1 e2.
Proof. unfold ev_le, site_le, phase. lia. Qed.

Lemma sorted_same (s : site) (t : list event) :
  Forall (λ e, ev_site e = s) t → StronglySorted ev_le t.
Proof.
  induction 1 as [|e t He Ht IH]; constructor; [done|].
  eapply Forall_impl; [exact Ht|]. intros e' He'. unfold ev_le.
  rewrite He, He'. apply site_le_refl.
Qed.

Lemma sorted_phase (n : nat) (t1 t2 : list event) :
  StronglySorted ev_le t1 → StronglySorted ev_le t2 →
  Forall (λ e, (phase e ≤ n)%nat) t1 → Forall (λ e, (n < phase e)%nat) t2 →
  StronglySorted ev_le (t1 ++ t2).
Proof.
  intros H1 H2 Hb1 Hb2. apply StronglySorted_app_2; [|done..].
  intros x1 x2 Hx1 Hx2. apply ev_le_phase.
  eapply Forall_forall in Hb1; [|exact Hx1].
  eapply Forall_forall in Hb2; [|exact Hx2]. cbn beta in *. lia.
Qed.

Lemma phase_sites (s : site) (t : list event) :
  Forall (λ e, ev_site e = s) t → Forall (λ e, phase e = (site_key s).1) t.
Proof. intros Ht. eapply Forall_impl; [exact Ht|]. by intros e <-. Qed.

Lemma loop_phase cid audio db us i0 loc w :
  Forall (λ e, phase e = 2%nat)
    (trace (for_utterances cid audio db mt aut i0 us loc w)).
Proof.
  eapply Forall_impl; [apply loop_sites|].
  intros e (k & He & _). unfold phase. by rewrite He.
Qed.

Lemma loop_sorted cid audio db us i0 loc w :
  StronglySorted ev_le (trace (for_utterances cid audio db mt aut i0 us loc w)).
Proof.
  induction us as [|u0 rest IH] in i0, loc, w |- *; [constructor|].
  rewrite loop_cons.
  pose proof (iteration_sites cid audio db mt aut i0 u0 loc w) as Hs.
  destruct (outcome (process_utterance _ _ _ _ _ _ _ _ _)) as [|loc'];
    rewrite ?trace_prepend; cbn [trace]; [by eapply sorted_same|].
  apply StronglySorted_app_2; [|by eapply sorted_same|apply IH].
  intros x1 x2 Hx1 Hx2.
  eapply Forall_forall in Hs; [|exact Hx1].
  eapply Forall_forall in Hx2; [|apply loop_sites].
  destruct Hx2 as (k & Hk & ?). unfold ev_le, site_le.
  cbn beta in Hs. rewrite Hs, Hk. cbn. lia.
Qed.

Local Ltac phases :=
  rewrite ?Forall_app; split_and?;
  first
    [ eapply Forall_impl; [apply loop_phase|]; intros ? ->; cbn; lia
    | eapply Forall_impl;
        [apply phase_sites;
         first [apply epilogue_sites | apply handler_sites
               | apply prelude_sites | apply cleanup_sites]|];
        intros ? ->; cbn; lia
    | by repeat constructor ].

Lemma attempt_sorted cid audio us w :
  StronglySorted ev_le (trace (attempt file_path cid dn mt aut audio us w)) ∧
  Forall (λ e, (1 ≤ phase e ≤ 4)%nat)
    (trace (attempt file_path cid dn mt aut audio us w)).
Proof.
  rewrite attempt_run. cbn zeta.
  repeat (match goal with
          | |- context [match ?x with _ => _ end] => destruct x
          end; cbn [trace]).
  all: split; [|phases].
  - apply (sorted_phase 1 [_]); [by eapply (sorted_same Body); repeat constructor
      |eapply sorted_same, handler_sites|phases..].
  - apply (sorted_phase 1 [_; _]);
      [by eapply (sorted_same Body); repeat constructor| |phases..].
    apply (sorted_phase 2); [apply loop_sorted
      |eapply sorted_same, handler_sites|phases..].
  - apply (sorted_phase 1 [_; _]);
      [by eapply (sorted_same Body); repeat constructor| |phases..].
    apply (sorted_phase 2); [apply loop_sorted| |phases..].
    apply (sorted_phase 3); [eapply sorted_same, epilogue_sites
      |eapply sorted_same, handler_sites|phases..].
  - apply (sorted_phase 1 [_; _]);
      [by eapply (sorted_same Body); repeat constructor| |phases..].
    apply (sorted_phase 2); [apply loop_sorted
      |eapply sorted_same, epilogue_sites|phases..].
Qed.








End Order.

(** ** The outcome *)

Section Outcome.
Context {World Audio Embedding : Type} `{!Env World Audio Embedding}.

Local Abbreviation M := (M World Audio Embedding).
Local Abbreviation event := (event Audio Embedding).

Variables (file_path : string) (dn : option string) (mt aut : Q).

Local Abbreviation run cid w :=
  (process_conversation file_path cid dn mt aut w).

Lemma cleanup_returns wav w :
  removal_answers file_path wav w → outcome (cleanup file_path wav w) = inr tt.
Proof.
  intros Hrm. rewrite cleanup_run.
  case_bool_decide as Hne; [|done].
  destruct (path_exists wav w) eqn:Hthere; [|done].
  by rewrite (Hrm Hne Hthere).
Qed.

Lemma run_outcome cid w cid' wav audio us :
  outcome (prelude file_path cid w) = inr (cid', wav, audio, us) →
  removal_answers file_path wav
    (final (attempt file_path cid' dn mt aut audio us
              (final (prelude file_path cid w)))) →
  outcome (run cid w)
  = outcome (attempt file_path cid' dn mt aut audio us
               (final (prelude file_path cid w))).
Proof.
  intros Hp Hrm. destruct (run_parts file_path dn mt aut _ _ _ _ _ _ Hp) as (_ & -> & _).
  by rewrite cleanup_returns.
Qed.

Lemma attempt_outcome cid audio us w :
  outcome (attempt file_path cid dn mt aut audio us w)
  = inr match outcome (try_body file_path cid dn mt aut audio us w) with
        | inl _ => None
        | inr v => v
        end.
Proof.
  unfold attempt, try_except, handler. unfold_monad.
  destruct (outcome (try_body _ _ _ _ _ _ _ _)) eqn:Hb;
    rewrite ?outcome_prepend; cbn [outcome prepend]; done.
Qed.

Lemma try_body_value cid audio us w v :
  outcome (try_body file_path cid dn mt aut audio us w) = inr v → is_Some v.
Proof.
  unfold try_body. unfold_monad.
  destruct (add_conversation _ w).1; [done|].
  cbn [outcome final trace prepend]. rewrite !outcome_prepend.
  destruct (outcome (for_utterances _ _ _ _ _ _ _ _ _)); [done|].
  rewrite !outcome_prepend, epilogue_run. cbn zeta.
  destruct (identify_unknown_speakers_by_combining _ _ _ _ _ _).1; [done|].
  destruct (s3_path _); [|done]. cbn [outcome]. intros [= <-]. by eexists.
Qed.

Lemma attempt_phase cid audio us w :
  Forall (λ e : event, (1 ≤ phase e ≤ 4)%nat)
    (trace (attempt file_path cid dn mt aut audio us w)).
Proof. apply attempt_sorted. Qed.

Lemma at_site_attempt (s : site) cid audio us w :
  ((site_key s).1 < 1 ∨ 4 < (site_key s).1)%nat →
  at_site s (trace (attempt file_path cid dn mt aut audio us w)) = [].
Proof.
  intros Hs. apply filter_none.
  eapply Forall_impl; [apply attempt_phase|].
  intros e He <-. unfold phase in He. lia.
Qed.

Lemma prelude_converted cid w cid' wav audio us :
  outcome (prelude file_path cid w) = inr (cid', wav, audio, us) →
  Ev Prelude (ConvertToWav file_path (inr wav))
    ∈ trace (prelude file_path cid w).
Proof.
  unfold prelude. unfold_monad. split_run; intros [=]; subst.
  all: repeat match goal with
         | H : convert_to_wav _ _ = _ |- _ => clear H
         end; find_event.
Qed.
End Outcome.

(** ** The claims *)

Section Claims.
Context {World Audio Embedding : Type} `{!Env World Audio Embedding}.

Local Abbreviation event := (event Audio Embedding).

(** C1.  An utterance whose duration [end_ms - start_ms] is under 700 ms
    is skipped before matching: [test_voice_segment] is never called for
    its index, no record of the list handed to the consolidation pass
    bears its index and, the consolidation pass keeping the records it is
    given but for their speaker and confidence, no record of the returned
    list does. *)
Theorem short_utterance_skipped file_path cid dn mt aut (w : World)
    cid' wav audio us i u :
  outcome (prelude file_path cid w) = inr (cid', wav, audio, us) →
  us !! i = Some u →
  short u →
  let r := process_conversation file_path cid dn mt aut w in
  (∀ s seg c thr a, Ev s (TestVoiceSegment seg c i thr a) ∉ trace r) ∧
  (∀ s md c fa t1 t2 a d,
     Ev s (IdentifyUnknown md c fa t1 t2 a) ∈ trace r →
     d ∈ md → d !! "id" ≠ Some (PyInt (Z.of_nat i))) ∧
  (consolidation_contract →
   ∀ res d, outcome r = inr (Some res) → d ∈ r_utterances res →
     d !! "id" ≠ Some (PyInt (Z.of_nat i))).
Proof.
  intros Hp Hu Hshort. cbn zeta.
  assert (∀ db loc d,
    outcome (for_utterances cid' audio db mt aut 0 us (Locals [] None)
               (add_conversation
                  (conversation_info_for file_path cid' dn audio)
                  (final (prelude file_path cid w))).2) = inr loc →
    d ∈ utterance_metadata loc → d !! "id" ≠ Some (PyInt (Z.of_nat i)))
    as Hrecords.
  { intros db loc d HL Hd Hid.
    opose proof* loop_stored as Hst; [exact HL|exact Hd|].
    destruct Hst as (k & u' & l & wk & Hk & _ & Hsurv & Hst).
    apply stored_id in Hst. rewrite Hst in Hid.
    assert (k = i) as -> by (injection Hid; lia).
    rewrite Hu in Hk. simplify_eq. by eapply short_not_survives. }
  split_and!.
  - intros s seg c thr a He.
    assert (s = Iter i) as ->.
    { eapply Forall_forall in He; [|apply run_proper]. exact He. }
    opose proof* run_iteration as Hit; [exact Hp|exact He|reflexivity|].
    destruct Hit as (db & u' & l & wk & Hu' & _ & _ & Heq).
    rewrite Hu in Hu'. simplify_eq.
    assert (Ev (Iter i) (TestVoiceSegment seg c i thr a)
              ∈ at_site (Iter i)
                  (trace (process_conversation file_path cid dn mt aut w)))
      as Hin by by apply list_elem_of_filter.
    rewrite Heq in Hin.
    apply iteration_matching_call in Hin as (_ & _ & _ & _ & Hsurv & _).
    by eapply short_not_survives.
  - intros s md c fa t1 t2 a d He Hd.
    opose proof* run_consolidation as Hc; [exact Hp|exact He|].
    destruct Hc as (_ & db & loc & _ & HL & -> & _).
    by eapply Hrecords.
  - intros Hcontract res d Hr Hd.
    opose proof* run_success as Hs; [exact Hp|exact Hr|].
    destruct Hs as (db & loc & _ & HL & Hid & _).
    apply Hcontract in Hid.
    destruct (proj1 (list_elem_of_lookup _ _) Hd) as [n Hn].
    destruct (Forall2_lookup_r _ _ _ _ _ Hid Hn) as (d0 & Hd0 & _ & Hsame).
    rewrite Hsame by done.
    eapply Hrecords; [done|]. by eapply list_elem_of_lookup_2.
Qed.

(** C2.  For an utterance that reaches line 80 (the matcher answered,
    [add_speaker] answered for the name kept, the utterance has a text),
    [auto_update_embedding] is called if and only if the matcher returned
    an embedding and the confidence kept is strictly greater than
    [auto_update_threshold]; at a confidence equal to the threshold it is
    not called. *)
Theorem auto_enrollment_gate file_path cid dn mt aut (w : World)
    cid' wav audio us i u seg c thr name0 confidence0 embedding_id embedding
    name confidence speaker_id :
  outcome (prelude file_path cid w) = inr (cid', wav, audio, us) →
  us !! i = Some u →
  let r := process_conversation file_path cid dn mt aut w in
  Ev (Iter i)
    (TestVoiceSegment seg c i thr
       (inr (name0, confidence0, embedding_id, embedding))) ∈ trace r →
  resolve_speaker u name0 confidence0 = inr (name, confidence) →
  Ev (Iter i) (AddSpeaker name (inr speaker_id)) ∈ trace r →
  is_Some (u !! "text") →
  ((∃ e n src c' t a,
      Ev (Iter i) (AutoUpdateEmbedding e n src c' t a) ∈ trace r)
   ↔ is_Some embedding ∧ py_gt confidence aut = inr true) ∧
  (∀ q, confidence = PyFloat q → (q == aut)%Q →
     ∀ e n src c' t a,
       Ev (Iter i) (AutoUpdateEmbedding e n src c' t a) ∉ trace r).
Proof.
  intros Hp Hu. cbn zeta. intros Htv Hres Hsp Htext.
  opose proof* run_iteration as Hit; [exact Hp|exact Htv|reflexivity|].
  destruct Hit as (db & u' & l & wk & Hu' & _ & _ & Heq).
  rewrite Hu in Hu'. simplify_eq.
  assert (∀ ev : event, ev_site ev = Iter i →
            ev ∈ trace (process_conversation file_path cid dn mt aut w) ↔
            ev ∈ trace (process_utterance cid' audio db mt aut i u' l wk))
    as Hin.
  { intros ev Hs. rewrite <-Heq. unfold at_site.
    rewrite list_elem_of_filter. tauto. }
  rewrite Hin in Htv, Hsp by done.
  apply iteration_matching_call in Htv
    as (_ & _ & -> & -> & _ & s & e & Hspan & -> & Hans).
  symmetry in Hans.
  assert ((∃ e0 n src c' t a,
             Ev (Iter i) (AutoUpdateEmbedding e0 n src c' t a)
               ∈ trace (process_conversation file_path cid dn mt aut w))
          ↔ is_Some embedding ∧ py_gt confidence aut = inr true) as Hiff.
  { split.
    - intros (e0 & n & src & c' & t & a & He). rewrite Hin in He by done.
      apply iteration_enrollment in He
        as (_ & _ & _ & Hgt & s' & e' & n0 & c0 & eid & Hspan' & Hans' & Hres').
      rewrite Hspan in Hspan'. simplify_eq. rewrite Hans in Hans'.
      simplify_eq. rewrite Hres in Hres'. simplify_eq. by split.
    - intros [Hemb Hgt].
      opose proof* (iteration_gate cid' audio db mt aut i u' l wk) as Hg;
        [exact Hspan|exact Hans|exact Hres|exact Hsp|exact Htext|exact Hemb
        |exact Hgt|].
      destruct Hg as (e0 & a & _ & He).
      exists e0, name, (utterance_wav_path cid' i), confidence, aut, a.
      by apply Hin. }
  split; [exact Hiff|].
  intros q -> Hq e0 n src c' t a He.
  assert (py_gt (PyFloat q) aut = inr true) as Hgt
    by (apply Hiff; by exists e0, n, src, c', t, a).
  injection Hgt as Hgt. apply negb_true_iff in Hgt.
  assert (Qle_bool q aut = true) as Hle
    by (apply Qle_bool_iff; rewrite Hq; apply Qle_refl).
  congruence.
Qed.

(** C3, amended.  For an utterance the matcher gave no speaker for,
    [auto_update_embedding] is called only with the embedding the matcher
    returned, under the fallback label, and only when the provider's own
    confidence (0.0 when it gives none) is strictly greater than
    [auto_update_threshold]: being matched is not part of the gate. *)
Theorem unmatched_enrollment_gate file_path cid dn mt aut (w : World)
    cid' wav audio us i u seg c thr name0 confidence0 embedding_id embedding :
  outcome (prelude file_path cid w) = inr (cid', wav, audio, us) →
  us !! i = Some u →
  let r := process_conversation file_path cid dn mt aut w in
  Ev (Iter i)
    (TestVoiceSegment seg c i thr
       (inr (name0, confidence0, embedding_id, embedding))) ∈ trace r →
  falsy name0 = true →
  ∀ e n src c' t a,
    Ev (Iter i) (AutoUpdateEmbedding e n src c' t a) ∈ trace r →
    embedding = Some e ∧
    c' = get_default u "confidence" (PyFloat 0) ∧
    py_gt c' aut = inr true ∧
    ∃ tag, u !! "speaker" = Some tag ∧
      n = "Speaker_" +:+ py_format py_repr tag.
Proof.
  intros Hp Hu. cbn zeta. intros Htv Hfalsy e n src c' t a He.
  opose proof* run_iteration as Hit; [exact Hp|exact Htv|reflexivity|].
  destruct Hit as (db & u' & l & wk & Hu' & _ & _ & Heq).
  rewrite Hu in Hu'. simplify_eq.
  apply (at_site_elem (Iter i)) in Htv, He; [|done..].
  rewrite Heq in Htv, He.
  apply iteration_matching_call in Htv
    as (_ & _ & -> & -> & _ & s0 & e0 & Hspan & -> & Hans).
  symmetry in Hans.
  apply iteration_enrollment in He
    as (_ & _ & _ & Hgt & s' & e' & n0 & c0 & eid & Hspan' & Hans' & Hres').
  rewrite Hspan in Hspan'. simplify_eq. rewrite Hans in Hans'. simplify_eq.
  destruct (resolve_unmatched _ _ _ _ _ Hfalsy Hres') as (tag & Htag & -> & ->).
  split_and!; try done. by exists tag.
Qed.

(** C4.  For an utterance the matcher gave no speaker for, the name kept
    is ["Speaker_"] followed by the provider's tag and the confidence
    kept is the provider's own, 0.0 when it gives none: [add_speaker] is
    called with that name, and the record of the utterance list and the
    record handed to [add_utterance] carry that name and confidence. *)
Theorem unmatched_fallback file_path cid dn mt aut (w : World)
    cid' wav audio us i u seg c thr name0 confidence0 embedding_id embedding :
  outcome (prelude file_path cid w) = inr (cid', wav, audio, us) →
  us !! i = Some u →
  let r := process_conversation file_path cid dn mt aut w in
  Ev (Iter i)
    (TestVoiceSegment seg c i thr
       (inr (name0, confidence0, embedding_id, embedding))) ∈ trace r →
  falsy name0 = true →
  (∀ tag, u !! "speaker" = Some tag →
     ∃ a, Ev (Iter i) (AddSpeaker ("Speaker_" +:+ py_format py_repr tag) a)
            ∈ trace r) ∧
  (∀ s md c2 fa t1 t2 a d,
     Ev s (IdentifyUnknown md c2 fa t1 t2 a) ∈ trace r → d ∈ md →
     d !! "id" = Some (PyInt (Z.of_nat i)) →
     ∃ tag, u !! "speaker" = Some tag ∧
       d !! "speaker" = Some (PyStr ("Speaker_" +:+ py_format py_repr tag)) ∧
       d !! "confidence" = Some (get_default u "confidence" (PyFloat 0))) ∧
  (∀ info a,
     Ev (Iter i) (AddUtterance info a) ∈ trace r →
     ∃ tag, u !! "speaker" = Some tag ∧
       info !! "speaker" = Some (PyStr ("Speaker_" +:+ py_format py_repr tag)) ∧
       info !! "confidence" = Some (get_default u "confidence" (PyFloat 0))).
Proof.
  intros Hp Hu. cbn zeta. intros Htv Hfalsy.
  opose proof* run_iteration as Hit; [exact Hp|exact Htv|reflexivity|].
  destruct Hit as (db & u' & l & wk & Hu' & Hadd & _ & Heq).
  rewrite Hu in Hu'. simplify_eq.
  apply (at_site_elem (Iter i)) in Htv; [|done].
  assert (∀ db' l' wk' d,
            at_site (Iter i)
              (trace (process_conversation file_path cid dn mt aut w))
            = trace (process_utterance cid' audio db' mt aut i u' l' wk') →
            stored cid' audio db' mt i u' wk' d →
            ∃ tag, u' !! "speaker" = Some tag ∧
              d !! "speaker"
                = Some (PyStr ("Speaker_" +:+ py_format py_repr tag)) ∧
              d !! "confidence"
                = Some (get_default u' "confidence" (PyFloat 0))) as Hstored.
  { intros db' l' wk' d Heq'
      (s' & e' & text & words & n0 & c0 & eid & emb & name & conf
       & Hspan' & _ & _ & Hans' & Hres & ->).
    rewrite Heq' in Htv.
    apply iteration_matching_call in Htv
      as (_ & _ & -> & -> & _ & s0 & e0 & Hspan & -> & Hans).
    rewrite Hspan in Hspan'. simplify_eq. rewrite Hans' in Hans. simplify_eq.
    destruct (resolve_unmatched _ _ _ _ _ Hfalsy Hres) as (tag & Htag & -> & ->).
    exists tag. by rewrite utterance_data_speaker, utterance_data_confidence. }
  split_and!.
  - intros tag Htag. rewrite Heq in Htv.
    apply iteration_matching_call in Htv
      as (_ & _ & -> & -> & Hsurv & s0 & e0 & Hspan & -> & Hans).
    symmetry in Hans.
    opose proof* (iteration_add_speaker cid' audio db mt aut i u' l wk) as Hsp;
      [exact Hsurv|exact Hspan|exact Hans| |].
    { unfold resolve_speaker. rewrite Hfalsy.
      by rewrite (proj2 (getitem_inr _ _ _) Htag). }
    destruct Hsp as [a Ha]. exists a.
    apply (at_site_elem (Iter i)); [done|]. by rewrite Heq.
  - intros s md c2 fa t1 t2 a d He Hd Hid.
    opose proof* run_record as Hrec; [exact Hp|exact He|exact Hd|].
    destruct Hrec as (db' & k & u2 & l2 & wk2 & Hk & _ & Hst & Heq2).
    pose proof (stored_id _ _ _ _ _ _ _ _ Hst) as Hid'.
    rewrite Hid in Hid'. assert (k = i) as -> by (injection Hid'; lia).
    rewrite Hu in Hk. simplify_eq. by eapply Hstored.
  - intros info a He.
    apply (at_site_elem (Iter i)) in He; [|done]. rewrite Heq in He.
    apply iteration_add_utterance in He as (_ & _ & d & Hst & -> & ->).
    by eapply Hstored.
Qed.


(** C7, amended.  An utterance without ["words"] is skipped: no call is
    made for it, no record of the utterance list bears its index, and the
    loop goes on with the utterances after it, from the locals and the
    world the utterances before it left. *)
Theorem wordless_utterance_skipped file_path cid dn mt aut (w : World)
    cid' wav audio us i u :
  outcome (prelude file_path cid w) = inr (cid', wav, audio, us) →
  us !! i = Some u →
  u !! "words" = None →
  let r := process_conversation file_path cid dn mt aut w in
  at_site (Iter i) (trace r) = [] ∧
  (∀ s md c fa t1 t2 a d,
     Ev s (IdentifyUnknown md c fa t1 t2 a) ∈ trace r →
     d ∈ md → d !! "id" ≠ Some (PyInt (Z.of_nat i))) ∧
  (∀ db i0 before after loc w0,
     for_utterances cid' audio db mt aut i0 (before ++ u :: after) loc w0
     = (for_utterances cid' audio db mt aut i0 before loc ≫= λ loc',
        for_utterances cid' audio db mt aut (S (i0 + length before)) after
          loc') w0).
Proof.
  intros Hp Hu Hwords. cbn zeta. split_and!.
  - pose proof (run_loop file_path dn mt aut _ _ _ _ _ _ Hp) as Hloop.
    cbn zeta in Hloop.
    destruct (add_conversation _ _).1 as [x|db]; [by destruct Hloop as (-> & _)|].
    destruct Hloop as (-> & _).
    destruct (loop_at_site_cases cid' audio db mt aut us 0 (Locals [] None)
                (add_conversation
                   (conversation_info_for file_path cid' dn audio)
                   (final (prelude file_path cid w))).2 i)
      as [->|(u' & l & wk & Hit & ->)]; [done|].
    pose proof Hit as (j & Hij & Hj)%iterations_lookup.
    change (0 + j)%nat with j in Hij. subst j.
    rewrite Hu in Hj. simplify_eq. by rewrite iteration_without_words.
  - intros s md c fa t1 t2 a d He Hd Hid.
    opose proof* run_record as Hrec; [exact Hp|exact He|exact Hd|].
    destruct Hrec as (db & k & u' & l & wk & Hk & Hsurv & Hst & _).
    apply stored_id in Hst. rewrite Hst in Hid.
    assert (k = i) as -> by (injection Hid; lia).
    rewrite Hu in Hk. simplify_eq. destruct Hsurv as [[? Hw] _]. congruence.
  - intros db i0 before after loc w0. by apply loop_skips.
Qed.


(** C9.  When every utterance is stopped by one of the two guards (no
    ["words"], or under 700 ms), also when there is none, the call returns
    [None], the [os.remove] of the [finally] block, if that block calls
    it, not raising: if the consolidation pass answers, it was handed the
    empty list and the handler reports the unbound [s3_path]. *)
Theorem empty_conversation_returns_none file_path cid dn mt aut (w : World)
    cid' wav audio us :
  outcome (prelude file_path cid w) = inr (cid', wav, audio, us) →
  Forall filtered us →
  removal_answers file_path wav
    (final (attempt file_path cid' dn mt aut audio us
              (final (prelude file_path cid w)))) →
  let r := process_conversation file_path cid dn mt aut w in
  outcome r = inr None ∧
  (∀ s md c fa t1 t2 out,
     Ev s (IdentifyUnknown md c fa t1 t2 (inr out)) ∈ trace r →
     md = [] ∧
     Ev Handler (Print (MsgError (UnboundLocalError "s3_path"))) ∈ trace r).
Proof.
  intros Hp Hf Hrm. cbn zeta. split.
  - rewrite (run_outcome file_path dn mt aut _ _ _ _ _ _ Hp Hrm), attempt_run.
    cbn zeta. destruct (add_conversation _ _).1 as [e|db]; [done|].
    destruct (loop_all_filtered cid' audio db mt aut us 0 (Locals [] None)
                (add_conversation
                   (conversation_info_for file_path cid' dn audio)
                   (final (prelude file_path cid w))).2 Hf) as [-> ->].
    rewrite epilogue_run. cbn zeta.
    by destruct (identify_unknown_speakers_by_combining _ _ _ _ _ _).1.
  - intros s md c fa t1 t2 out He.
    opose proof* run_consolidation as Hc; [exact Hp|exact He|].
    destruct Hc as (-> & db & loc & Hadd & HL & -> & Hout).
    destruct (loop_all_filtered cid' audio db mt aut us 0 (Locals [] None)
                (add_conversation
                   (conversation_info_for file_path cid' dn audio)
                   (final (prelude file_path cid w))).2 Hf) as [HL' Hw].
    rewrite HL' in HL. rewrite Hw in Hout. simplify_eq. split; [done|].
    destruct (run_parts file_path dn mt aut _ _ _ _ _ _ Hp) as (-> & _ & _).
    apply elem_of_app. right. apply elem_of_app. left.
    rewrite attempt_run. cbn zeta. rewrite Hadd, HL', Hw, epilogue_run.
    cbn zeta. cbn [utterance_metadata s3_path] in *. rewrite <-Hout.
    cbn [outcome trace]. unfold handler_trace.
    rewrite !elem_of_app, !elem_of_cons. tauto.
Qed.

(** X20.  Whenever [process_conversation] returns, with a result or with
    [None]: if the file [convert_to_wav] answered is not the input file
    and exists when the [finally] block runs, [os.remove] has been called
    on it and has succeeded; and [os.remove] is called on nothing else, so
    never on the input file. *)
Theorem temporary_wav_removed file_path cid dn mt aut (w : World) v :
  let r := process_conversation file_path cid dn mt aut w in
  outcome r = inr v →
  ∃ cid' wav audio us,
    outcome (prelude file_path cid w) = inr (cid', wav, audio, us) ∧
    Ev Prelude (ConvertToWav file_path (inr wav)) ∈ trace r ∧
    (wav ≠ file_path →
     path_exists wav
       (final (attempt file_path cid' dn mt aut audio us
                 (final (prelude file_path cid w)))) = true →
     Ev Cleanup (OsRemove wav (inr tt)) ∈ trace r) ∧
    (∀ s p a, Ev s (OsRemove p a) ∈ trace r →
       s = Cleanup ∧ p = wav ∧ p ≠ file_path).
Proof.
  cbn zeta. intros Hv.
  destruct (outcome (prelude file_path cid w))
    as [e|[[[cid' wav] audio] us]] eqn:Hp.
  { by rewrite (run_raises_early file_path dn mt aut _ _ _ Hp) in Hv. }
  exists cid', wav, audio, us. split; [done|].
  destruct (run_parts file_path dn mt aut _ _ _ _ _ _ Hp) as (Ht & Ho & _).
  rewrite Ho in Hv. split_and!.
  - rewrite Ht. apply elem_of_app. left. by eapply prelude_converted.
  - intros Hne Hex. rewrite Ht. revert Hv. rewrite cleanup_run.
    rewrite bool_decide_eq_true_2, Hex by done.
    destruct (os_remove wav _).1 as [e|[]]; cbn [outcome trace]; [done|].
    intros _. rewrite !elem_of_app, !elem_of_cons. tauto.
  - intros s p a He.
    assert (s = Cleanup) as ->.
    { eapply Forall_forall in He; [|apply run_proper]. exact He. }
    split; [done|].
    apply (at_site_elem Cleanup) in He; [|done]. revert He.
    rewrite Ht, !at_site_app.
    rewrite (at_site_other Cleanup Prelude) by (apply prelude_sites || done).
    rewrite (at_site_attempt file_path dn mt aut) by (cbn; lia).
    rewrite (at_site_same Cleanup) by apply cleanup_sites.
    rewrite cleanup_run. cbn [app].
    destruct (bool_decide (wav ≠ file_path)) eqn:Hne;
      [|by intros ?%elem_of_nil].
    apply bool_decide_eq_true in Hne.
    destruct (path_exists wav _); [destruct (os_remove wav _).1|];
      cbn [trace]; rewrite ?elem_of_cons, elem_of_nil; intros Hin;
      destruct_or?; by simplify_eq.
Qed.
End Claims.

(** ** Further properties *)

Section Formatting.

Lemma digit_value_char (x : N) : (x < 10)%N → digit_value (pretty_N_char x) = x.
Proof.
  intros Hx.
  assert (x = 0 ∨ x = 1 ∨ x = 2 ∨ x = 3 ∨ x = 4 ∨ x = 5 ∨ x = 6 ∨ x = 7
          ∨ x = 8 ∨ x = 9)%N as Hcases by lia.
  destruct_or!; subst; reflexivity.
Qed.

Lemma decimal_value_go (x : N) (s : string) :
  decimal_value (pretty_N_go x s) = (x * magnitude s + decimal_value s)%N.
Proof.
  revert s. induction (N.lt_wf_0 x) as [x _ IH]. intros s.
  destruct (decide (x = 0)%N) as [->|Hx].
  { rewrite pretty_N_go_0. lia. }
  rewrite pretty_N_go_step by lia.
  rewrite IH by (apply N.div_lt; lia). cbn [magnitude decimal_value].
  rewrite digit_value_char by (apply N.mod_lt; lia).
  pose proof (N.div_mod x 10). lia.
Qed.

Lemma decimal_value_pretty (x : N) : decimal_value (pretty x) = x.
Proof.
  unfold pretty, pretty_N. case_decide as Hx; [by subst|].
  rewrite decimal_value_go. cbn. lia.
Qed.

Lemma decimal_value_zero (s : string) :
  decimal_value (String "0" s) = decimal_value s.
Proof. cbn [decimal_value]. change (digit_value "0") with 0%N. lia. Qed.

Lemma decimal_value_padded (n : nat) (s : string) :
  decimal_value (String.concat "" (replicate n "0") +:+ s) = decimal_value s.
Proof.
  induction n as [|n IH]; [done|].
  destruct n as [|n]; [apply decimal_value_zero|].
  change (String.concat "" (replicate (S (S n)) "0") +:+ s)
    with (String "0" (String.concat "" (replicate (S n) "0") +:+ s)).
  by rewrite decimal_value_zero.
Qed.

Lemma fmt_03d_value (i : nat) : decimal_value (fmt_03d i) = N.of_nat i.
Proof. unfold fmt_03d. cbn zeta. rewrite decimal_value_padded. apply decimal_value_pretty. Qed.

Lemma fmt_03d_inj (i j : nat) : fmt_03d i = fmt_03d j → i = j.
Proof.
  intros Heq. apply (f_equal decimal_value) in Heq.
  rewrite !fmt_03d_value in Heq. lia.
Qed.

Lemma append_length (s t : string) :
  String.length (s +:+ t) = (String.length s + String.length t)%nat.
Proof.
  induction s as [|c s IH]; [done|].
  change (String c s +:+ t) with (String c (s +:+ t)).
  cbn [String.length]. by rewrite IH.
Qed.

Lemma append_cancel_r (s1 s2 t : string) : s1 +:+ t = s2 +:+ t → s1 = s2.
Proof.
  revert s2. induction s1 as [|c s1 IH]; intros [|c' s2] Heq.
  - done.
  - apply (f_equal String.length) in Heq.
    rewrite !append_length in Heq. cbn [String.length] in Heq. lia.
  - apply (f_equal String.length) in Heq.
    rewrite !append_length in Heq. cbn [String.length] in Heq. lia.
  - change (String c (s1 +:+ t) = String c' (s2 +:+ t)) in Heq.
    injection Heq as -> Heq. f_equal. by apply IH.
Qed.

Lemma padded_length (n : nat) :
  String.length (String.concat "" (replicate n "0")) = n.
Proof.
  induction n as [|n IH]; [done|].
  destruct n as [|n]; [done|].
  change (String.concat "" (replicate (S (S n)) "0"))
    with (String "0" (String.concat "" (replicate (S n) "0"))).
  cbn [String.length]. by rewrite IH.
Qed.

Lemma fmt_03d_length (i : nat) :
  String.length (fmt_03d i) = (String.length (pretty i) `max` 3)%nat.
Proof. unfold fmt_03d. cbn zeta. rewrite append_length, padded_length. lia. Qed.
End Formatting.

Section Parts.
Context {World Audio Embedding : Type} `{!Env World Audio Embedding}.

Local Abbreviation event := (event Audio Embedding).

Variables (file_path : string) (dn : option string) (mt aut : Q).

Local Abbreviation run cid w :=
  (process_conversation file_path cid dn mt aut w).

(** The id the conversation goes by (lines 6-7). *)
Local Abbreviation resolved_id cid w :=
  (if falsy cid then "convo_" +:+ now_strftime w else default "" cid).

(** Lines 3-19, call by call. *)
Lemma prelude_run cid (w : World) :
  let opening : list event :=
    Ev Prelude (Print (MsgProcessing file_path)) ::
    (if falsy cid then [Ev Prelude (DatetimeNow (now_strftime w))] else []) in
  let converted := convert_to_wav file_path w in
  prelude file_path cid w =
  match converted.1 with
  | inl e =>
      MkRun (inl e) converted.2
        (opening ++ [Ev Prelude (ConvertToWav file_path (inl e))])
  | inr wav =>
      let loaded := from_wav wav converted.2 in
      match loaded.1 with
      | inl e =>
          MkRun (inl e) loaded.2
            (opening ++ [Ev Prelude (ConvertToWav file_path (inr wav));
                         Ev Prelude (FromWav wav (inl e))])
      | inr audio =>
          let heard := transcribe wav loaded.2 in
          match heard.1 with
          | inl e =>
              MkRun (inl e) heard.2
                (opening ++ [Ev Prelude (ConvertToWav file_path (inr wav));
                             Ev Prelude (FromWav wav (inr audio));
                             Ev Prelude (Transcribe wav (inl e))])
          | inr data =>
              MkRun
                (inr (resolved_id cid w, wav, audio,
                      default [] (td_utterances data)))
                heard.2
                (opening ++ [Ev Prelude (ConvertToWav file_path (inr wav));
                             Ev Prelude (FromWav wav (inr audio));
                             Ev Prelude (Transcribe wav (inr data))])
          end
      end
  end.
Proof.
  cbn zeta. unfold prelude. unfold_monad.
  destruct (falsy cid); cbn [outcome final trace prepend app];
    destruct (convert_to_wav file_path w).1 as [e|wav];
    cbn [outcome final trace prepend app]; try done;
    destruct (from_wav wav _).1 as [e|audio];
    cbn [outcome final trace prepend app]; try done;
    destruct (transcribe wav _).1 as [e|data];
    cbn [outcome final trace prepend app]; done.
Qed.

Lemma prelude_id cid (w : World) cid' wav audio us :
  outcome (prelude file_path cid w) = inr (cid', wav, audio, us) →
  cid' = resolved_id cid w.
Proof.
  rewrite prelude_run. cbn zeta.
  destruct (convert_to_wav file_path w).1 as [|wav']; [done|].
  destruct (from_wav wav' _).1 as [|audio']; [done|].
  destruct (transcribe wav' _).1 as [|data]; [done|].
  cbn [outcome]. by intros [= <- _ _ _].
Qed.

(** What the prelude answers is what its three calls answered. *)
Lemma prelude_answers cid (w : World) cid' wav audio us :
  outcome (prelude file_path cid w) = inr (cid', wav, audio, us) →
  ∃ data,
    Ev Prelude (ConvertToWav file_path (inr wav)) ∈ trace (prelude file_path cid w) ∧
    Ev Prelude (FromWav wav (inr audio)) ∈ trace (prelude file_path cid w) ∧
    Ev Prelude (Transcribe wav (inr data)) ∈ trace (prelude file_path cid w) ∧
    us = default [] (td_utterances data).
Proof.
  rewrite prelude_run. cbn zeta.
  destruct (convert_to_wav file_path w).1 as [|wav']; [done|].
  destruct (from_wav wav' _).1 as [|audio']; [done|].
  destruct (transcribe wav' _).1 as [|data]; [done|].
  cbn [outcome trace]. intros [= _ <- <- <-]. exists data.
  rewrite !elem_of_app. split_and!; try done; right; find_event.
Qed.

(** A call of the prelude that raised is the last one, and the prelude
    raises what it raised. *)
Lemma prelude_raises cid (w : World) s p e :
  Ev s (ConvertToWav p (inl e)) ∈ trace (prelude file_path cid w) ∨
  Ev s (FromWav p (inl e)) ∈ trace (prelude file_path cid w) ∨
  Ev s (Transcribe p (inl e)) ∈ trace (prelude file_path cid w) →
  outcome (prelude file_path cid w) = inl e.
Proof.
  rewrite prelude_run. cbn zeta.
  destruct (falsy cid);
    destruct (convert_to_wav file_path w).1 as [|wav'];
    [|destruct (from_wav wav' _).1 as [|audio'];
      [|destruct (transcribe wav' _).1 as [|data]]| |
      destruct (from_wav wav' _).1 as [|audio'];
      [|destruct (transcribe wav' _).1 as [|data]]];
    cbn [outcome trace app];
    rewrite ?elem_of_cons, ?elem_of_nil;
    intros Hin; destruct_or?; simplify_eq; done.
Qed.

(** The calls of lines 3-19 in a run are those of the prelude. *)
Lemma run_prelude cid (w : World) :
  at_site Prelude (trace (run cid w)) = trace (prelude file_path cid w).
Proof.
  destruct (outcome (prelude file_path cid w))
    as [e|[[[cid' wav] audio] us]] eqn:Hp.
  - rewrite (run_raises_early _ _ _ _ _ _ _ Hp). cbn [trace].
    apply at_site_same, prelude_sites.
  - destruct (run_parts file_path dn mt aut _ _ _ _ _ _ Hp) as (-> & _ & _).
    rewrite !at_site_app.
    rewrite (at_site_same Prelude) by apply prelude_sites.
    rewrite at_site_attempt by (cbn; lia).
    rewrite (at_site_other _ Cleanup (trace (cleanup _ _ _)))
    by first [apply cleanup_sites | done].
    by rewrite !app_nil_r.
Qed.

(** Lines 22-128, part by part. *)
Lemma try_body_run cid audio us (w : World) :
  let info := conversation_info_for file_path cid dn audio in
  let added := add_conversation info w in
  try_body file_path cid dn mt aut audio us w =
  match added.1 with
  | inl e => MkRun (inl e) added.2 [Ev Body (AddConversation info (inl e))]
  | inr db =>
      let opening : list event :=
        [Ev Body (AddConversation info (inr db));
         Ev Body (Print (MsgAddedConversation db))] in
      let L := for_utterances cid audio db mt aut 0 us (Locals [] None) added.2 in
      match outcome L with
      | inl e => MkRun (inl e) (final L) (opening ++ trace L)
      | inr loc =>
          prepend (opening ++ trace L)
            (epilogue file_path cid mt aut audio loc (final L))
      end
  end.
Proof.
  cbn zeta. unfold try_body. unfold_monad.
  destruct (add_conversation _ w).1 as [e|db]; [done|].
  cbn [outcome final trace prepend app].
  destruct (outcome (for_utterances _ _ _ _ _ _ _ _ _)) as [e|loc];
    cbn [outcome final trace prepend app]; [done|].
  unfold prepend. cbn [outcome final trace app]. done.
Qed.

(** Lines 21-134: the handler runs when the body raised, and only then. *)
Lemma attempt_handled cid audio us (w : World) :
  let body := try_body file_path cid dn mt aut audio us w in
  attempt file_path cid dn mt aut audio us w =
  match outcome body with
  | inl e => MkRun (inr None) (final body) (trace body ++ handler_trace e)
  | inr _ => body
  end.
Proof.
  cbn zeta. unfold attempt, try_except, handler, handler_trace. unfold_monad.
  by destruct (outcome (try_body _ _ _ _ _ _ _ _)).
Qed.

Lemma try_body_sites cid audio us (w : World) :
  Forall (λ e : event, ev_site e ≠ Handler ∧ ev_site e ≠ Prelude
                       ∧ ev_site e ≠ Cleanup)
    (trace (try_body file_path cid dn mt aut audio us w)).
Proof.
  assert (∀ cid audio db us i0 loc (w : World),
    Forall (λ e : event, ev_site e ≠ Handler ∧ ev_site e ≠ Prelude
                         ∧ ev_site e ≠ Cleanup)
      (trace (for_utterances cid audio db mt aut i0 us loc w))) as Hloop.
  { intros. eapply Forall_impl; [apply loop_sites|].
    intros e (k & -> & _). done. }
  assert (∀ cid audio loc (w : World),
    Forall (λ e : event, ev_site e ≠ Handler ∧ ev_site e ≠ Prelude
                         ∧ ev_site e ≠ Cleanup)
      (trace (epilogue file_path cid mt aut audio loc w))) as Hepi.
  { intros. eapply Forall_impl; [apply epilogue_sites|]. by intros e ->. }
  rewrite try_body_run. cbn zeta.
  destruct (add_conversation _ w).1 as [e|db]; [by repeat constructor|].
  destruct (outcome (for_utterances _ _ _ _ _ _ _ _ _)) as [e|loc];
    rewrite ?trace_prepend; cbn [trace];
    rewrite ?Forall_app, ?Forall_cons; split_and!; try done;
    first [apply Hloop | apply Hepi].
Qed.

(** The calls of a run that are neither of the prelude nor of the
    [finally] block are those of the [try] statement. *)
Lemma run_at_site cid (w : World) cid' wav audio us (s : site) :
  outcome (prelude file_path cid w) = inr (cid', wav, audio, us) →
  s ≠ Prelude → s ≠ Cleanup →
  at_site s (trace (run cid w))
  = at_site s (trace (attempt file_path cid' dn mt aut audio us
                        (final (prelude file_path cid w)))).
Proof.
  intros Hp Hs Hs'.
  destruct (run_parts file_path dn mt aut _ _ _ _ _ _ Hp) as (-> & _ & _).
  rewrite !at_site_app.
  rewrite (at_site_other _ Prelude (trace (prelude _ _ _)))
    by first [apply prelude_sites | done].
  rewrite (at_site_other _ Cleanup (trace (cleanup _ _ _)))
    by first [apply cleanup_sites | done].
  by rewrite app_nil_r.
Qed.

(** Line 29 in a run: the one call to [add_conversation]. *)
Lemma run_body cid (w : World) cid' wav audio us :
  outcome (prelude file_path cid w) = inr (cid', wav, audio, us) →
  let info := conversation_info_for file_path cid' dn audio in
  let added := add_conversation info (final (prelude file_path cid w)) in
  at_site Body (trace (run cid w)) =
  Ev Body (AddConversation info added.1) ::
  match added.1 with
  | inl _ => []
  | inr db => [Ev Body (Print (MsgAddedConversation db))]
  end.
Proof.
  intros Hp. cbn zeta. rewrite (run_at_site _ _ _ _ _ _ _ Hp) by done.
  rewrite attempt_run. cbn zeta.
  destruct (add_conversation _ _).1 as [e|db].
  { cbn [trace]. by rewrite at_site_cons_eq, (at_site_other _ Handler)
      by first [apply handler_sites | done]. }
  destruct (outcome (for_utterances _ _ _ _ _ _ _ _ _)) as [e|loc];
    [|destruct (outcome (epilogue _ _ _ _ _ _ _)) as [e|v]];
    cbn [trace app];
    rewrite !at_site_cons_eq by done; rewrite !at_site_app;
    rewrite ?(at_site_loop mt aut Body) by done;
    rewrite ?(at_site_other _ Handler (handler_trace _))
      by first [apply handler_sites | done];
    rewrite ?(at_site_other _ Epilogue (trace (epilogue _ _ _ _ _ _ _)))
      by first [apply epilogue_sites | done];
    done.
Qed.

(** Lines 112-118 in a run: what the consolidation pass is handed. *)
Lemma run_consolidation_call cid (w : World) cid' wav audio us s md c fa t1 t2 a :
  outcome (prelude file_path cid w) = inr (cid', wav, audio, us) →
  Ev s (IdentifyUnknown md c fa t1 t2 a) ∈ trace (run cid w) →
  s = Epilogue ∧ c = cid' ∧ fa = audio ∧ t1 = mt ∧ t2 = aut.
Proof.
  intros Hp Hin.
  assert (s = Epilogue) as ->.
  { eapply Forall_forall in Hin; [|apply run_proper]. exact Hin. }
  split; [done|].
  apply (at_site_elem Epilogue) in Hin; [|done].
  pose proof (run_loop file_path dn mt aut _ _ _ _ _ _ Hp) as HL.
  cbn zeta in HL.
  destruct (add_conversation _ _).1 as [e|db].
  { destruct HL as (_ & HE & _). rewrite HE in Hin. by apply elem_of_nil in Hin. }
  destruct HL as (_ & HL).
  destruct (outcome (for_utterances _ _ _ _ _ _ _ _ _)) as [e|loc].
  { destruct HL as (HE & _). rewrite HE in Hin. by apply elem_of_nil in Hin. }
  destruct HL as (HE & _). rewrite HE, epilogue_run in Hin. cbn zeta in Hin.
  destruct (identify_unknown_speakers_by_combining _ _ _ _ _ _).1;
    [|destruct (s3_path loc)]; cbn [trace] in Hin;
    rewrite ?elem_of_cons, ?elem_of_nil in Hin; destruct_or?; by simplify_eq.
Qed.

(** X1.  The conversation goes by the id given, or, when none is given
    (or an empty one), by ["convo_"] and the time of the call (lines 6-7);
    every later use is of that one id: [add_conversation],
    [test_voice_segment] and the consolidation pass are handed it, the
    clip paths are built from it, and the result carries it. *)
Theorem conversation_id_resolved cid (w : World) :
  let r := process_conversation file_path cid dn mt aut w in
  let id := if falsy cid then "convo_" +:+ now_strftime w else default "" cid in
  (∀ s info a,
     Ev s (AddConversation info a) ∈ trace r → ci_conversation_id info = id) ∧
  (∀ s seg c i thr a,
     Ev s (TestVoiceSegment seg c i thr a) ∈ trace r → c = id) ∧
  (∀ s md c fa t1 t2 a,
     Ev s (IdentifyUnknown md c fa t1 t2 a) ∈ trace r → c = id) ∧
  (∀ s info a,
     Ev s (AddUtterance info a) ∈ trace r →
     ∃ i, info !! "audio_file" = Some (PyStr (utterance_wav_path id i))) ∧
  (∀ res, outcome r = inr (Some res) → r_conversation_id res = id).
Proof.
  cbn zeta.
  destruct (outcome (prelude file_path cid w))
    as [e|[[[cid' wav] audio] us]] eqn:Hp.
  { rewrite (run_raises_early _ _ _ _ _ _ _ Hp). cbn [outcome trace].
    assert (∀ ev : event, ev ∈ trace (prelude file_path cid w) →
              proper ev ∧ ev_site ev = Prelude) as Hsites.
    { intros ev Hev. split.
      - eapply Forall_forall in Hev; [|apply prelude_proper]. exact Hev.
      - eapply Forall_forall in Hev; [|apply prelude_sites]. exact Hev. }
    split_and!; try done; intros; exfalso;
      match goal with
      | H : _ ∈ trace _ |- _ => apply Hsites in H as [Hpr Hs]
      end; cbn in Hpr, Hs; subst; try done; by destruct Hpr. }
  rewrite <-(prelude_id _ _ _ _ _ _ Hp).
  split_and!.
  - intros s info a Hin.
    assert (s = Body) as ->.
    { eapply Forall_forall in Hin; [|apply run_proper]. exact Hin. }
    apply (at_site_elem Body) in Hin; [|done].
    rewrite (run_body _ _ _ _ _ _ Hp) in Hin. cbn zeta in Hin.
    destruct (add_conversation _ _).1;
      rewrite ?elem_of_cons, ?elem_of_nil in Hin; destruct_or?; by simplify_eq.
  - intros s seg c i thr a Hin.
    assert (s = Iter i) as ->.
    { eapply Forall_forall in Hin; [|apply run_proper]. exact Hin. }
    opose proof* (run_iteration file_path dn mt aut) as Hit;
      [exact Hp|exact Hin|reflexivity|].
    destruct Hit as (db & u & l & wk & _ & _ & _ & Heq).
    apply (at_site_elem (Iter i)) in Hin; [|done]. rewrite Heq in Hin.
    by apply iteration_matching_call in Hin as (_ & _ & -> & _).
  - intros s md c fa t1 t2 a Hin.
    by apply (run_consolidation_call _ _ _ _ _ _ _ _ _ _ _ _ _ Hp) in Hin
      as (_ & -> & _).
  - intros s info a Hin.
    assert (∃ i, s = Iter i) as [i ->].
    { eapply Forall_forall in Hin; [|apply run_proper]. exact Hin. }
    exists i.
    opose proof* (run_iteration file_path dn mt aut) as Hit;
      [exact Hp|exact Hin|reflexivity|].
    destruct Hit as (db & u & l & wk & _ & _ & _ & Heq).
    apply (at_site_elem (Iter i)) in Hin; [|done]. rewrite Heq in Hin.
    by apply iteration_add_utterance in Hin as (_ & ? & _).
  - intros res Hr.
    opose proof* (run_success file_path dn mt aut) as Hs; [exact Hp|exact Hr|].
    by destruct Hs as (_ & _ & _ & _ & _ & _ & ? & _).
Qed.

(** X2.  Lines 10-19 are outside the [try]: when [convert_to_wav],
    [AudioSegment.from_wav] or [transcribe] raises, [process_conversation]
    raises that exception instead of returning [None]; nothing after the
    prelude runs, so [os.remove] is not called and a file that
    [convert_to_wav] made stays. *)
Theorem early_failure_propagates cid (w : World) s p e :
  let r := process_conversation file_path cid dn mt aut w in
  Ev s (ConvertToWav p (inl e)) ∈ trace r ∨
  Ev s (FromWav p (inl e)) ∈ trace r ∨
  Ev s (Transcribe p (inl e)) ∈ trace r →
  outcome r = inl e ∧
  (∀ ev, ev ∈ trace r → ev_site ev = Prelude) ∧
  (∀ s' p' a, Ev s' (OsRemove p' a) ∉ trace r).
Proof.
  cbn zeta. intros Hin.
  assert (outcome (prelude file_path cid w) = inl e) as Hp.
  { apply (prelude_raises _ _ s p). rewrite <-run_prelude.
    assert (s = Prelude) as ->.
    { destruct_or!;
        (eapply Forall_forall in Hin; [|apply run_proper]); exact Hin. }
    destruct_or!; [left|right; left|right; right];
      by apply list_elem_of_filter. }
  rewrite (run_raises_early _ _ _ _ _ _ _ Hp). cbn [outcome trace].
  assert (∀ ev : event, ev ∈ trace (prelude file_path cid w) →
            ev_site ev = Prelude) as Hsites.
  { intros ev Hev. eapply Forall_forall in Hev; [|apply prelude_sites].
    exact Hev. }
  split_and!; [done|exact Hsites|].
  intros s' p' a Hr. pose proof (Hsites _ Hr) as Hs. cbn in Hs. subst s'.
  eapply Forall_forall in Hr; [|apply prelude_proper]. done.
Qed.

(** X3.  Once the prelude is through, [add_conversation] is the first
    call of the [try] block and is made exactly once, with the id of the
    conversation, the base name of the input file, the length of the audio
    in seconds, as the float division of line 26 gives it, and the display
    name given (lines 23-29). *)
Theorem conversation_registered_once cid (w : World) cid' wav audio us :
  outcome (prelude file_path cid w) = inr (cid', wav, audio, us) →
  let r := process_conversation file_path cid dn mt aut w in
  let info :=
    ConversationInfo cid' (basename file_path)
      (truediv_1000 (audio_len audio)) dn in
  ∃ a rest,
    trace r
    = trace (prelude file_path cid w) ++ Ev Body (AddConversation info a) :: rest ∧
    ∀ s info' a', Ev s (AddConversation info' a') ∉ rest.
Proof.
  intros Hp. cbn zeta.
  pose proof (run_body _ _ _ _ _ _ Hp) as Hbody. cbn zeta in Hbody.
  destruct (run_parts file_path dn mt aut _ _ _ _ _ _ Hp) as (Ht & _ & _).
  rewrite Ht in Hbody |- *. clear Ht.
  assert (∃ a rest,
    trace (attempt file_path cid' dn mt aut audio us
             (final (prelude file_path cid w)))
    = Ev Body (AddConversation (conversation_info_for file_path cid' dn audio)
                 a) :: rest) as (a & rest & Ha).
  { rewrite attempt_run. cbn zeta.
    destruct (add_conversation _ _).1 as [e|db]; [by eexists _, _|].
    destruct (outcome (for_utterances _ _ _ _ _ _ _ _ _)) as [e|loc];
      [|destruct (outcome (epilogue _ _ _ _ _ _ _)) as [e|v]];
      by eexists _, _. }
  rewrite Ha in Hbody |- *.
  exists a, (rest ++ trace (cleanup file_path wav
                             (final (attempt file_path cid' dn mt aut audio us
                                       (final (prelude file_path cid w)))))).
  split; [done|].
  intros s info' a' Hin.
  rewrite !at_site_app in Hbody.
  rewrite (at_site_other _ Prelude (trace (prelude _ _ _))) in Hbody
    by first [apply prelude_sites | done].
  cbn [app] in Hbody. rewrite at_site_cons_eq in Hbody by done.
  cbn [app] in Hbody. rewrite <-at_site_app in Hbody.
  assert (s = Body) as ->.
  { assert (Forall proper
              (rest ++ trace (cleanup file_path wav
                               (final (attempt file_path cid' dn mt aut
                                         audio us
                                         (final (prelude file_path cid w)))))))
      as Hproper.
    { apply Forall_app. split; [|apply cleanup_proper].
      pose proof (attempt_proper file_path dn mt aut cid' audio us
                    (final (prelude file_path cid w))) as Hall.
      rewrite Ha in Hall. by apply Forall_cons in Hall as [_ ?]. }
    eapply Forall_forall in Hproper; [|exact Hin]. exact Hproper. }
  apply (at_site_elem Body) in Hin; [|done].
  apply (f_equal tail) in Hbody. cbn [tail] in Hbody. rewrite Hbody in Hin.
  destruct (add_conversation _ _).1;
    rewrite ?elem_of_cons, ?elem_of_nil in Hin; destruct_or?; by simplify_eq.
Qed.

(** X4.  When [add_conversation] raises, the conversation is given up at
    once: no utterance is looked at, the consolidation pass is not run, the
    handler reports the exception and no result is returned. *)
Theorem registration_failure_skips_all cid (w : World) s info e :
  let r := process_conversation file_path cid dn mt aut w in
  Ev s (AddConversation info (inl e)) ∈ trace r →
  (∀ i, at_site (Iter i) (trace r) = []) ∧
  at_site Epilogue (trace r) = [] ∧
  at_site Handler (trace r) = handler_trace e ∧
  ∀ res, outcome r ≠ inr (Some res).
Proof.
  cbn zeta. intros Hin.
  assert (s = Body) as ->.
  { eapply Forall_forall in Hin; [|apply run_proper]. exact Hin. }
  destruct (outcome (prelude file_path cid w))
    as [e'|[[[cid' wav] audio] us]] eqn:Hp.
  { exfalso. rewrite (run_raises_early _ _ _ _ _ _ _ Hp) in Hin. cbn [trace] in Hin.
    eapply Forall_forall in Hin; [|apply prelude_sites]. done. }
  apply (at_site_elem Body) in Hin; [|done].
  rewrite (run_body _ _ _ _ _ _ Hp) in Hin. cbn zeta in Hin.
  pose proof (run_loop file_path dn mt aut _ _ _ _ _ _ Hp) as HL.
  cbn zeta in HL.
  pose proof (run_at_site _ _ _ _ _ _ Handler Hp) as HH.
  rewrite attempt_run in HH. cbn zeta in HH.
  destruct (add_conversation _ _).1 as [e'|db] eqn:Hadd.
  - rewrite ?elem_of_cons, ?elem_of_nil in Hin. destruct_or?; simplify_eq.
    destruct HL as (? & ? & ?). split_and!; try done.
    rewrite HH by done. cbn [trace].
    rewrite at_site_cons_ne by done. apply at_site_same, handler_sites.
  - rewrite ?elem_of_cons, ?elem_of_nil in Hin. destruct_or?; simplify_eq.
Qed.

(** Lines 130-133 in a run: what the handler prints. *)
Lemma run_handler cid (w : World) cid' wav audio us :
  outcome (prelude file_path cid w) = inr (cid', wav, audio, us) →
  at_site Handler (trace (run cid w))
  = match outcome (try_body file_path cid' dn mt aut audio us
                     (final (prelude file_path cid w))) with
    | inl e => handler_trace e
    | inr _ => []
    end.
Proof.
  intros Hp. rewrite (run_at_site _ _ _ _ _ _ _ Hp) by done.
  rewrite attempt_handled. cbn zeta.
  assert (at_site Handler
            (trace (try_body file_path cid' dn mt aut audio us
                      (final (prelude file_path cid w)))) = []) as Hnone.
  { apply filter_none. eapply Forall_impl; [apply try_body_sites|].
    by intros ev (? & _). }
  destruct (outcome (try_body _ _ _ _ _ _ _ _)) as [e|v]; [|done].
  cbn [trace]. rewrite at_site_app, Hnone. cbn [app].
  apply at_site_same, handler_sites.
Qed.

(** X5.  Whatever the [try] block raises is reported, and nothing is
    reported otherwise: the handler prints the exception and its traceback
    when, and only when, the body of the [try] raised (lines 130-133). *)
Theorem errors_reported cid (w : World) cid' wav audio us :
  outcome (prelude file_path cid w) = inr (cid', wav, audio, us) →
  let r := process_conversation file_path cid dn mt aut w in
  let body :=
    try_body file_path cid' dn mt aut audio us
      (final (prelude file_path cid w)) in
  at_site Handler (trace r)
  = match outcome body with
    | inl e =>
        [Ev Handler (Print (MsgError e)); Ev Handler (Print (MsgTraceback e))]
    | inr _ => []
    end.
Proof. intros Hp. exact (run_handler _ _ _ _ _ _ Hp). Qed.

(** The calls of lines 135-139 in a run are those of the [finally] block. *)
Lemma run_cleanup cid (w : World) cid' wav audio us :
  outcome (prelude file_path cid w) = inr (cid', wav, audio, us) →
  at_site Cleanup (trace (run cid w))
  = trace (cleanup file_path wav
             (final (attempt file_path cid' dn mt aut audio us
                       (final (prelude file_path cid w))))).
Proof.
  intros Hp.
  destruct (run_parts file_path dn mt aut _ _ _ _ _ _ Hp) as (-> & _ & _).
  rewrite !at_site_app.
  rewrite (at_site_other _ Prelude (trace (prelude _ _ _)))
    by first [apply prelude_sites | done].
  rewrite at_site_attempt by (cbn; lia).
  cbn [app]. apply at_site_same, cleanup_sites.
Qed.

(** X6.  Once the prelude is through, the [finally] block runs whatever
    the [try] statement did: the existence of the converted file is
    looked up exactly when its path is not the input path, [os.remove] is
    attempted exactly when, besides, the file exists at that moment, and
    the removal is reported exactly when [os.remove] answered. *)
Theorem cleanup_decision cid (w : World) cid' wav audio us :
  outcome (prelude file_path cid w) = inr (cid', wav, audio, us) →
  let r := process_conversation file_path cid dn mt aut w in
  let after :=
    final (attempt file_path cid' dn mt aut audio us
             (final (prelude file_path cid w))) in
  ((∃ s p b, Ev s (PathExists p b) ∈ trace r) ↔ wav ≠ file_path) ∧
  ((∃ s p a, Ev s (OsRemove p a) ∈ trace r)
   ↔ wav ≠ file_path ∧ path_exists wav after = true) ∧
  ((∃ p, Ev Cleanup (Print (MsgRemoved p)) ∈ trace r)
   ↔ Ev Cleanup (OsRemove wav (inr tt)) ∈ trace r).
Proof.
  intros Hp. cbn zeta.
  assert (∀ ev : event, ev_site ev = Cleanup →
    ev ∈ trace (run cid w)
    ↔ ev ∈ trace (cleanup file_path wav
                    (final (attempt file_path cid' dn mt aut audio us
                              (final (prelude file_path cid w)))))) as Hiff.
  { intros ev Hs. rewrite <-(run_cleanup _ _ _ _ _ _ Hp).
    by apply at_site_elem. }
  assert (∀ s p b, Ev s (PathExists p b) ∈ trace (run cid w) → s = Cleanup)
    as Hlooked.
  { intros s p b Hin.
    eapply Forall_forall in Hin; [|apply run_proper]. exact Hin. }
  assert (∀ s p a, Ev s (OsRemove p a) ∈ trace (run cid w) → s = Cleanup)
    as Hremoved.
  { intros s p a Hin.
    eapply Forall_forall in Hin; [|apply run_proper]. exact Hin. }
  split_and!.
  - split.
    + intros (s & p & b & Hin). pose proof (Hlooked _ _ _ Hin) as ->.
      apply Hiff in Hin; [|done]. rewrite cleanup_run in Hin.
      case_bool_decide; [done|]. by apply elem_of_nil in Hin.
    + intros Hne. exists Cleanup, wav.
      exists (path_exists wav
                (final (attempt file_path cid' dn mt aut audio us
                          (final (prelude file_path cid w))))).
      apply Hiff; [done|]. rewrite cleanup_run.
      rewrite bool_decide_eq_true_2 by done.
      destruct (path_exists wav _); [|find_event].
      destruct (os_remove wav _).1; find_event.
  - split.
    + intros (s & p & a & Hin). pose proof (Hremoved _ _ _ Hin) as ->.
      apply Hiff in Hin; [|done]. rewrite cleanup_run in Hin.
      case_bool_decide; [|by apply elem_of_nil in Hin].
      destruct (path_exists wav _); [done|].
      cbn [trace] in Hin; rewrite ?elem_of_cons, ?elem_of_nil in Hin.
      destruct_or?; by simplify_eq.
    + intros [Hne Hex]. exists Cleanup, wav.
      exists (os_remove wav
                (final (attempt file_path cid' dn mt aut audio us
                          (final (prelude file_path cid w))))).1.
      apply Hiff; [done|]. rewrite cleanup_run.
      rewrite bool_decide_eq_true_2 by done. rewrite Hex.
      destruct (os_remove wav _).1 as [|[]]; find_event.
  - rewrite (Hiff (Ev Cleanup (OsRemove wav (inr tt)))) by done.
    split.
    + intros [p Hin]. apply Hiff in Hin; [|done].
      rewrite cleanup_run in Hin |- *.
      case_bool_decide; [|by apply elem_of_nil in Hin].
      destruct (path_exists wav _);
        [|cbn [trace] in Hin; rewrite ?elem_of_cons, ?elem_of_nil in Hin; destruct_or?;
          by simplify_eq].
      destruct (os_remove wav _).1 as [|[]]; [|find_event].
      cbn [trace] in Hin; rewrite ?elem_of_cons, ?elem_of_nil in Hin.
      destruct_or?; by simplify_eq.
    + intros Hin. exists wav. apply Hiff; [done|].
      rewrite cleanup_run in Hin |- *.
      case_bool_decide; [|by apply elem_of_nil in Hin].
      destruct (path_exists wav _);
        [|cbn [trace] in Hin; rewrite ?elem_of_cons, ?elem_of_nil in Hin; destruct_or?;
          by simplify_eq].
      destruct (os_remove wav _).1 as [|[]]; [|find_event].
      cbn [trace] in Hin; rewrite ?elem_of_cons, ?elem_of_nil in Hin.
      destruct_or?; by simplify_eq.
Qed.

(** X7.  An exception of [os.remove] in the [finally] block is not caught:
    [process_conversation] raises it, whatever the [try] statement had
    come to, and the removal is not reported. *)
Theorem removal_failure_propagates cid (w : World) s p e :
  let r := process_conversation file_path cid dn mt aut w in
  Ev s (OsRemove p (inl e)) ∈ trace r →
  outcome r = inl e ∧ ∀ p', Ev Cleanup (Print (MsgRemoved p')) ∉ trace r.
Proof.
  cbn zeta. intros Hin.
  assert (s = Cleanup) as ->.
  { eapply Forall_forall in Hin; [|apply run_proper]. exact Hin. }
  destruct (outcome (prelude file_path cid w))
    as [e'|[[[cid' wav] audio] us]] eqn:Hp.
  { exfalso. rewrite (run_raises_early _ _ _ _ _ _ _ Hp) in Hin.
    cbn [trace] in Hin.
    eapply Forall_forall in Hin; [|apply prelude_sites]. done. }
  assert (∀ ev : event, ev_site ev = Cleanup →
    ev ∈ trace (run cid w)
    ↔ ev ∈ trace (cleanup file_path wav
                    (final (attempt file_path cid' dn mt aut audio us
                              (final (prelude file_path cid w)))))) as Hiff.
  { intros ev Hs. rewrite <-(run_cleanup _ _ _ _ _ _ Hp).
    by apply at_site_elem. }
  destruct (run_parts file_path dn mt aut _ _ _ _ _ _ Hp) as (_ & -> & _).
  apply Hiff in Hin; [|done].
  assert (outcome (cleanup file_path wav
                     (final (attempt file_path cid' dn mt aut audio us
                               (final (prelude file_path cid w))))) = inl e
          ∧ ∀ p', Ev Cleanup (Print (MsgRemoved p'))
                    ∉ trace (cleanup file_path wav
                               (final (attempt file_path cid' dn mt aut audio
                                         us (final (prelude file_path cid w))))))
    as [-> Hquiet].
  { rewrite cleanup_run in Hin |- *.
    case_bool_decide; [|by apply elem_of_nil in Hin].
    destruct (path_exists wav _);
      [|cbn [trace] in Hin; rewrite ?elem_of_cons, ?elem_of_nil in Hin; destruct_or?;
        by simplify_eq].
    destruct (os_remove wav _).1 as [e'|[]];
      cbn [trace] in Hin; rewrite ?elem_of_cons, ?elem_of_nil in Hin; destruct_or?; simplify_eq.
    split; [done|]. intros p'. cbn [trace].
    rewrite ?elem_of_cons, ?elem_of_nil. intros ?; destruct_or?; simplify_eq. }
  split; [done|]. intros p' Hr. apply Hiff in Hr; [|done]. by eapply Hquiet.
Qed.

(** X8.  The result returned is put together after the consolidation
    pass: its utterances are the list that pass answered, as it answered
    it, the count reported is the length of that list, the file name is
    the base name of the input path and the time stamp is read from the
    clock last; the handler has printed nothing. *)
Theorem result_from_consolidation cid (w : World) cid' wav audio us res :
  outcome (prelude file_path cid w) = inr (cid', wav, audio, us) →
  let r := process_conversation file_path cid dn mt aut w in
  outcome r = inr (Some res) →
  ∃ md,
    at_site Epilogue (trace r)
    = [Ev Epilogue
         (IdentifyUnknown md cid' audio mt aut (inr (r_utterances res)));
       Ev Epilogue (Print (MsgSuccess (length (r_utterances res)) cid'));
       Ev Epilogue (DatetimeNow (r_timestamp res))] ∧
    r_original_file res = basename file_path ∧
    at_site Handler (trace r) = [].
Proof.
  intros Hp. cbn zeta. intros Hr.
  pose proof (run_loop file_path dn mt aut _ _ _ _ _ _ Hp) as HL.
  cbn zeta in HL.
  pose proof (run_at_site _ _ _ _ _ _ Handler Hp) as HH.
  rewrite attempt_run in HH. cbn zeta in HH.
  destruct (add_conversation _ _).1 as [e|db].
  { destruct HL as (_ & _ & HL). by destruct (HL res). }
  destruct HL as (_ & HL).
  destruct (outcome (for_utterances _ _ _ _ _ _ _ _ _)) as [e|loc].
  { destruct HL as (_ & HL). by destruct (HL res). }
  destruct HL as (HE & HL). specialize (HL _ Hr).
  rewrite HE. rewrite HL in HH. rewrite HH by done.
  rewrite epilogue_run in HL |- *. cbn zeta in HL |- *.
  exists (utterance_metadata loc).
  destruct (identify_unknown_speakers_by_combining _ _ _ _ _ _).1 as [|md];
    [done|].
  destruct (s3_path loc); [|done]. cbn [outcome trace] in HL |- *.
  injection HL as <-. cbn [r_utterances r_timestamp r_original_file].
  split_and!; [done|done|].
  cbn [app]. rewrite !at_site_cons_ne by done. rewrite !at_site_app.
  rewrite (at_site_loop mt aut Handler) by done.
  rewrite !at_site_cons_ne by done. done.
Qed.
End Parts.

Section Rows.
Context {World Audio Embedding : Type} `{!Env World Audio Embedding}.

Local Abbreviation event := (event Audio Embedding).

Lemma utterance_info_dom uid s e text conf eid path sid name db words :
  dom (utterance_info uid s e text conf eid path sid name db words) = row_keys.
Proof.
  unfold utterance_info, row_keys. cbn [list_to_map foldr uncurry].
  rewrite !dom_insert_L, dom_empty_L. set_solver.
Qed.

(** The row stored for an utterance and the record kept for it say the
    same, key by key. *)
Lemma utterance_info_data uid i s e text conf eid path sid name db words k :
  k ∈ record_keys → k ≠ "id" →
  utterance_info uid s e text conf eid path sid name db words !! k
  = utterance_data i s e text conf name eid words db !! k.
Proof.
  unfold record_keys. rewrite !elem_of_union, !elem_of_singleton.
  unfold utterance_info, utterance_data. cbn [list_to_map foldr uncurry].
  intros Hk Hid. destruct_or!; subst; try done; by simplify_map_eq.
Qed.

Lemma utterance_info_more uid s e text conf eid path sid name db words :
  let d := utterance_info uid s e text conf eid path sid name db words in
  d !! "utterance_id" = Some (PyStr ("utterance_" +:+ uid)) ∧
  d !! "speaker_id" = Some sid ∧
  d !! "id" = None.
Proof.
  unfold utterance_info. cbn [list_to_map foldr uncurry].
  split_and!; by simplify_map_eq.
Qed.

Lemma resolve_speaker_named (u : dict) name0 confidence0 name confidence :
  resolve_speaker u name0 confidence0 = inr (name, confidence) → name ≠ "".
Proof.
  unfold resolve_speaker. destruct (falsy name0) eqn:Hf.
  - destruct (getitem u "speaker"); [done|]. by intros [= <- _].
  - destruct name0 as [s|]; [|done]. cbn in Hf.
    apply bool_decide_eq_false in Hf. by intros [= <- _].
Qed.

Lemma filtered_not_survives (u : dict) : filtered u → survives u → False.
Proof.
  intros [Hw|Hs] Hsurv; [|by eapply short_not_survives].
  destruct Hsurv as [[? Hw'] _]. congruence.
Qed.

Variables (cid : string) (audio : Audio) (db : pyval) (mt aut : Q).

Local Abbreviation iteration := (process_utterance cid audio db mt aut).

(** Lines 95-109: the row, and where its fields come from. *)
Lemma iteration_row i u loc (w : World) s info a :
  Ev s (AddUtterance info a) ∈ trace (iteration i u loc w) →
  ∃ start_ms end_ms text words name0 confidence0 embedding_id embedding
    name confidence speaker_id uid,
    span u = inr (start_ms, end_ms) ∧
    u !! "text" = Some text ∧
    u !! "words" = Some words ∧
    (test_voice_segment (audio_slice audio start_ms end_ms) cid i mt w).1
      = inr (name0, confidence0, embedding_id, embedding) ∧
    resolve_speaker u name0 confidence0 = inr (name, confidence) ∧
    Ev (Iter i) (AddSpeaker name (inr speaker_id)) ∈ trace (iteration i u loc w) ∧
    Ev (Iter i) (Uuid4 uid) ∈ trace (iteration i u loc w) ∧
    info = utterance_info uid start_ms end_ms text confidence embedding_id
             (utterance_wav_path cid i) speaker_id name db words ∧
    ∀ loc', outcome (iteration i u loc w) = inr loc' →
      utterance_metadata loc'
      = utterance_metadata loc
        ++ [utterance_data i start_ms end_ms text confidence name
              embedding_id words db].
Proof.
  unfold_iteration; rewrite ?elem_of_app, ?elem_of_cons, ?elem_of_nil;
    intros Hin; destruct_or?; simplify_eq; try done.
  all: know_utterance.
  all: eexists _, _, _, _, _, _, _, _, _, _, _, _; split_and!; try done;
    try find_event;
    try (by match goal with
            | H : test_voice_segment _ _ _ _ _ = _ |- _ => rewrite H
            end);
    try (by intros ? [= <-]).
Qed.

(** Lines 80-91: the call that enrolls, and the calls before it. *)
Lemma iteration_enrollment_call i u loc (w : World) s e nm src c t a :
  Ev s (AutoUpdateEmbedding e nm src c t a) ∈ trace (iteration i u loc w) →
  ∃ seg name0 confidence0 embedding_id speaker_id,
    Ev (Iter i)
      (TestVoiceSegment seg cid i mt
         (inr (name0, confidence0, embedding_id, Some e)))
      ∈ trace (iteration i u loc w) ∧
    resolve_speaker u name0 confidence0 = inr (nm, c) ∧
    Ev (Iter i) (AddSpeaker nm (inr speaker_id)) ∈ trace (iteration i u loc w).
Proof.
  unfold_iteration; rewrite ?elem_of_app, ?elem_of_cons, ?elem_of_nil;
    intros Hin; destruct_or?; simplify_eq; try done.
  all: eexists _, _, _, _, _; split_and!; [find_event|eassumption|find_event].
Qed.

(** Line 61: the name [add_speaker] is called with. *)
Lemma iteration_speaker i u loc (w : World) s name a :
  Ev s (AddSpeaker name a) ∈ trace (iteration i u loc w) →
  ∃ start_ms end_ms name0 confidence0 embedding_id embedding confidence,
    span u = inr (start_ms, end_ms) ∧
    (test_voice_segment (audio_slice audio start_ms end_ms) cid i mt w).1
      = inr (name0, confidence0, embedding_id, embedding) ∧
    resolve_speaker u name0 confidence0 = inr (name, confidence).
Proof.
  unfold_iteration; rewrite ?elem_of_app, ?elem_of_cons, ?elem_of_nil;
    intros Hin; destruct_or?; simplify_eq; try done.
  all: know_utterance.
  all: match goal with
       | H : test_voice_segment _ _ _ _ _ = (inr (?n0, ?c0, ?eid, ?emb), _)
         |- _ =>
           eexists _, _, n0, c0, eid, emb, _; split_and!;
             [eassumption|by rewrite H|eassumption]
       end.
Qed.

Lemma span_parts (u : dict) start_ms end_ms :
  span u = inr (start_ms, end_ms) →
  ∃ start end_,
    getitem u "start" = inr start ∧ py_int int_of_str start = inr start_ms ∧
    getitem u "end" = inr end_ ∧ py_int int_of_str end_ = inr end_ms.
Proof.
  unfold span.
  destruct (getitem u "start") as [|start]; [done|].
  destruct (py_int int_of_str start) as [|s] eqn:Hs; [done|].
  destruct (getitem u "end") as [|end_]; [done|].
  destruct (py_int int_of_str end_) as [|e] eqn:He; [done|].
  intros [= <- <-]. by exists start, end_.
Qed.

(** Line 45: what is printed for an utterance under 700 ms. *)
Lemma iteration_short_run i u loc (w : World) start_ms end_ms :
  is_Some (u !! "words") →
  span u = inr (start_ms, end_ms) → end_ms - start_ms < 700 →
  iteration i u loc w
  = MkRun (inr loc) w [Ev (Iter i) (Print (MsgSkippingShort (end_ms - start_ms)))].
Proof.
  intros [ws Hw] (start & end_ & Hs & Hs' & He & He')%span_parts Hshort.
  unfold process_utterance.
  rewrite bool_decide_eq_false_2 by congruence.
  unfold_monad. rewrite Hs. cbn [outcome final trace prepend app].
  rewrite Hs'. cbn [outcome final trace prepend app].
  rewrite He. cbn [outcome final trace prepend app].
  rewrite He'. cbn [outcome final trace prepend app].
  rewrite bool_decide_eq_true_2 by done. done.
Qed.
End Rows.

Section LoopMore.
Context {World Audio Embedding : Type} `{!Env World Audio Embedding}.

Local Abbreviation event := (event Audio Embedding).

Variables (cid : string) (audio : Audio) (db : pyval) (mt aut : Q).

Local Abbreviation iteration := (process_utterance cid audio db mt aut).
Local Abbreviation loop := (for_utterances cid audio db mt aut).
Local Abbreviation iters := (iterations cid audio db mt aut).

Lemma loop_nil i0 loc (w : World) : loop i0 [] loc w = MkRun (inr loc) w [].
Proof. reflexivity. Qed.

(** Line 94 is run by every utterance the guards let through: after the
    loop, [s3_path] is the clip of the last of them. *)
Lemma loop_last_clip us i0 loc (w : World) loc' :
  outcome (loop i0 us loc w) = inr loc' →
  (s3_path loc' = s3_path loc ∧ Forall filtered us) ∨
  (∃ j u, us !! j = Some u ∧ survives u ∧
     s3_path loc' = Some (utterance_wav_path cid (i0 + j)) ∧
     ∀ k u', (j < k)%nat → us !! k = Some u' → filtered u').
Proof.
  revert i0 loc w. induction us as [|u rest IH]; intros i0 loc w.
  { rewrite loop_nil. intros [= <-]. by left. }
  rewrite loop_cons.
  destruct (outcome (iteration i0 u loc w)) as [e|loc1] eqn:Hit; [done|].
  rewrite outcome_prepend. intros HL.
  apply IH in HL as [[Hsame Hall]|(j & u' & Hj & Hsurv & Hpath & Hlater)].
  - apply iteration_returns in Hit as [(-> & Hf & _)|(Hsurv & d & -> & _)].
    + left. split; [done|by constructor].
    + right. exists 0%nat, u. rewrite Nat.add_0_r. split_and!; try done.
      intros [|k] u' Hk Hu'; [lia|]. cbn in Hu'.
      by eapply Forall_lookup_1 in Hall.
  - right. exists (S j), u'. split_and!; try done.
    + by rewrite Nat.add_succ_r.
    + intros [|k] u'' Hk Hu''; [lia|]. cbn in Hu''.
      eapply Hlater; [|done]. lia.
Qed.

(** The records of the list, by index: one for each utterance the guards
    let through, in the order of the utterances. *)
Lemma loop_ids us i0 loc (w : World) loc' :
  outcome (loop i0 us loc w) = inr loc' →
  ∃ ds ks,
    utterance_metadata loc' = utterance_metadata loc ++ ds ∧
    Forall2 (λ d k, d !! "id" = Some (PyInt (Z.of_nat k))) ds ks ∧
    StronglySorted lt ks ∧
    ∀ k, k ∈ ks ↔ ∃ j u, k = (i0 + j)%nat ∧ us !! j = Some u ∧ survives u.
Proof.
  revert i0 loc w. induction us as [|u rest IH]; intros i0 loc w.
  { rewrite loop_nil. intros [= <-]. exists [], [].
    rewrite app_nil_r. split_and!; try done; [constructor|].
    intros k. rewrite elem_of_nil. split; [done|].
    by intros (j & u & _ & Hu & _). }
  rewrite loop_cons.
  destruct (outcome (iteration i0 u loc w)) as [e|loc1] eqn:Hit; [done|].
  rewrite outcome_prepend. intros HL.
  apply IH in HL as (ds & ks & Hmeta & Hids & Hsorted & Hks).
  apply iteration_returns in Hit as [(-> & Hf & _)|(Hsurv & d & -> & Hst)].
  - exists ds, ks. split_and!; try done.
    intros k. rewrite Hks. split.
    + intros (j & u' & -> & Hj & Hs). exists (S j), u'.
      split_and!; [lia|done|done].
    + intros ([|j] & u' & -> & Hj & Hs).
      * cbn in Hj. simplify_eq. by destruct (filtered_not_survives u').
      * exists j, u'. split_and!; [lia|done|done].
  - cbn [utterance_metadata] in Hmeta. rewrite <-app_assoc in Hmeta.
    exists (d :: ds), (i0 :: ks). split_and!; try done.
    + constructor; [|done]. by eapply stored_id.
    + constructor; [done|]. apply Forall_forall. intros k Hk.
      apply Hks in Hk as (j & _ & -> & _). lia.
    + intros k. rewrite elem_of_cons, Hks. split.
      * intros [->|(j & u' & -> & Hj & Hs)].
        -- exists 0%nat, u. split_and!; [lia|done|done].
        -- exists (S j), u'. split_and!; [lia|done|done].
      * intros ([|j] & u' & -> & Hj & Hs).
        -- left. lia.
        -- right. exists j, u'. split_and!; [lia|done|done].
Qed.

(** The list only grows: what an iteration leaves in it is still there
    when the loop ends. *)
Lemma loop_keeps us i0 loc (w : World) loc' k u l wk :
  outcome (loop i0 us loc w) = inr loc' →
  (k, u, l, wk) ∈ iters i0 us loc w →
  ∃ l', outcome (iteration k u l wk) = inr l' ∧
    ∃ ds, utterance_metadata loc' = utterance_metadata l' ++ ds.
Proof.
  revert i0 loc w. induction us as [|u0 rest IH]; intros i0 loc w.
  { cbn. by intros _ ?%elem_of_nil. }
  rewrite loop_cons. cbn [iterations].
  destruct (outcome (iteration i0 u0 loc w)) as [e|loc1] eqn:Hit; [done|].
  rewrite outcome_prepend. intros HL [Heq|Hin]%elem_of_cons.
  - simplify_eq. exists loc1. split; [done|].
    apply loop_records in HL as (ds & -> & _). by exists ds.
  - by eapply IH.
Qed.
End LoopMore.

Section RunMore.
Context {World Audio Embedding : Type} `{!Env World Audio Embedding}.

Local Abbreviation event := (event Audio Embedding).

Variables (file_path : string) (dn : option string) (mt aut : Q).

Local Abbreviation run cid w :=
  (process_conversation file_path cid dn mt aut w).

(** A call made for an utterance, seen in the iteration that made it. *)
Lemma run_in_iteration cid (w : World) cid' wav audio us (e : event) i :
  outcome (prelude file_path cid w) = inr (cid', wav, audio, us) →
  e ∈ trace (run cid w) → ev_site e = Iter i →
  ∃ db u l wk,
    us !! i = Some u ∧
    (add_conversation (conversation_info_for file_path cid' dn audio)
       (final (prelude file_path cid w))).1 = inr db ∧
    (i, u, l, wk) ∈
      iterations cid' audio db mt aut 0 us (Locals [] None)
        (add_conversation (conversation_info_for file_path cid' dn audio)
           (final (prelude file_path cid w))).2 ∧
    e ∈ trace (process_utterance cid' audio db mt aut i u l wk) ∧
    ∀ e' : event,
      e' ∈ trace (process_utterance cid' audio db mt aut i u l wk) →
      e' ∈ trace (run cid w).
Proof.
  intros Hp Hin Hs.
  opose proof* (run_iteration file_path dn mt aut) as Hit;
    [exact Hp|exact Hin|exact Hs|].
  destruct Hit as (db & u & l & wk & Hu & Hadd & Hiter & Heq).
  exists db, u, l, wk. split_and!; try done.
  - rewrite <-Heq. by apply at_site_elem.
  - intros e' He'. rewrite <-Heq in He'.
    by apply list_elem_of_filter in He' as [_ ?].
Qed.

(** No call is made for an utterance when the prelude raised. *)
Lemma run_early_quiet cid (w : World) e0 (e : event) i :
  outcome (prelude file_path cid w) = inl e0 →
  e ∈ trace (run cid w) → ev_site e = Iter i → False.
Proof.
  intros Hp Hin Hs. rewrite (run_raises_early _ _ _ _ _ _ _ Hp) in Hin.
  cbn [trace] in Hin.
  eapply Forall_forall in Hin; [|apply prelude_sites]. congruence.
Qed.

(** X9.  The ["s3_path"] of the result is the clip of one utterance: the
    last one the two guards let through (line 94 is run anew by each). *)
Theorem result_clip_is_last cid (w : World) cid' wav audio us res :
  outcome (prelude file_path cid w) = inr (cid', wav, audio, us) →
  let r := process_conversation file_path cid dn mt aut w in
  outcome r = inr (Some res) →
  ∃ j u,
    us !! j = Some u ∧ survives u ∧
    r_s3_path res = utterance_wav_path cid' j ∧
    ∀ k u', (j < k)%nat → us !! k = Some u' → filtered u'.
Proof.
  intros Hp. cbn zeta. intros Hr.
  opose proof* (run_success file_path dn mt aut) as Hs; [exact Hp|exact Hr|].
  destruct Hs as (db & loc & _ & HL & _ & Hpath & _).
  apply loop_last_clip in HL as [[Hsame _]|(j & u & Hj & Hsurv & Hlast & Hlater)].
  - cbn in Hsame. congruence.
  - exists j, u. rewrite Hpath in Hlast. cbn in Hlast.
    split_and!; try done. congruence.
Qed.

(** X10.  The list handed to the consolidation pass holds one record for
    each utterance the two guards let through, and no other, in the order
    of the utterances: the ["id"]s of its records are the indices of
    these utterances, increasing. *)
Theorem records_follow_survivors cid (w : World) cid' wav audio us
    s md c fa t1 t2 a :
  outcome (prelude file_path cid w) = inr (cid', wav, audio, us) →
  let r := process_conversation file_path cid dn mt aut w in
  Ev s (IdentifyUnknown md c fa t1 t2 a) ∈ trace r →
  ∃ ks,
    Forall2 (λ d k, d !! "id" = Some (PyInt (Z.of_nat k))) md ks ∧
    StronglySorted lt ks ∧
    ∀ k, k ∈ ks ↔ ∃ u, us !! k = Some u ∧ survives u.
Proof.
  intros Hp. cbn zeta. intros Hin.
  opose proof* (run_consolidation file_path dn mt aut) as Hc;
    [exact Hp|exact Hin|].
  destruct Hc as (_ & db & loc & _ & HL & -> & _).
  apply loop_ids in HL as (ds & ks & Hmeta & Hids & Hsorted & Hks).
  cbn in Hmeta. subst ds. exists ks. split_and!; try done.
  intros k. rewrite Hks. split.
  - intros (j & u & -> & Hj & Hs). by exists u.
  - intros (u & Hk & Hs). by exists k, u.
Qed.

(** The clip of an utterance is named after its index. *)
Lemma utterance_wav_path_inj (c : string) (i j : nat) :
  utterance_wav_path c i = utterance_wav_path c j → i = j.
Proof.
  unfold utterance_wav_path. intros Heq.
  repeat apply (inj (String.app _)) in Heq.
  apply append_cancel_r in Heq. by apply fmt_03d_inj.
Qed.

(** X11.  The clips of a conversation do not collide: two utterances
    have different clip paths (the index is written in decimal, padded to
    three digits and longer from 1000 on), so two rows handed to
    [add_utterance] for different utterances name different files. *)
Theorem clip_paths_distinct cid (w : World) :
  let r := process_conversation file_path cid dn mt aut w in
  (∀ c i j, utterance_wav_path c i = utterance_wav_path c j → i = j) ∧
  ∀ i j info info' a a',
    Ev (Iter i) (AddUtterance info a) ∈ trace r →
    Ev (Iter j) (AddUtterance info' a') ∈ trace r →
    info !! "audio_file" = info' !! "audio_file" → i = j.
Proof.
  cbn zeta. split; [apply utterance_wav_path_inj|].
  intros i j info info' a a' Hi Hj Heq.
  destruct (outcome (prelude file_path cid w))
    as [e|[[[cid' wav] audio] us]] eqn:Hp.
  { by destruct (run_early_quiet _ _ _ _ i Hp Hi). }
  opose proof* run_in_iteration as Hit; [exact Hp|exact Hi|reflexivity|].
  destruct Hit as (db & u & l & wk & _ & _ & _ & Hin & _).
  apply iteration_add_utterance in Hin as (_ & Hfile & _).
  opose proof* run_in_iteration as Hit; [exact Hp|exact Hj|reflexivity|].
  destruct Hit as (db' & u' & l' & wk' & _ & _ & _ & Hin' & _).
  apply iteration_add_utterance in Hin' as (_ & Hfile' & _).
  rewrite Hfile, Hfile' in Heq. injection Heq as Heq.
  by apply utterance_wav_path_inj in Heq.
Qed.

(** X12.  The row handed to [add_utterance] for an utterance has the
    thirteen keys of lines 96-108 and says what the record of the
    utterance list says: on every key of the record but ["id"], which the
    row has not, the two agree; the row's ["audio_file"] is the clip of the
    utterance; and that record is in the list the consolidation pass is
    handed. *)
Theorem row_matches_record cid (w : World) cid' wav audio us s info a :
  outcome (prelude file_path cid w) = inr (cid', wav, audio, us) →
  let r := process_conversation file_path cid dn mt aut w in
  Ev s (AddUtterance info a) ∈ trace r →
  ∃ i u d,
    s = Iter i ∧ us !! i = Some u ∧
    dom info = row_keys ∧
    info !! "audio_file" = Some (PyStr (utterance_wav_path cid' i)) ∧
    describes u i d ∧
    (∀ k, k ∈ record_keys → k ≠ "id" → info !! k = d !! k) ∧
    (∀ s' md c fa t1 t2 a',
       Ev s' (IdentifyUnknown md c fa t1 t2 a') ∈ trace r → d ∈ md).
Proof.
  intros Hp. cbn zeta. intros Hin.
  assert (∃ i, s = Iter i) as [i ->].
  { eapply Forall_forall in Hin; [|apply run_proper]. exact Hin. }
  opose proof* run_in_iteration as Hit; [exact Hp|exact Hin|reflexivity|].
  destruct Hit as (db & u & l & wk & Hu & Hadd & Hiter & Hrow & _).
  apply iteration_row in Hrow
    as (s0 & e0 & text & words & n0 & c0 & eid & emb & name & conf & sid & uid
        & Hspan & Htext & Hwords & Htest & Hres & _ & _ & -> & Hkept).
  exists i, u, (utterance_data i s0 e0 text conf name eid words db).
  split_and!;
    [done|done|apply utterance_info_dom|apply utterance_info_fields|..].
  - eapply stored_describes.
    by eexists s0, e0, text, words, n0, c0, eid, emb, name, conf.
  - intros k. apply utterance_info_data.
  - intros s' md c fa t1 t2 a' Hc.
    opose proof* (run_consolidation file_path dn mt aut) as Hcons;
      [exact Hp|exact Hc|].
    destruct Hcons as (_ & db' & loc & Hadd' & HL & -> & _).
    rewrite Hadd in Hadd'. injection Hadd' as <-.
    opose proof* loop_keeps as Hk; [exact HL|exact Hiter|].
    destruct Hk as (l' & Hl' & ds & ->).
    rewrite (Hkept _ Hl'). set_solver.
Qed.

(** X13.  The row of an utterance refers to a speaker that has been
    registered: its ["speaker"] is the name [add_speaker] was called with
    for that utterance, its ["speaker_id"] is what [add_speaker]
    answered, and its ["utterance_id"] is ["utterance_"] and the eight
    digits drawn for it. *)
Theorem row_speaker_registered cid (w : World) cid' wav audio us i info a :
  outcome (prelude file_path cid w) = inr (cid', wav, audio, us) →
  let r := process_conversation file_path cid dn mt aut w in
  Ev (Iter i) (AddUtterance info a) ∈ trace r →
  ∃ name speaker_id uid,
    Ev (Iter i) (AddSpeaker name (inr speaker_id)) ∈ trace r ∧
    info !! "speaker" = Some (PyStr name) ∧
    info !! "speaker_id" = Some speaker_id ∧
    Ev (Iter i) (Uuid4 uid) ∈ trace r ∧
    info !! "utterance_id" = Some (PyStr ("utterance_" +:+ uid)).
Proof.
  intros Hp. cbn zeta. intros Hin.
  opose proof* run_in_iteration as Hit; [exact Hp|exact Hin|reflexivity|].
  destruct Hit as (db & u & l & wk & Hu & Hadd & Hiter & Hrow & Hback).
  apply iteration_row in Hrow
    as (s0 & e0 & text & words & n0 & c0 & eid & emb & name & conf & sid & uid
        & _ & _ & _ & _ & _ & Hsp & Huid & -> & _).
  exists name, sid, uid. split_and!.
  - by apply Hback.
  - apply utterance_info_fields.
  - apply utterance_info_more.
  - by apply Hback.
  - apply utterance_info_more.
Qed.

(** X14.  No speaker goes without a name: [add_speaker] and
    [auto_update_embedding] are never called with the empty string, the
    name being the matcher's when it gave one and ["Speaker_"] and the
    provider's tag otherwise. *)
Theorem speakers_are_named cid (w : World) :
  let r := process_conversation file_path cid dn mt aut w in
  (∀ s name a, Ev s (AddSpeaker name a) ∈ trace r → name ≠ "") ∧
  (∀ s e name src c t a,
     Ev s (AutoUpdateEmbedding e name src c t a) ∈ trace r → name ≠ "").
Proof.
  cbn zeta.
  destruct (outcome (prelude file_path cid w))
    as [e0|[[[cid' wav] audio] us]] eqn:Hp.
  { split; intros; exfalso;
      match goal with
      | H : Ev ?s _ ∈ trace _ |- _ =>
          assert (∃ i, s = Iter i) as [i ->]
            by (eapply Forall_forall in H; [|apply run_proper]; exact H);
          exact (run_early_quiet _ _ _ _ i Hp H eq_refl)
      end. }
  split.
  - intros s name a Hin.
    assert (∃ i, s = Iter i) as [i ->].
    { eapply Forall_forall in Hin; [|apply run_proper]. exact Hin. }
    opose proof* run_in_iteration as Hit; [exact Hp|exact Hin|reflexivity|].
    destruct Hit as (db & u & l & wk & _ & _ & _ & Hcall & _).
    apply iteration_speaker in Hcall
      as (? & ? & ? & ? & ? & ? & ? & _ & _ & Hres).
    by eapply resolve_speaker_named.
  - intros s e name src c t a Hin.
    assert (∃ i, s = Iter i) as [i ->].
    { eapply Forall_forall in Hin; [|apply run_proper]. exact Hin. }
    opose proof* run_in_iteration as Hit; [exact Hp|exact Hin|reflexivity|].
    destruct Hit as (db & u & l & wk & _ & _ & _ & Hcall & _).
    apply iteration_enrollment_call in Hcall
      as (? & ? & ? & ? & ? & _ & Hres & _).
    by eapply resolve_speaker_named.
Qed.

(** X15.  Every call to [test_voice_segment] is for an utterance that has
    its ["words"] and lasts 700 ms or more; it is handed the slice of the
    recording from the start to the end of the utterance, the id of the
    conversation, the index of the utterance and [match_threshold]. *)
Theorem match_calls_are_survivors cid (w : World) cid' wav audio us
    s seg c i thr a :
  outcome (prelude file_path cid w) = inr (cid', wav, audio, us) →
  let r := process_conversation file_path cid dn mt aut w in
  Ev s (TestVoiceSegment seg c i thr a) ∈ trace r →
  s = Iter i ∧ c = cid' ∧ thr = mt ∧
  ∃ u start_ms end_ms,
    us !! i = Some u ∧ is_Some (u !! "words") ∧
    span u = inr (start_ms, end_ms) ∧ 700 ≤ end_ms - start_ms ∧
    seg = audio_slice audio start_ms end_ms.
Proof.
  intros Hp. cbn zeta. intros Hin.
  assert (s = Iter i) as ->.
  { eapply Forall_forall in Hin; [|apply run_proper]. exact Hin. }
  opose proof* run_in_iteration as Hit; [exact Hp|exact Hin|reflexivity|].
  destruct Hit as (db & u & l & wk & Hu & _ & _ & Hcall & _).
  apply iteration_matching_call in Hcall
    as (_ & _ & -> & -> & [Hw (s1 & e1 & Hspan1 & Hlong)]
        & s0 & e0 & Hspan & -> & _).
  split_and!; try done. exists u, s0, e0.
  rewrite Hspan in Hspan1. injection Hspan1 as <- <-. done.
Qed.

(** X16.  What [auto_update_embedding] is handed comes from the utterance
    it is called for: the embedding is the one [test_voice_segment]
    returned for it, the name is the one [add_speaker] has just
    registered, the source is the clip of the utterance, the confidence is
    the one kept, above the threshold, which is handed too. *)
Theorem enrollment_source cid (w : World) cid' wav audio us
    s e name src c t a :
  outcome (prelude file_path cid w) = inr (cid', wav, audio, us) →
  let r := process_conversation file_path cid dn mt aut w in
  Ev s (AutoUpdateEmbedding e name src c t a) ∈ trace r →
  ∃ i u seg name0 confidence0 embedding_id speaker_id,
    s = Iter i ∧ us !! i = Some u ∧
    Ev (Iter i)
      (TestVoiceSegment seg cid' i mt
         (inr (name0, confidence0, embedding_id, Some e))) ∈ trace r ∧
    resolve_speaker u name0 confidence0 = inr (name, c) ∧
    Ev (Iter i) (AddSpeaker name (inr speaker_id)) ∈ trace r ∧
    src = utterance_wav_path cid' i ∧ t = aut ∧ py_gt c aut = inr true.
Proof.
  intros Hp. cbn zeta. intros Hin.
  assert (∃ i, s = Iter i) as [i ->].
  { eapply Forall_forall in Hin; [|apply run_proper]. exact Hin. }
  opose proof* run_in_iteration as Hit; [exact Hp|exact Hin|reflexivity|].
  destruct Hit as (db & u & l & wk & Hu & _ & _ & Hcall & Hback).
  pose proof Hcall as Hcall'.
  apply iteration_enrollment in Hcall' as (_ & -> & -> & Hgt & _).
  apply iteration_enrollment_call in Hcall
    as (seg & n0 & c0 & eid & sid & Htest & Hres & Hsp).
  exists i, u, seg, n0, c0, eid, sid. split_and!; try done; by apply Hback.
Qed.

(** X17.  An utterance under 700 ms that has its ["words"] is reported
    and left: when the loop comes to it, the one thing done for it is to
    print that it is skipped, with its duration; and the loop has come to
    it whenever the consolidation pass is called. *)
Theorem short_utterance_reported cid (w : World) cid' wav audio us
    i u start_ms end_ms :
  outcome (prelude file_path cid w) = inr (cid', wav, audio, us) →
  us !! i = Some u →
  is_Some (u !! "words") →
  span u = inr (start_ms, end_ms) →
  end_ms - start_ms < 700 →
  let r := process_conversation file_path cid dn mt aut w in
  let said := Ev (Iter i) (Print (MsgSkippingShort (end_ms - start_ms))) in
  (at_site (Iter i) (trace r) = [] ∨ at_site (Iter i) (trace r) = [said]) ∧
  (∀ s md c fa t1 t2 a,
     Ev s (IdentifyUnknown md c fa t1 t2 a) ∈ trace r →
     at_site (Iter i) (trace r) = [said]).
Proof.
  intros Hp Hu Hw Hspan Hshort. cbn zeta.
  pose proof (run_loop file_path dn mt aut _ _ _ _ _ _ Hp) as HL.
  cbn zeta in HL.
  assert (∀ db l wk,
    trace (process_utterance cid' audio db mt aut i u l wk)
    = [Ev (Iter i) (Print (MsgSkippingShort (end_ms - start_ms)))]) as Hsaid.
  { intros. by rewrite (iteration_short_run _ _ _ _ _ _ _ _ _ _ _ Hw Hspan Hshort). }
  split.
  - destruct (add_conversation _ _).1 as [e|db].
    { destruct HL as (HL & _). left. apply HL. }
    destruct HL as (HL & _). rewrite HL.
    destruct (loop_at_site_cases cid' audio db mt aut us 0 (Locals [] None)
                (add_conversation
                   (conversation_info_for file_path cid' dn audio)
                   (final (prelude file_path cid w))).2 i)
      as [Hnone|(u' & l & wk & Hiter & ->)]; [by left|].
    right. apply iterations_lookup in Hiter as (j & Hj & Hu').
    change (0 + j)%nat with j in Hj. subst j.
    rewrite Hu in Hu'. injection Hu' as <-. apply Hsaid.
  - intros s md c fa t1 t2 a Hin.
    opose proof* (run_consolidation file_path dn mt aut) as Hc;
      [exact Hp|exact Hin|].
    destruct Hc as (_ & db & loc & Hadd & Hloop & _).
    rewrite Hadd in HL. destruct HL as (HL & _). rewrite HL.
    opose proof* loop_complete as Hk; [exact Hloop|exact Hu|].
    destruct Hk as (l & wk & Hiter). change (0 + i)%nat with i in Hiter.
    rewrite (loop_at_site _ _ _ _ _ _ _ _ _ _ _ _ _ Hiter). apply Hsaid.
Qed.
End RunMore.

Section Failing.
Context {World Audio Embedding : Type} `{!Env World Audio Embedding}.

Local Abbreviation event := (event Audio Embedding).

Lemma resolve_matched (u : dict) name0 confidence0 name confidence :
  name0 ≠ "" →
  resolve_speaker u (Some name0) confidence0 = inr (name, confidence) →
  name = name0 ∧ confidence = PyFloat confidence0.
Proof.
  unfold resolve_speaker. cbn [falsy]. intros Hne.
  rewrite bool_decide_eq_false_2 by done. by intros [= <- <-].
Qed.

Section OneLoop.
Variables (cid : string) (audio : Audio) (db : pyval) (mt aut : Q).

Local Abbreviation iteration := (process_utterance cid audio db mt aut).
Local Abbreviation loop := (for_utterances cid audio db mt aut).
Local Abbreviation iters := (iterations cid audio db mt aut).

(** A call of an iteration that raised ends the iteration with its
    exception. *)
Lemma iteration_raises i u loc (w : World) s c e :
  Ev s c ∈ trace (iteration i u loc w) → raised c = Some e →
  outcome (iteration i u loc w) = inl e.
Proof.
  unfold_iteration; rewrite ?elem_of_app, ?elem_of_cons, ?elem_of_nil;
    intros Hin Hc; destruct_or?; simplify_eq; cbn in Hc; by simplify_eq.
Qed.

(** An iteration that raises is the last one. *)
Lemma loop_stops us i0 loc (w : World) k u l wk e :
  (k, u, l, wk) ∈ iters i0 us loc w →
  outcome (iteration k u l wk) = inl e →
  outcome (loop i0 us loc w) = inl e ∧
  ∀ j, (k < j)%nat → at_site (Iter j) (trace (loop i0 us loc w)) = [].
Proof.
  revert i0 loc w. induction us as [|u0 rest IH]; intros i0 loc w.
  { cbn. by intros ?%elem_of_nil. }
  cbn [iterations]. rewrite loop_cons. intros [Heq|Hin]%elem_of_cons He.
  - simplify_eq. rewrite He. cbn [outcome trace]. split; [done|].
    intros j Hj. apply (at_site_other _ (Iter i0)); [|intros [= ->]; lia].
    apply iteration_sites.
  - destruct (outcome (iteration i0 u0 loc w)) as [e'|loc1] eqn:Hit;
      [by apply elem_of_nil in Hin|].
    pose proof (iterations_lookup _ _ _ _ _ _ _ _ _ _ _ _ _ Hin)
      as (j' & -> & _).
    destruct (IH _ _ _ Hin He) as [Hout Hquiet].
    rewrite outcome_prepend, trace_prepend. split; [done|].
    intros j Hj. rewrite at_site_app, Hquiet by lia.
    rewrite (at_site_other _ (Iter i0)); [done|apply iteration_sites|].
    intros [= ->]. lia.
Qed.
End OneLoop.

Variables (file_path : string) (dn : option string) (mt aut : Q).

Local Abbreviation run cid w :=
  (process_conversation file_path cid dn mt aut w).

(** X18.  A call made for an utterance that raises ends the loop there:
    nothing is done for the utterances after it, the consolidation pass is
    not run, the handler reports the exception and no result is
    returned. *)
Theorem failure_stops_processing cid (w : World) cid' wav audio us i c e :
  outcome (prelude file_path cid w) = inr (cid', wav, audio, us) →
  let r := process_conversation file_path cid dn mt aut w in
  Ev (Iter i) c ∈ trace r →
  raised c = Some e →
  (∀ j, (i < j)%nat → at_site (Iter j) (trace r) = []) ∧
  at_site Epilogue (trace r) = [] ∧
  at_site Handler (trace r) = handler_trace e ∧
  ∀ res, outcome r ≠ inr (Some res).
Proof.
  intros Hp. cbn zeta. intros Hin Hc.
  opose proof* (run_in_iteration file_path dn mt aut) as Hit;
    [exact Hp|exact Hin|reflexivity|].
  destruct Hit as (db & u & l & wk & _ & Hadd & Hiter & Hcall & _).
  pose proof (iteration_raises _ _ _ _ _ _ _ _ _ _ _ _ Hcall Hc) as Hraise.
  destruct (loop_stops _ _ _ _ _ _ _ _ _ _ _ _ _ _ Hiter Hraise)
    as [Hout Hquiet].
  pose proof (run_loop file_path dn mt aut _ _ _ _ _ _ Hp) as HL.
  cbn zeta in HL. rewrite Hadd in HL. destruct HL as (Hsame & HL).
  rewrite Hout in HL. destruct HL as (Hepi & Hnone).
  split_and!; try done.
  - intros j Hj. rewrite Hsame. by apply Hquiet.
  - rewrite (run_handler file_path dn mt aut _ _ _ _ _ _ Hp), try_body_run. cbn zeta.
    rewrite Hadd, Hout. done.
Qed.

(** X19.  For an utterance the matcher named, the name and the
    similarity it returned are kept: [add_speaker] is called with that
    name, and the record of the utterance list and the row handed to
    [add_utterance] carry the name, the similarity as confidence, and the
    embedding id the matcher returned. *)
Theorem matched_identity_kept cid (w : World) cid' wav audio us
    i seg c thr name0 confidence0 embedding_id embedding :
  outcome (prelude file_path cid w) = inr (cid', wav, audio, us) →
  let r := process_conversation file_path cid dn mt aut w in
  Ev (Iter i)
    (TestVoiceSegment seg c i thr
       (inr (Some name0, confidence0, embedding_id, embedding))) ∈ trace r →
  name0 ≠ "" →
  (∃ a, Ev (Iter i) (AddSpeaker name0 a) ∈ trace r) ∧
  (∀ s md c2 fa t1 t2 a d,
     Ev s (IdentifyUnknown md c2 fa t1 t2 a) ∈ trace r → d ∈ md →
     d !! "id" = Some (PyInt (Z.of_nat i)) →
     d !! "speaker" = Some (PyStr name0) ∧
     d !! "confidence" = Some (PyFloat confidence0) ∧
     d !! "embedding_id" = Some embedding_id) ∧
  (∀ info a,
     Ev (Iter i) (AddUtterance info a) ∈ trace r →
     info !! "speaker" = Some (PyStr name0) ∧
     info !! "confidence" = Some (PyFloat confidence0) ∧
     info !! "embedding_id" = Some embedding_id).
Proof.
  intros Hp. cbn zeta. intros Htv Hne.
  opose proof* (run_iteration file_path dn mt aut) as Hit;
    [exact Hp|exact Htv|reflexivity|].
  destruct Hit as (db & u & l & wk & Hu & Hadd & Hiter & Heq).
  apply (at_site_elem (Iter i)) in Htv; [|done].
  assert (∀ db' l' wk' s0 e0 n0 c0 eid emb name conf,
            at_site (Iter i)
              (trace (process_conversation file_path cid dn mt aut w))
            = trace (process_utterance cid' audio db' mt aut i u l' wk') →
            span u = inr (s0, e0) →
            (test_voice_segment (audio_slice audio s0 e0) cid' i mt wk').1
              = inr (n0, c0, eid, emb) →
            resolve_speaker u n0 c0 = inr (name, conf) →
            name = name0 ∧ conf = PyFloat confidence0 ∧ eid = embedding_id)
    as Hkept.
  { intros db' l' wk' s0 e0 n0 c0 eid emb name conf Heq' Hspan'
      Hans' Hres.
    rewrite Heq' in Htv.
    apply iteration_matching_call in Htv
      as (_ & _ & -> & -> & _ & s1 & e1 & Hspan & -> & Hans).
    rewrite Hspan in Hspan'. simplify_eq. rewrite Hans' in Hans. simplify_eq.
    by destruct (resolve_matched _ _ _ _ _ Hne Hres) as [-> ->]. }
  split_and!.
  - rewrite Heq in Htv.
    apply iteration_matching_call in Htv
      as (_ & _ & -> & -> & Hsurv & s0 & e0 & Hspan & -> & Hans).
    symmetry in Hans.
    opose proof* (iteration_add_speaker cid' audio db mt aut i u l wk) as Hsp;
      [exact Hsurv|exact Hspan|exact Hans| |].
    { unfold resolve_speaker. cbn [falsy].
      by rewrite bool_decide_eq_false_2 by done. }
    destruct Hsp as [a Ha]. exists a.
    apply (at_site_elem (Iter i)); [done|]. by rewrite Heq.
  - intros s md c2 fa t1 t2 a d He Hd Hid.
    opose proof* (run_record file_path dn mt aut) as Hrec;
      [exact Hp|exact He|exact Hd|].
    destruct Hrec as (db' & k & u2 & l2 & wk2 & Hk & _ & Hst & Heq2).
    pose proof (stored_id _ _ _ _ _ _ _ _ Hst) as Hid'.
    rewrite Hid in Hid'. assert (k = i) as -> by (injection Hid'; lia).
    rewrite Hu in Hk. simplify_eq.
    destruct Hst as (s0 & e0 & text & words & n0 & c0 & eid & emb & name
                     & conf & Hspan & _ & _ & Hans & Hres & ->).
    destruct (Hkept _ _ _ _ _ _ _ _ _ _ _ Heq2 Hspan Hans Hres)
      as (-> & -> & ->).
    pose proof (utterance_data_fields i s0 e0 text (PyFloat confidence0) name0
                  embedding_id words db') as Hf.
    cbn zeta in Hf. tauto.
  - intros info a He.
    apply (at_site_elem (Iter i)) in He; [|done]. rewrite Heq in He.
    apply iteration_row in He
      as (s0 & e0 & text & words & n0 & c0 & eid & emb & name & conf & sid
          & uid & Hspan & _ & _ & Hans & Hres & _ & _ & -> & _).
    destruct (Hkept _ _ _ _ _ _ _ _ _ _ _ Heq Hspan Hans Hres)
      as (-> & -> & ->).
    rewrite !(utterance_info_data uid i)
      by first [ discriminate
               | unfold record_keys;
                 rewrite !elem_of_union, !elem_of_singleton; tauto ].
    pose proof (utterance_data_fields i s0 e0 text (PyFloat confidence0) name0
                  embedding_id words db) as Hf.
    cbn zeta in Hf. tauto.
Qed.
End Failing.

(** Membership in an explicit trace, one event after the other. *)
Ltac pick_event :=
  apply list_elem_of_here + (apply list_elem_of_further; pick_event).

Section Degraded.
Context {World Audio Embedding : Type} `{!Env World Audio Embedding}.

Local Abbreviation event := (event Audio Embedding).

Lemma resolve_speaker_raises (u : dict) name0 confidence0 e :
  resolve_speaker u name0 confidence0 = inl e → getitem u "speaker" = inl e.
Proof.
  unfold resolve_speaker. destruct (falsy name0); [|done].
  destruct (getitem u "speaker") as [e'|tag]; [|done]. by intros [= ->].
Qed.

Lemma resolve_speaker_compared (u : dict) name0 confidence0 name confidence
    (t : Q) e :
  resolve_speaker u name0 confidence0 = inr (name, confidence) →
  py_gt confidence t = inl e →
  py_gt (get_default u "confidence" (PyFloat 0)) t = inl e.
Proof.
  unfold resolve_speaker. destruct (falsy name0).
  - destruct (getitem u "speaker"); [done|]. by intros [= _ <-].
  - by intros [= _ <-].
Qed.

Section OneIteration.
Variables (cid : string) (audio : Audio) (db : pyval) (mt aut : Q).

Local Abbreviation iteration := (process_utterance cid audio db mt aut).
Local Abbreviation loop := (for_utterances cid audio db mt aut).
Local Abbreviation iters := (iterations cid audio db mt aut).

(** What makes an iteration raise: a call that raised, or the data of the
    utterance. *)
Lemma iteration_failure i u loc (w : World) e :
  outcome (iteration i u loc w) = inl e →
  (∃ c, Ev (Iter i) c ∈ trace (iteration i u loc w) ∧ raised c = Some e) ∨
  malformed aut u e.
Proof.
  unfold_iteration; intros [= <-].
  all: rewrite ?bool_decide_eq_false, ?bool_decide_eq_true in *.
  all: subst.
  all: first
    [ exfalso;
      match goal with
      | H : getitem _ "words" = inl _ |- _ =>
          apply getitem_inl in H as [? _]; done
      end
    | left; eexists; split; [pick_event|reflexivity]
    | right; split; [by apply not_eq_None_Some|];
      first
        [ left; unfold span;
          repeat match goal with
            | H : getitem _ _ = _ |- _ => rewrite H
            | H : py_int _ _ = _ |- _ => rewrite H
            end; reflexivity
        | right; left; by eapply resolve_speaker_raises
        | right; right; left; assumption
        | right; right; right; by eapply resolve_speaker_compared ] ].
Qed.

(** A loop that raises raises what one of its iterations raised. *)
Lemma loop_failure us i0 loc (w : World) e :
  outcome (loop i0 us loc w) = inl e →
  ∃ k u l wk,
    (k, u, l, wk) ∈ iters i0 us loc w ∧
    outcome (iteration k u l wk) = inl e.
Proof.
  revert i0 loc w. induction us as [|u0 rest IH]; intros i0 loc w; [done|].
  rewrite loop_cons. cbn [iterations].
  destruct (outcome (iteration i0 u0 loc w)) as [e'|loc1] eqn:Hit.
  - cbn [outcome]. intros [= ->]. exists i0, u0, loc, w.
    split; [apply list_elem_of_here|done].
  - rewrite outcome_prepend.
    intros (k & u & l & wk & Hin & He)%IH. exists k, u, l, wk.
    split; [by apply list_elem_of_further|done].
Qed.

(** Lines 80 and 95: without an embedding nothing is enrolled, and the
    iteration goes on to [add_utterance]. *)
Lemma iteration_without_embedding i u loc (w : World) seg c thr name0
    confidence0 embedding_id :
  Ev (Iter i)
    (TestVoiceSegment seg c i thr
       (inr (name0, confidence0, embedding_id, None)))
    ∈ trace (iteration i u loc w) →
  (∀ s e n src c' t a,
     Ev s (AutoUpdateEmbedding e n src c' t a) ∉ trace (iteration i u loc w)) ∧
  (∀ name speaker_id,
     Ev (Iter i) (AddSpeaker name (inr speaker_id))
       ∈ trace (iteration i u loc w) →
     is_Some (u !! "text") →
     ∃ info a, Ev (Iter i) (AddUtterance info a) ∈ trace (iteration i u loc w)).
Proof.
  unfold_iteration; rewrite ?elem_of_app, ?elem_of_cons, ?elem_of_nil;
    intros Hin; destruct_or?; simplify_eq; try done.
  all: know_utterance.
  all: split;
    [ intros s' e' n' src' c' t' a';
      rewrite ?elem_of_cons, ?elem_of_nil; intros Hin';
      destruct_or?; by simplify_eq
    | intros name' sid'; rewrite ?elem_of_cons, ?elem_of_nil;
      intros Hin' [text' Htext']; destruct_or?; simplify_eq;
      try (by eexists _, _; find_event) ].
Qed.
End OneIteration.
End Degraded.

Section Degradation.
Context {World Audio Embedding : Type} `{!Env World Audio Embedding}.

Local Abbreviation event := (event Audio Embedding).

(** C6, amended.  An absent embedding is no error: nothing is enrolled
    for the utterance, the iteration goes on to [add_utterance], and the
    record of the utterance has the shape of any other.  An exception
    raised inside the [try] block, though, ends the conversation: it never
    leaves [process_conversation], the handler reports it (the error and
    its traceback, and nothing when the body did not raise), and the call
    returns [None] when the body of the [try] raised and the result object
    exactly when it did not (the [os.remove] of the [finally] block, if that
    block calls it, not raising).  The body raises only when a call
    raised, when the data of an utterance that has its ["words"] cannot be
    read, or when no utterance got past the two guards. *)
Theorem errors_abort_conversation file_path cid dn mt aut (w : World)
    cid' wav audio us :
  outcome (prelude file_path cid w) = inr (cid', wav, audio, us) →
  let r := process_conversation file_path cid dn mt aut w in
  let body :=
    try_body file_path cid' dn mt aut audio us
      (final (prelude file_path cid w)) in
  (removal_answers file_path wav
     (final (attempt file_path cid' dn mt aut audio us
               (final (prelude file_path cid w)))) →
   outcome r = inr match outcome body with
                   | inl _ => None
                   | inr v => v
                   end) ∧
  (∀ v, outcome body = inr v → is_Some v) ∧
  at_site Handler (trace r)
  = match outcome body with
    | inl e => handler_trace e
    | inr _ => []
    end ∧
  (∀ e, outcome body = inl e →
     (∃ s c, Ev s c ∈ trace r ∧ s ≠ Cleanup ∧ raised c = Some e) ∨
     (∃ i u, us !! i = Some u ∧ malformed aut u e) ∨
     (e = UnboundLocalError "s3_path" ∧ Forall filtered us)) ∧
  (∀ i u seg c thr name0 confidence0 embedding_id,
     us !! i = Some u →
     Ev (Iter i)
       (TestVoiceSegment seg c i thr
          (inr (name0, confidence0, embedding_id, None))) ∈ trace r →
     (∀ e n src c' t a,
        Ev (Iter i) (AutoUpdateEmbedding e n src c' t a) ∉ trace r) ∧
     (∀ name speaker_id,
        Ev (Iter i) (AddSpeaker name (inr speaker_id)) ∈ trace r →
        is_Some (u !! "text") →
        ∃ info a, Ev (Iter i) (AddUtterance info a) ∈ trace r) ∧
     (∀ s md c2 fa t1 t2 a d,
        Ev s (IdentifyUnknown md c2 fa t1 t2 a) ∈ trace r → d ∈ md →
        d !! "id" = Some (PyInt (Z.of_nat i)) →
        describes u i d ∧ d !! "embedding_id" = Some embedding_id)).
Proof.
  intros Hp. cbn zeta. split_and!.
  - intros Hrm.
    rewrite (run_outcome file_path dn mt aut _ _ _ _ _ _ Hp Hrm).
    apply attempt_outcome.
  - intros v. apply try_body_value.
  - apply (run_handler file_path dn mt aut _ _ _ _ _ _ Hp).
  - intros e Hbody. rewrite try_body_run in Hbody. cbn zeta in Hbody.
    pose proof (run_loop file_path dn mt aut _ _ _ _ _ _ Hp) as HL.
    cbn zeta in HL.
    pose proof (run_body file_path dn mt aut _ _ _ _ _ _ Hp) as HB.
    cbn zeta in HB.
    destruct (add_conversation _ _).1 as [e'|db] eqn:Hadd.
    { injection Hbody as ->. left. eexists Body, _. split_and!; [|done|].
      - apply (at_site_elem Body); [done|]. rewrite HB.
        apply list_elem_of_here.
      - reflexivity. }
    destruct HL as (Hsame & HL).
    destruct (outcome (for_utterances _ _ _ _ _ _ _ _ _)) as [e'|loc] eqn:HLo.
    + injection Hbody as ->.
      apply loop_failure in HLo as (k & u & l & wk & Hiter & Hraise).
      apply iteration_failure in Hraise as [(c & Hc & Hr)|Hbad].
      * left. exists (Iter k), c. split_and!; [|done|done].
        apply (at_site_elem (Iter k)); [done|].
        by rewrite Hsame, (loop_at_site _ _ _ _ _ _ _ _ _ _ _ _ _ Hiter).
      * right. left.
        apply iterations_lookup in Hiter as (j & _ & Hj). by exists j, u.
    + destruct HL as (HE & _).
      rewrite outcome_prepend, epilogue_run in Hbody. cbn zeta in Hbody.
      rewrite epilogue_run in HE. cbn zeta in HE.
      destruct (identify_unknown_speakers_by_combining _ _ _ _ _ _).1
        as [e'|md] eqn:Hid.
      { injection Hbody as ->. left. eexists Epilogue, _.
        split_and!; [|done|].
        - apply (at_site_elem Epilogue); [done|]. rewrite HE.
          apply list_elem_of_here.
        - reflexivity. }
      destruct (s3_path loc) eqn:Hpath; [done|].
      injection Hbody as <-. right. right. split; [done|].
      apply loop_last_clip in HLo as [[_ Hall]|(j & u & _ & _ & Hlast & _)];
        [done|congruence].
  - intros i u seg c thr name0 confidence0 embedding_id Hu Htv.
    opose proof* (run_iteration file_path dn mt aut) as Hit;
      [exact Hp|exact Htv|reflexivity|].
    destruct Hit as (db & u' & l & wk & Hu' & Hadd & Hiter & Heq).
    rewrite Hu in Hu'. injection Hu' as <-.
    assert (∀ ev : event, ev_site ev = Iter i →
      ev ∈ trace (process_conversation file_path cid dn mt aut w)
      ↔ ev ∈ trace (process_utterance cid' audio db mt aut i u l wk))
      as Hiff.
    { intros ev Hs. rewrite <-Heq. by apply at_site_elem. }
    pose proof Htv as Hcall. apply Hiff in Hcall; [|done].
    apply iteration_without_embedding in Hcall as [Hnone Hgoes].
    split_and!.
    + intros e n src c' t a Hin. apply Hiff in Hin; [|done].
      by eapply Hnone.
    + intros name sid Hsp Htext. apply Hiff in Hsp; [|done].
      destruct (Hgoes _ _ Hsp Htext) as (info & a & Hrow).
      exists info, a. by apply Hiff.
    + intros s md c2 fa t1 t2 a d He Hd Hid.
      opose proof* (run_record file_path dn mt aut) as Hrec;
        [exact Hp|exact He|exact Hd|].
      destruct Hrec as (db' & k & u2 & l2 & wk2 & Hk & _ & Hst & Heq2).
      pose proof (stored_id _ _ _ _ _ _ _ _ Hst) as Hid'.
      rewrite Hid in Hid'. assert (k = i) as -> by (injection Hid'; lia).
      rewrite Hu in Hk. injection Hk as <-.
      split; [by eapply stored_describes|].
      destruct Hst as (s0 & e0 & text & words & n0 & c0 & eid & emb & name
                       & conf & Hspan & _ & _ & Hans & _ & ->).
      apply (at_site_elem (Iter i)) in Htv; [|done]. rewrite Heq2 in Htv.
      apply iteration_matching_call in Htv
        as (_ & _ & -> & -> & _ & s1 & e1 & Hspan1 & -> & Hans1).
      rewrite Hspan in Hspan1. injection Hspan1 as <- <-.
      rewrite Hans in Hans1. injection Hans1 as <- <- <- <-.
      apply utterance_data_fields.
Qed.
End Degradation.

(** ** The claims in the small world *)

Module FixtureFacts.
Import Fixture.

Local Abbreviation event := (event Audio Embedding).

Lemma talk_prelude us :
  outcome (prelude "in/talk.mp3" (Some "c1") (world_of us))
  = inr ("c1", "in/talk.mp3.wav", (0, 10000), us).
Proof. vm_compute. reflexivity. Qed.

Lemma fixture_contract : consolidation_contract.
Proof.
  intros md cid audio mt aut w out [= <-].
  apply Forall2_same_length_lookup. split; [done|].
  intros n d d' Hd Hd'. rewrite Hd in Hd'. by simplify_eq.
Qed.

Lemma fixture_removal file_path wav w : removal_answers file_path wav w.
Proof. by intros _ _. Qed.

Lemma clip_short_is_short : short clip_short.
Proof. exists 0, 650. split; [vm_compute; reflexivity|lia]. Qed.

Lemma clip_unknown_survives : survives clip_unknown.
Proof.
  split; [by eexists; vm_compute|].
  exists 4000, 6000. split; [vm_compute; reflexivity|lia].
Qed.

(** The calls of the run on [talk], by position. *)
Lemma at_position (t : list event) (n : nat) (e : event) :
  t !! n = Some e → e ∈ t.
Proof. apply list_elem_of_lookup_2. Qed.

Lemma ada_matched :
  Ev (Iter 1)
    (TestVoiceSegment (2000, 3500) "c1" 1 (6 # 10)%Q
       (inr (Some "Ada", (9 # 10)%Q, PyStr "emb_1", Some 2000)))
    ∈ trace (run talk).
Proof. apply (at_position _ 7). vm_compute. reflexivity. Qed.

Lemma ada_added :
  Ev (Iter 1) (AddSpeaker "Ada" (inr (PyStr "id-Ada"))) ∈ trace (run talk).
Proof. apply (at_position _ 8). vm_compute. reflexivity. Qed.

Lemma unknown_unmatched :
  Ev (Iter 2)
    (TestVoiceSegment (4000, 6000) "c1" 2 (6 # 10)%Q
       (inr (None, 0%Q, PyNone, Some 4000)))
    ∈ trace (run talk).
Proof. apply (at_position _ 12). vm_compute. reflexivity. Qed.

Lemma unknown_enrolled :
  Ev (Iter 2)
    (AutoUpdateEmbedding 4000 "Speaker_B"
       "s3://bucket/c1/utterances/utterance_002.wav" (PyFloat (95 # 100))
       (8 # 10)%Q (inr tt))
    ∈ trace (run talk).
Proof. apply (at_position _ 14). vm_compute. reflexivity. Qed.

Lemma unknown_added :
  Ev (Iter 2) (AddSpeaker "Speaker_B" (inr (PyStr "id-Speaker_B")))
    ∈ trace (run talk).
Proof. apply (at_position _ 13). vm_compute. reflexivity. Qed.

(** C1 on [talk]. *)
Lemma short_utterance_skipped_witness :
  talk !! 0%nat = Some clip_short ∧
  short clip_short ∧
  ∀ s seg c thr a,
    Ev s (TestVoiceSegment seg c 0%nat thr a) ∉ trace (run talk).
Proof.
  refine (conj eq_refl (conj clip_short_is_short _)).
  exact (proj1
    (short_utterance_skipped "in/talk.mp3" (Some "c1") None (6 # 10)%Q
       (8 # 10)%Q (world_of talk) "c1" "in/talk.mp3.wav" (0, 10000) talk
       0%nat clip_short (talk_prelude talk) eq_refl clip_short_is_short)).
Defined.

(** C2 on [talk]: the clip of Ada, matched at 0.9, is enrolled. *)
Lemma auto_enrollment_gate_witness :
  ∃ e n src c' t a,
    Ev (Iter 1) (AutoUpdateEmbedding e n src c' t a) ∈ trace (run talk).
Proof.
  apply (proj1
    (auto_enrollment_gate "in/talk.mp3" (Some "c1") None (6 # 10)%Q
       (8 # 10)%Q (world_of talk) "c1" "in/talk.mp3.wav" (0, 10000) talk
       1%nat clip_ada (2000, 3500) "c1" (6 # 10)%Q (Some "Ada") (9 # 10)%Q
       (PyStr "emb_1") (Some 2000) "Ada" (PyFloat (9 # 10))
       (PyStr "id-Ada") (talk_prelude talk) eq_refl ada_matched eq_refl
       ada_added (ex_intro _ (PyStr "hello there") eq_refl))).
  split; [by eexists|reflexivity].
Defined.

(** C3, as worded, fails on [talk]: the unknown speaker's clip is not
    matched, and it is enrolled as "Speaker_B". *)
Lemma unmatched_utterance_enrolled : ¬ enrolls_matched_only (trace (run talk)).
Proof.
  intros Hclaim.
  exact (Hclaim _ _ _ _ _ _ _ _ unknown_unmatched eq_refl _ _ _ _ _ _
           unknown_enrolled).
Qed.

(** C3 as amended, on [talk]. *)
Lemma unmatched_enrollment_gate_witness :
  talk !! 2%nat = Some clip_unknown ∧
  falsy (None : option string) = true ∧
  ∀ e n src c' t a,
    Ev (Iter 2) (AutoUpdateEmbedding e n src c' t a) ∈ trace (run talk) →
    Some 4000 = Some e ∧
    c' = get_default clip_unknown "confidence" (PyFloat 0) ∧
    py_gt c' (8 # 10)%Q = inr true ∧
    ∃ tag, clip_unknown !! "speaker" = Some tag ∧
      n = "Speaker_" +:+ py_format py_repr tag.
Proof.
  refine (conj eq_refl (conj eq_refl _)).
  exact (unmatched_enrollment_gate "in/talk.mp3" (Some "c1") None (6 # 10)%Q
           (8 # 10)%Q (world_of talk) "c1" "in/talk.mp3.wav" (0, 10000) talk
           2%nat clip_unknown (4000, 6000) "c1" (6 # 10)%Q None 0%Q PyNone
           (Some 4000) (talk_prelude talk) eq_refl unknown_unmatched eq_refl).
Defined.

(** C4 on [talk]. *)
Lemma unmatched_fallback_witness :
  talk !! 2%nat = Some clip_unknown ∧
  falsy (None : option string) = true ∧
  ∀ tag, clip_unknown !! "speaker" = Some tag →
    ∃ a, Ev (Iter 2) (AddSpeaker ("Speaker_" +:+ py_format py_repr tag) a)
           ∈ trace (run talk).
Proof.
  refine (conj eq_refl (conj eq_refl _)).
  exact (proj1
    (unmatched_fallback "in/talk.mp3" (Some "c1") None (6 # 10)%Q
       (8 # 10)%Q (world_of talk) "c1" "in/talk.mp3.wav" (0, 10000) talk
       2%nat clip_unknown (4000, 6000) "c1" (6 # 10)%Q None 0%Q PyNone
       (Some 4000) (talk_prelude talk) eq_refl unknown_unmatched eq_refl)).
Defined.


(** C6, as worded, fails on [talk_broken]: the first utterance has no
    ["start"], and the call returns [None], not the result. *)
Lemma malformed_utterance_aborts :
  talk_broken !! 0%nat = Some (delete "start" clip_ada) ∧
  is_Some (delete "start" clip_ada !! "words") ∧
  delete "start" clip_ada !! "start" = None ∧
  outcome (run talk_broken) = inr None.
Proof. split_and!; [done|by eexists; vm_compute|done|vm_compute; done]. Qed.

(** C6 as amended, on [talk_broken]. *)
Lemma errors_abort_conversation_witness :
  outcome (run talk_broken)
  = inr match outcome (try_body "in/talk.mp3" "c1" None (6 # 10)%Q (8 # 10)%Q
                        (0, 10000) talk_broken
                        (final (prelude "in/talk.mp3" (Some "c1")
                                  (world_of talk_broken)))) with
        | inl _ => None
        | inr v => v
        end.
Proof.
  exact (proj1
    (errors_abort_conversation "in/talk.mp3" (Some "c1") None (6 # 10)%Q
       (8 # 10)%Q (world_of talk_broken) "c1" "in/talk.mp3.wav" (0, 10000)
       talk_broken (talk_prelude talk_broken))
    (fixture_removal _ _ _)).
Defined.

(** C7, as worded, fails on [talk_broken]: the first utterance has no
    ["start"], and the second, which the guards would let through, is
    never processed. *)
Lemma malformed_utterance_stops_loop :
  delete "start" clip_ada !! "start" = None ∧
  talk_broken !! 1%nat = Some clip_unknown ∧
  survives clip_unknown ∧
  at_site (Iter 1) (trace (run talk_broken)) = [].
Proof.
  split_and!; [done|done|apply clip_unknown_survives|vm_compute; done].
Qed.

(** C7 as amended, on [talk_wordless]. *)
Lemma wordless_utterance_skipped_witness :
  at_site (Iter 0) (trace (run talk_wordless)) = [].
Proof.
  exact (proj1
    (wordless_utterance_skipped "in/talk.mp3" (Some "c1") None (6 # 10)%Q
       (8 # 10)%Q (world_of talk_wordless) "c1" "in/talk.mp3.wav" (0, 10000)
       talk_wordless 0%nat clip_wordless (talk_prelude talk_wordless)
       eq_refl eq_refl)).
Defined.



(** C9 on [talk_silent]. *)
Lemma empty_conversation_returns_none_witness :
  outcome (run talk_silent) = inr None.
Proof.
  exact (proj1
    (empty_conversation_returns_none "in/talk.mp3" (Some "c1") None
       (6 # 10)%Q (8 # 10)%Q (world_of talk_silent) "c1" "in/talk.mp3.wav"
       (0, 10000) talk_silent (talk_prelude talk_silent)
       (Forall_cons_2 _ _ _ (or_intror clip_short_is_short) (Forall_nil_2 _))
       (fixture_removal _ _ _))).
Defined.

Lemma silent_returns_none : outcome (run talk_silent) = inr None.
Proof. vm_compute. reflexivity. Qed.

(** X20 on [talk_silent]: the call returns [None], and the converted
    file is removed. *)
Lemma temporary_wav_removed_witness :
  ∃ cid' wav audio us,
    outcome (prelude "in/talk.mp3" (Some "c1") (world_of talk_silent))
    = inr (cid', wav, audio, us) ∧
    Ev Prelude (ConvertToWav "in/talk.mp3" (inr wav))
      ∈ trace (run talk_silent) ∧
    (wav ≠ "in/talk.mp3" →
     path_exists wav
       (final (attempt "in/talk.mp3" cid' None (6 # 10)%Q (8 # 10)%Q audio us
                 (final (prelude "in/talk.mp3" (Some "c1")
                           (world_of talk_silent))))) = true →
     Ev Cleanup (OsRemove wav (inr tt)) ∈ trace (run talk_silent)) ∧
    (∀ s p a, Ev s (OsRemove p a) ∈ trace (run talk_silent) →
       s = Cleanup ∧ p = wav ∧ p ≠ "in/talk.mp3").
Proof.
  exact (temporary_wav_removed "in/talk.mp3" (Some "c1") None (6 # 10)%Q
           (8 # 10)%Q (world_of talk_silent) None silent_returns_none).
Defined.
End FixtureFacts.

(** ** The further properties in the small world *)

Module MoreFacts.
Import Fixture.

Local Abbreviation event := (event Audio Embedding).
Local Abbreviation half := (6 # 10)%Q.
Local Abbreviation high := (8 # 10)%Q.

(** The row and the record of the clip of Ada, alone in [talk_single]. *)
Local Abbreviation ada_row :=
  (utterance_info "0a1b2c3d" 2000 3500 (PyStr "hello there")
     (PyFloat (9 # 10)) (PyStr "emb_0")
     "s3://bucket/c1/utterances/utterance_000.wav" (PyStr "id-Ada") "Ada"
     (PyStr "db-conversation-1") (PyList [PyStr "hello there"])).
Local Abbreviation ada_record :=
  (utterance_data 0 2000 3500 (PyStr "hello there") (PyFloat (9 # 10)) "Ada"
     (PyStr "emb_0") (PyList [PyStr "hello there"])
     (PyStr "db-conversation-1")).
Local Abbreviation single_result :=
  (Result "c1" "talk.mp3" "s3://bucket/c1/utterances/utterance_000.wav"
     [ada_record] "2024-01-01T12:00:00").

Lemma in_position (t : list event) (n : nat) (e : event) :
  t !! n = Some e → e ∈ t.
Proof. apply list_elem_of_lookup_2. Qed.

Lemma transcription_failed :
  Ev Prelude
    (Transcribe "in/talk.mp3.wav"
       (inl (OtherError "transcription unavailable")))
    ∈ trace (Outage.run_with Outage.TranscriptionDown talk).
Proof. apply (in_position _ 3). vm_compute. reflexivity. Qed.

Lemma registration_failed :
  Ev Body
    (AddConversation (conversation_info_for "in/talk.mp3" "c1" None (0, 10000))
       (inl (OtherError "database unavailable")))
    ∈ trace (Outage.run_with Outage.DatabaseDown talk).
Proof. apply (in_position _ 4). vm_compute. reflexivity. Qed.

Lemma removal_failed :
  Ev Cleanup
    (OsRemove "in/talk.mp3.wav" (inl (OtherError "read-only file system")))
    ∈ trace (Outage.run_with Outage.DiskReadOnly talk_single).
Proof. apply (in_position _ 15). vm_compute. reflexivity. Qed.

Lemma single_returned : outcome (run talk_single) = inr (Some single_result).
Proof. vm_compute. reflexivity. Qed.

Lemma single_stored :
  Ev (Iter 0) (AddUtterance ada_row (inr tt)) ∈ trace (run talk_single).
Proof. apply (in_position _ 10). vm_compute. reflexivity. Qed.

Lemma single_consolidated :
  Ev Epilogue
    (IdentifyUnknown [ada_record] "c1" (0, 10000) half high
       (inr [ada_record]))
    ∈ trace (run talk_single).
Proof. apply (in_position _ 11). vm_compute. reflexivity. Qed.

Lemma short_span : span clip_short = inr (0, 650).
Proof. vm_compute. reflexivity. Qed.

(** X2 on [talk], the transcription being down. *)
Lemma early_failure_propagates_witness :
  outcome (Outage.run_with Outage.TranscriptionDown talk)
  = inl (OtherError "transcription unavailable") ∧
  (∀ ev, ev ∈ trace (Outage.run_with Outage.TranscriptionDown talk) →
     ev_site ev = Prelude) ∧
  (∀ s' p' a,
     Ev s' (OsRemove p' a) ∉ trace (Outage.run_with Outage.TranscriptionDown talk)).
Proof.
  exact (early_failure_propagates "in/talk.mp3" None half high (Some "c1")
           (Outage.world_with Outage.TranscriptionDown talk) Prelude
           "in/talk.mp3.wav" (OtherError "transcription unavailable")
           (or_intror (or_intror transcription_failed))).
Defined.

(** X3 on [talk]. *)
Lemma conversation_registered_once_witness :
  ∃ a rest,
    trace (run talk)
    = trace (prelude "in/talk.mp3" (Some "c1") (world_of talk))
      ++ Ev Body
           (AddConversation
              (ConversationInfo "c1" (basename "in/talk.mp3")
                 (truediv_1000 (audio_len ((0, 10000) : Audio))) None) a)
         :: rest ∧
    ∀ s info' a', Ev s (AddConversation info' a') ∉ rest.
Proof.
  exact (conversation_registered_once "in/talk.mp3" None half high (Some "c1")
           (world_of talk) "c1" "in/talk.mp3.wav" (0, 10000) talk
           (FixtureFacts.talk_prelude talk)).
Defined.

(** X4 on [talk], the database being down. *)
Lemma registration_failure_skips_all_witness :
  (∀ i, at_site (Iter i) (trace (Outage.run_with Outage.DatabaseDown talk)) = []) ∧
  at_site Epilogue (trace (Outage.run_with Outage.DatabaseDown talk)) = [] ∧
  at_site Handler (trace (Outage.run_with Outage.DatabaseDown talk))
  = handler_trace (OtherError "database unavailable") ∧
  ∀ res, outcome (Outage.run_with Outage.DatabaseDown talk) ≠ inr (Some res).
Proof.
  exact (registration_failure_skips_all "in/talk.mp3" None half high
           (Some "c1") (Outage.world_with Outage.DatabaseDown talk) Body _ _
           registration_failed).
Defined.

(** X5 on [talk_broken]. *)
Lemma errors_reported_witness :
  at_site Handler (trace (run talk_broken))
  = match outcome (try_body "in/talk.mp3" "c1" None half high (0, 10000)
                     talk_broken
                     (final (prelude "in/talk.mp3" (Some "c1")
                               (world_of talk_broken)))) with
    | inl e =>
        [Ev Handler (Print (MsgError e)); Ev Handler (Print (MsgTraceback e))]
    | inr _ => []
    end.
Proof.
  exact (errors_reported "in/talk.mp3" None half high (Some "c1")
           (world_of talk_broken) "c1" "in/talk.mp3.wav" (0, 10000)
           talk_broken (FixtureFacts.talk_prelude talk_broken)).
Defined.

(** X6 on [talk]. *)
Lemma cleanup_decision_witness :
  (∃ s p b, Ev s (PathExists p b) ∈ trace (run talk))
  ↔ "in/talk.mp3.wav" ≠ "in/talk.mp3".
Proof.
  exact (proj1
    (cleanup_decision "in/talk.mp3" None half high (Some "c1")
       (world_of talk) "c1" "in/talk.mp3.wav" (0, 10000) talk
       (FixtureFacts.talk_prelude talk))).
Defined.

(** X7 on [talk_single], the disk being read-only. *)
Lemma removal_failure_propagates_witness :
  outcome (Outage.run_with Outage.DiskReadOnly talk_single)
  = inl (OtherError "read-only file system") ∧
  ∀ p', Ev Cleanup (Print (MsgRemoved p'))
          ∉ trace (Outage.run_with Outage.DiskReadOnly talk_single).
Proof.
  exact (removal_failure_propagates "in/talk.mp3" None half high (Some "c1")
           (Outage.world_with Outage.DiskReadOnly talk_single) Cleanup _ _
           removal_failed).
Defined.

(** X8 on [talk_single]. *)
Lemma result_from_consolidation_witness :
  ∃ md,
    at_site Epilogue (trace (run talk_single))
    = [Ev Epilogue
         (IdentifyUnknown md "c1" (0, 10000) half high
            (inr (r_utterances single_result)));
       Ev Epilogue
         (Print (MsgSuccess (length (r_utterances single_result)) "c1"));
       Ev Epilogue (DatetimeNow (r_timestamp single_result))] ∧
    r_original_file single_result = basename "in/talk.mp3" ∧
    at_site Handler (trace (run talk_single)) = [].
Proof.
  exact (result_from_consolidation "in/talk.mp3" None half high (Some "c1")
           (world_of talk_single) "c1" "in/talk.mp3.wav" (0, 10000)
           talk_single single_result (FixtureFacts.talk_prelude talk_single)
           single_returned).
Defined.

(** X9 on [talk_single]. *)
Lemma result_clip_is_last_witness :
  ∃ j u,
    talk_single !! j = Some u ∧ survives u ∧
    r_s3_path single_result = utterance_wav_path "c1" j ∧
    ∀ k u', (j < k)%nat → talk_single !! k = Some u' → filtered u'.
Proof.
  exact (result_clip_is_last "in/talk.mp3" None half high (Some "c1")
           (world_of talk_single) "c1" "in/talk.mp3.wav" (0, 10000)
           talk_single single_result (FixtureFacts.talk_prelude talk_single)
           single_returned).
Defined.

(** X10 on [talk_single]. *)
Lemma records_follow_survivors_witness :
  ∃ ks,
    Forall2 (λ d k, d !! "id" = Some (PyInt (Z.of_nat k))) [ada_record] ks ∧
    StronglySorted lt ks ∧
    ∀ k, k ∈ ks ↔ ∃ u, talk_single !! k = Some u ∧ survives u.
Proof.
  exact (records_follow_survivors "in/talk.mp3" None half high (Some "c1")
           (world_of talk_single) "c1" "in/talk.mp3.wav" (0, 10000)
           talk_single _ _ _ _ _ _ _
           (FixtureFacts.talk_prelude talk_single) single_consolidated).
Defined.

(** X12 on [talk_single]. *)
Lemma row_matches_record_witness :
  ∃ i u d,
    Iter 0 = Iter i ∧ talk_single !! i = Some u ∧
    dom ada_row = row_keys ∧
    ada_row !! "audio_file" = Some (PyStr (utterance_wav_path "c1" i)) ∧
    describes u i d ∧
    (∀ k, k ∈ record_keys → k ≠ "id" → ada_row !! k = d !! k) ∧
    (∀ s' md c fa t1 t2 a',
       Ev s' (IdentifyUnknown md c fa t1 t2 a') ∈ trace (run talk_single) →
       d ∈ md).
Proof.
  exact (row_matches_record "in/talk.mp3" None half high (Some "c1")
           (world_of talk_single) "c1" "in/talk.mp3.wav" (0, 10000)
           talk_single _ _ _ (FixtureFacts.talk_prelude talk_single)
           single_stored).
Defined.

(** X13 on [talk_single]. *)
Lemma row_speaker_registered_witness :
  ∃ name speaker_id uid,
    Ev (Iter 0) (AddSpeaker name (inr speaker_id)) ∈ trace (run talk_single) ∧
    ada_row !! "speaker" = Some (PyStr name) ∧
    ada_row !! "speaker_id" = Some speaker_id ∧
    Ev (Iter 0) (Uuid4 uid) ∈ trace (run talk_single) ∧
    ada_row !! "utterance_id" = Some (PyStr ("utterance_" +:+ uid)).
Proof.
  exact (row_speaker_registered "in/talk.mp3" None half high (Some "c1")
           (world_of talk_single) "c1" "in/talk.mp3.wav" (0, 10000)
           talk_single _ _ _ (FixtureFacts.talk_prelude talk_single)
           single_stored).
Defined.

(** X15 on [talk]: the clip of Ada. *)
Lemma match_calls_are_survivors_witness :
  Iter 1 = Iter 1 ∧ "c1" = "c1" ∧ half = half ∧
  ∃ u start_ms end_ms,
    talk !! 1%nat = Some u ∧ is_Some (u !! "words") ∧
    span u = inr (start_ms, end_ms) ∧ 700 ≤ end_ms - start_ms ∧
    (2000, 3500) = audio_slice (0, 10000) start_ms end_ms.
Proof.
  exact (match_calls_are_survivors "in/talk.mp3" None half high (Some "c1")
           (world_of talk) "c1" "in/talk.mp3.wav" (0, 10000) talk
           _ _ _ _ _ _ (FixtureFacts.talk_prelude talk)
           FixtureFacts.ada_matched).
Defined.

(** X16 on [talk]: the clip of the unknown speaker. *)
Lemma enrollment_source_witness :
  ∃ i u seg name0 confidence0 embedding_id speaker_id,
    Iter 2 = Iter i ∧ talk !! i = Some u ∧
    Ev (Iter i)
      (TestVoiceSegment seg "c1" i half
         (inr (name0, confidence0, embedding_id, Some 4000)))
      ∈ trace (run talk) ∧
    resolve_speaker u name0 confidence0
    = inr ("Speaker_B", PyFloat (95 # 100)) ∧
    Ev (Iter i) (AddSpeaker "Speaker_B" (inr speaker_id)) ∈ trace (run talk) ∧
    "s3://bucket/c1/utterances/utterance_002.wav" = utterance_wav_path "c1" i ∧
    high = high ∧ py_gt (PyFloat (95 # 100)) high = inr true.
Proof.
  exact (enrollment_source "in/talk.mp3" None half high (Some "c1")
           (world_of talk) "c1" "in/talk.mp3.wav" (0, 10000) talk
           _ _ _ _ _ _ _ (FixtureFacts.talk_prelude talk)
           FixtureFacts.unknown_enrolled).
Defined.

(** X17 on [talk]: the short clip. *)
Lemma short_utterance_reported_witness :
  (at_site (Iter 0) (trace (run talk)) = [] ∨
   at_site (Iter 0) (trace (run talk))
   = [Ev (Iter 0) (Print (MsgSkippingShort (650 - 0)))]) ∧
  (∀ s md c fa t1 t2 a,
     Ev s (IdentifyUnknown md c fa t1 t2 a) ∈ trace (run talk) →
     at_site (Iter 0) (trace (run talk))
     = [Ev (Iter 0) (Print (MsgSkippingShort (650 - 0)))]).
Proof.
  exact (short_utterance_reported "in/talk.mp3" None half high (Some "c1")
           (world_of talk) "c1" "in/talk.mp3.wav" (0, 10000) talk
           0%nat clip_short 0 650 (FixtureFacts.talk_prelude talk) eq_refl
           (ex_intro _ (PyList [PyStr "hi"]) eq_refl) short_span
           (eq_refl : (650 - 0 ?= 700) = Lt)).
Defined.
Lemma enrollment_failed :
  Ev (Iter 1)
    (AutoUpdateEmbedding 2000 "Ada"
       "s3://bucket/c1/utterances/utterance_001.wav" (PyFloat (9 # 10)) high
       (inl (OtherError "index unavailable")))
    ∈ trace (Outage.run_with Outage.IndexDown talk).
Proof. apply (in_position _ 9). vm_compute. reflexivity. Qed.

Lemma outage_prelude f us :
  outcome (prelude "in/talk.mp3" (Some "c1") (Outage.world_with f us))
  = match f with
    | Outage.TranscriptionDown => inl (OtherError "transcription unavailable")
    | _ => inr ("c1", "in/talk.mp3.wav", (0, 10000), us)
    end.
Proof. destruct f; vm_compute; reflexivity. Qed.

(** X18 on [talk], the index being down: the clip of Ada is not enrolled,
    and the clip after it is not looked at. *)
Lemma failure_stops_processing_witness :
  (∀ j, (1 < j)%nat →
     at_site (Iter j) (trace (Outage.run_with Outage.IndexDown talk)) = []) ∧
  at_site Epilogue (trace (Outage.run_with Outage.IndexDown talk)) = [] ∧
  at_site Handler (trace (Outage.run_with Outage.IndexDown talk))
  = handler_trace (OtherError "index unavailable") ∧
  ∀ res, outcome (Outage.run_with Outage.IndexDown talk) ≠ inr (Some res).
Proof.
  exact (failure_stops_processing "in/talk.mp3" None half high (Some "c1")
           (Outage.world_with Outage.IndexDown talk) "c1" "in/talk.mp3.wav"
           (0, 10000) talk 1%nat _ _ (outage_prelude Outage.IndexDown talk)
           enrollment_failed eq_refl).
Defined.

Lemma ada_named : "Ada" ≠ "".
Proof. discriminate. Qed.

(** X19 on [talk]: the clip of Ada. *)
Lemma matched_identity_kept_witness :
  ∃ a, Ev (Iter 1) (AddSpeaker "Ada" a) ∈ trace (run talk).
Proof.
  exact (proj1
    (matched_identity_kept "in/talk.mp3" None half high (Some "c1")
       (world_of talk) "c1" "in/talk.mp3.wav" (0, 10000) talk 1%nat
       _ _ _ "Ada" _ _ _ (FixtureFacts.talk_prelude talk)
       FixtureFacts.ada_matched ada_named)).
Defined.
(** C10.  On [talk], the transcription being down, the temporary file
    stays: [convert_to_wav] makes "in/talk.mp3.wav", which is not the
    input file and was not there before; [transcribe] raises, before the
    [try], so the call raises without running the [finally] block;
    [os.remove] is not called, and the file exists when the call ends. *)
Lemma temporary_wav_left_behind :
  path_exists "in/talk.mp3.wav" (Outage.world_with Outage.TranscriptionDown talk)
  = false ∧
  Ev Prelude (ConvertToWav "in/talk.mp3" (inr "in/talk.mp3.wav"))
    ∈ trace (Outage.run_with Outage.TranscriptionDown talk) ∧
  "in/talk.mp3.wav" ≠ "in/talk.mp3" ∧
  outcome (Outage.run_with Outage.TranscriptionDown talk)
  = inl (OtherError "transcription unavailable") ∧
  (∀ s p a,
     Ev s (OsRemove p a) ∉ trace (Outage.run_with Outage.TranscriptionDown talk)) ∧
  path_exists "in/talk.mp3.wav"
    (final (Outage.run_with Outage.TranscriptionDown talk)) = true.
Proof.
  split_and!.
  - vm_compute. reflexivity.
  - apply (in_position _ 1). vm_compute. reflexivity.
  - discriminate.
  - vm_compute. reflexivity.
  - intros s p a Hin. apply list_elem_of_lookup_1 in Hin as [n Hn].
    do 4 (destruct n as [|n]; [vm_compute in Hn; discriminate|]).
    vm_compute in Hn. discriminate.
  - vm_compute. reflexivity.
Qed.
End MoreFacts.
